(** * Date helpers of the calendar tool server (src/src/server.ts)

    A shallow embedding of the two exported helpers [getWeekOffset] and
    [normaliseDate], together with the part of the JavaScript host they
    rely on: values and their truthiness, strings as sequences of UTF-16
    code units, [String.prototype.trim], [padStart], the backtracking
    matcher behind the four regular-expression literals, and the
    date-time string parser used by [new Date(...)]. *)

From Stdlib Require Import ZArith NArith List Ascii String Lia.
From Stdlib Require Import Floats.SpecFloat.
From stdpp Require Import base option gmap.
Import ListNotations.

Local Open Scope Z_scope.

(** ** Host values *)

Module JS.

(** A string is a finite sequence of 16-bit code units. *)
Definition codeunit := N.
Definition jsstring := list codeunit.

(** Source literals are ASCII; [str] turns one into its code units. *)
Definition str (s : string) : jsstring :=
  List.map N_of_ascii (list_ascii_of_string s).

(** Abrupt completions: the exception these helpers meet is the
    TypeError of calling a property that is not a function. *)
Inductive error := TypeError (what : string).

Inductive completion (A : Type) :=
| Normal (a : A)
| Throw (e : error).
Arguments Normal {A} a.
Arguments Throw {A} e.

(** The values an argument can hold at run time.  Numbers are IEEE
    doubles.  An object is seen through the one property that the
    helpers use, its [trim]: [VObject None] has no callable [trim]
    (an array, a plain object, a date), and [VObject (Some c)] has
    one, whose call completes as [c]: a String object returns its
    trimmed text, an object with a method of its own returns or raises
    what that method does.  Not represented are an object whose [trim]
    returns something else than a string, and functions, symbols and
    big integers, none of which is a string or has a [trim]. *)
Inductive value :=
| VUndefined
| VNull
| VBoolean (b : bool)
| VNumber (x : spec_float)
| VString (s : jsstring)
| VObject (trim : option (completion jsstring)).

Inductive type_tag :=
| TUndefined | TObject | TBoolean | TNumber | TString.

(** [typeof v] *)
Definition typeof (v : value) : type_tag :=
  match v with
  | VUndefined => TUndefined
  | VNull => TObject
  | VBoolean _ => TBoolean
  | VNumber _ => TNumber
  | VString _ => TString
  | VObject _ => TObject
  end.

Definition type_tag_eqb (a b : type_tag) : bool :=
  match a, b with
  | TUndefined, TUndefined | TObject, TObject | TBoolean, TBoolean
  | TNumber, TNumber | TString, TString => true
  | _, _ => false
  end.

(** [ToBoolean]: the falsy values are undefined, null, false, +0, -0,
    NaN and the empty string. *)
Definition ToBoolean (v : value) : bool :=
  match v with
  | VUndefined | VNull => false
  | VBoolean b => b
  | VNumber (S754_zero _) | VNumber S754_nan => false
  | VNumber _ => true
  | VString [] => false
  | VString (_ :: _) => true
  | VObject _ => true
  end.

Definition bind {A B} (c : completion A) (k : A → completion B) : completion B :=
  match c with
  | Normal a => k a
  | Throw e => Throw e
  end.

(** White space and line terminators: the code units removed by
    [trim] and matched by the class escape [\s]. *)
Definition isWhiteSpace (c : codeunit) : bool :=
  ((9 <=? c) && (c <=? 13) || (c =? 32) || (c =? 160) || (c =? 5760)
   || (8192 <=? c) && (c <=? 8202) || (c =? 8232) || (c =? 8233)
   || (c =? 8239) || (c =? 8287) || (c =? 12288) || (c =? 65279))%N.

Fixpoint trimStart (s : jsstring) : jsstring :=
  match s with
  | c :: s' => if isWhiteSpace c then trimStart s' else s
  | [] => []
  end.

Definition trimEnd (s : jsstring) : jsstring :=
  rev (trimStart (rev s)).

(** [String.prototype.trim] *)
Definition trim (s : jsstring) : jsstring := trimEnd (trimStart s).

(** [new String(s)] *)
Definition StringObject (s : jsstring) : value :=
  VObject (Some (Normal (trim s))).

(** The method call [v.trim()]: strings find the built-in, objects
    their own or an inherited method if they have one, and for every
    other value the call raises a TypeError. *)
Definition call_trim (v : value) : completion jsstring :=
  match v with
  | VString s => Normal (trim s)
  | VObject (Some c) => c
  | VUndefined | VNull =>
      Throw (TypeError "Cannot read properties of undefined or null")
  | _ => Throw (TypeError "trim is not a function")
  end.

(** Whether [v.trim] is a function. *)
Definition hasCallableTrim (v : value) : bool :=
  match v with
  | VString _ | VObject (Some _) => true
  | _ => false
  end.

(** [s.padStart(n, '0')] *)
Definition padStart0 (n : nat) (s : jsstring) : jsstring :=
  repeat 48%N (n - length s) ++ s.

Definition isDigit (c : codeunit) : bool := ((48 <=? c) && (c <=? 57))%N.

Definition digitValue (c : codeunit) : Z := Z.of_N c - 48.

(** Unary plus on a string.  Only decimal digit strings arise in the
    helpers; any other text is reported as NaN ([None]). *)
Definition ToNumber (s : jsstring) : option Z :=
  match s with
  | [] => None
  | _ => if forallb isDigit s
         then Some (fold_left (λ acc c, 10 * acc + digitValue c) s 0)
         else None
  end.

(** Relational operators on numbers; a comparison with NaN is false. *)
Definition num_ge (x : option Z) (k : Z) : bool :=
  match x with Some n => k <=? n | None => false end.
Definition num_le (x : option Z) (k : Z) : bool :=
  match x with Some n => n <=? k | None => false end.

(** ASCII part of the lower-case mapping. *)
Definition isAscii (c : codeunit) : bool := (c <? 128)%N.
Definition asciiLower (c : codeunit) : codeunit :=
  if ((65 <=? c) && (c <=? 90))%N then (c + 32)%N else c.

(** [s.replace(/,/g, '')] *)
Definition removeCommas (s : jsstring) : jsstring :=
  List.filter (λ c, negb (c =? 44)%N) s.

(** What the helpers leave to the engine: the Unicode tables behind
    [toLowerCase] (fixed by the standard on ASCII text) and whether
    the date parser rolls a day of month past the end of a short
    month over into the next month (V8, hence Node) or rejects it. *)
Class Engine := {
  toLowerCase : jsstring → jsstring;
  toLowerCase_ascii :
    ∀ s, forallb isAscii s = true → toLowerCase s = List.map asciiLower s;
  rollsOverDays : bool
}.

End JS.
Import JS.

#[global] Instance completion_ret : MRet completion := @Normal.
#[global] Instance completion_bind : MBind completion := λ A B k c, bind c k.

(** ** Regular expressions *)

Module Regex.

(** The fragment of pattern syntax used by the four literals.
    Quantifiers are greedy and, in these patterns, only ever applied
    to a character class ([Rep]) or to an optional group ([Opt]);
    capturing groups are never nested nor placed under a quantifier
    or alternative, so the captures of a match are listed in the
    order of their opening parentheses. *)
Inductive regex :=
| Bol                                      (* ^ *)
| Eol                                      (* $ *)
| Class (p : codeunit → bool)              (* \d  \s  [...] *)
| Lit (w : jsstring)                       (* literal text *)
| Seq (r1 r2 : regex)
| Alt (r1 r2 : regex)                      (* r1|r2 *)
| Opt (r : regex)                          (* r? *)
| Rep (p : codeunit → bool) (lo : nat) (hi : option nat)  (* c{lo,hi}  c+ *)
| Group (r : regex).                       (* ( r ) *)

(** Matcher state: index into the subject, what is left of it, and
    the captures made so far. *)
Record mstate := MState {
  pos : nat;
  rest : jsstring;
  caps : list jsstring
}.

Fixpoint isPrefix (w s : jsstring) : bool :=
  match w, s with
  | [], _ => true
  | a :: w', b :: s' => (a =? b)%N && isPrefix w' s'
  | _ :: _, [] => false
  end.

(** Greedy bounded repetition of a class: all the ways to go on,
    longest first. *)
Fixpoint rep (p : codeunit → bool) (lo : nat) (hi : option nat)
         (i : nat) (cs : list jsstring) (s : jsstring) : list mstate :=
  let stop := match lo with O => [MState i s cs] | S _ => [] end in
  match hi, s with
  | Some O, _ => stop
  | _, c :: s' =>
      if p c then rep p (Nat.pred lo) (option_map Nat.pred hi) (S i) cs s' ++ stop
      else stop
  | _, [] => stop
  end.

(** Backtracking as a list of successes, in the order in which the
    engine would try them. *)
Fixpoint run (r : regex) (st : mstate) : list mstate :=
  match r with
  | Bol => match pos st with O => [st] | S _ => [] end
  | Eol => match rest st with [] => [st] | _ :: _ => [] end
  | Class p =>
      match rest st with
      | c :: s' => if p c then [MState (S (pos st)) s' (caps st)] else []
      | [] => []
      end
  | Lit w =>
      if isPrefix w (rest st)
      then [MState (pos st + length w) (skipn (length w) (rest st)) (caps st)]
      else []
  | Seq r1 r2 => flat_map (run r2) (run r1 st)
  | Alt r1 r2 => run r1 st ++ run r2 st
  | Opt r1 => run r1 st ++ [st]
  | Rep p lo hi => rep p lo hi (pos st) (caps st) (rest st)
  | Group r1 =>
      List.map (λ st', MState (pos st') (rest st')
                         (caps st' ++ [firstn (pos st' - pos st) (rest st)]))
               (run r1 st)
  end.

(** [RegExp.prototype.exec] for a pattern without flags: the first
    success at the leftmost start index; the result array holds the
    matched text followed by the captures. *)
Fixpoint exec_from (r : regex) (i : nat) (s : jsstring) : option (list jsstring) :=
  match run r (MState i s []) with
  | st' :: _ => Some (firstn (pos st' - i) s :: caps st')
  | [] => match s with
          | _ :: s' => exec_from r (S i) s'
          | [] => None
          end
  end.

Definition exec (r : regex) (s : jsstring) : option (list jsstring) :=
  exec_from r 0 s.

(** [re.test(s)] *)
Definition test (r : regex) (s : jsstring) : bool :=
  match exec r s with Some _ => true | None => false end.

(** Element [i] of a match array. *)
Definition group (m : list jsstring) (i : nat) : jsstring := nth i m [].

Fixpoint seq_of (rs : list regex) : regex :=
  match rs with
  | [] => Lit []
  | [r] => r
  | r :: rs' => Seq r (seq_of rs')
  end.

Fixpoint alt_of (ws : list jsstring) : regex :=
  match ws with
  | [] => Class (λ _, false)
  | [w] => Lit w
  | w :: ws' => Alt (Lit w) (alt_of ws')
  end.

(** Declarative reading of a pattern: [accepts r st st'] says that
    [r] can take the matcher from [st] to [st']. *)
Definition within (hi : option nat) (n : nat) : Prop :=
  match hi with Some h => (n <= h)%nat | None => True end.

Fixpoint accepts (r : regex) (st st' : mstate) : Prop :=
  match r with
  | Bol => pos st = O ∧ st' = st
  | Eol => rest st = [] ∧ st' = st
  | Class p =>
      ∃ c, rest st = c :: rest st' ∧ p c = true
           ∧ pos st' = S (pos st) ∧ caps st' = caps st
  | Lit w =>
      rest st = w ++ rest st' ∧ pos st' = (pos st + length w)%nat
      ∧ caps st' = caps st
  | Seq r1 r2 => ∃ mid, accepts r1 st mid ∧ accepts r2 mid st'
  | Alt r1 r2 => accepts r1 st st' ∨ accepts r2 st st'
  | Opt r1 => accepts r1 st st' ∨ st' = st
  | Rep p lo hi =>
      ∃ w, rest st = w ++ rest st' ∧ forallb p w = true
           ∧ (lo <= length w)%nat ∧ within hi (length w)
           ∧ pos st' = (pos st + length w)%nat ∧ caps st' = caps st
  | Group r1 =>
      ∃ mid w, accepts r1 st mid ∧ rest st = w ++ rest mid
               ∧ st' = MState (pos mid) (rest mid) (caps mid ++ [w])
  end.

(** [consumes st w cs st']: from [st] the matcher reads the text [w],
    records the captures [cs] and is then in [st']. *)
Definition consumes (st : mstate) (w : jsstring) (cs : list jsstring)
           (st' : mstate) : Prop :=
  rest st = w ++ rest st' ∧ pos st' = (pos st + length w)%nat
  ∧ caps st' = caps st ++ cs.

(** [stops p s]: a run of [p] cannot be extended into [s]. *)
Definition stops (p : codeunit → bool) (s : jsstring) : Prop :=
  match s with
  | [] => True
  | c :: _ => p c = false
  end.

End Regex.
Import Regex.

(** ** Time values *)

Module DateTime.

Definition msPerDay : Z := 86400000.

(** Day number of a time value. *)
Definition Day (t : Z) : Z := t / msPerDay.

Definition isLeapYear (y : Z) : bool :=
  (y mod 4 =? 0) && (negb (y mod 100 =? 0) || (y mod 400 =? 0)).

(** Day number of the first day of year [y], counted from the epoch. *)
Definition DayFromYear (y : Z) : Z :=
  365 * (y - 1970) + (y - 1969) / 4 - (y - 1901) / 100 + (y - 1601) / 400.

(** Days of the year before the first of month [m] (1 to 12). *)
Definition daysBeforeMonth (leap : bool) (m : Z) : Z :=
  let l := if leap then 1 else 0 in
  match m with
  | 1 => 0 | 2 => 31 | 3 => 59 + l | 4 => 90 + l | 5 => 120 + l
  | 6 => 151 + l | 7 => 181 + l | 8 => 212 + l | 9 => 243 + l
  | 10 => 273 + l | 11 => 304 + l | _ => 334 + l
  end.

Definition daysInMonth (y m : Z) : Z :=
  match m with
  | 2 => if isLeapYear y then 29 else 28
  | 4 | 6 | 9 | 11 => 30
  | _ => 31
  end.

(** [MakeDay] for a month in range: a day of month past the end of
    the month simply counts on into the following one. *)
Definition MakeDay (y m d : Z) : Z :=
  DayFromYear y + daysBeforeMonth (isLeapYear y) m + d - 1.

Definition MakeTime (h mi s ms : Z) : Z :=
  h * 3600000 + mi * 60000 + s * 1000 + ms.

Definition MakeDate (day time : Z) : Z := day * msPerDay + time.

Definition TimeClip (t : Z) : option Z :=
  if Z.abs t <=? 8640000000000000 then Some t else None.

Definition twoDigits (a b : codeunit) : Z := 10 * digitValue a + digitValue b.

(** The time value of [new Date(s)] for [s] in the date-time string
    format [YYYY-MM-DDTHH:mm:ssZ], the only form the guard of
    [getWeekOffset] lets through; [None] is the invalid date (NaN).
    Month and day must lie in 01-12 and 01-31. *)
Definition parseDateTime `{Engine} (s : jsstring) : option Z :=
  match s with
  | [y1; y2; y3; y4; a; m1; m2; b; d1; d2; t; h1; h2; c; n1; n2; c'; s1; s2; z] =>
      if forallb isDigit [y1; y2; y3; y4; m1; m2; d1; d2; h1; h2; n1; n2; s1; s2]
         && (a =? 45)%N && (b =? 45)%N && (t =? 84)%N
         && (c =? 58)%N && (c' =? 58)%N && (z =? 90)%N
      then
        let year := 100 * twoDigits y1 y2 + twoDigits y3 y4 in
        let month := twoDigits m1 m2 in
        let day := twoDigits d1 d2 in
        let hh := twoDigits h1 h2 in
        let mi := twoDigits n1 n2 in
        let ss := twoDigits s1 s2 in
        if (1 <=? month) && (month <=? 12) && (1 <=? day) && (day <=? 31)
           && (hh <=? 23) && (mi <=? 59) && (ss <=? 59)
           && (rollsOverDays || (day <=? daysInMonth year month))
        then TimeClip (MakeDate (MakeDay year month day) (MakeTime hh mi ss 0))
        else None
      else None
  | _ => None
  end.

End DateTime.
Import DateTime.

(** ** The helpers of server.ts *)

#[global] Typeclasses Transparent codeunit jsstring.

Definition dash : jsstring := str "-".

(** [/^\d{4}-\d{2}-\d{2}$/]: the anchor [^], then the rest. *)
Definition iso_body : regex :=
  seq_of [Rep isDigit 4 (Some 4%nat); Lit dash;
          Rep isDigit 2 (Some 2%nat); Lit dash;
          Rep isDigit 2 (Some 2%nat); Eol].

Definition re_iso : regex := Seq Bol iso_body.

Definition msPerWeek : Z := 1000 * 60 * 60 * 24 * 7.

(** [getWeekOffset(pastDate)].  The clock reading [new Date().getTime()]
    is the argument [now].  Time values are integers below 2^53 in
    magnitude and at most 2^24 weeks apart, a range on which the
    double-precision quotient followed by [Math.floor] is the integer
    quotient. *)
Definition getWeekOffset `{Engine} (pastDate : value) (now : Z) : completion Z :=
  if negb (ToBoolean pastDate) || negb (type_tag_eqb (typeof pastDate) TString)
  then mret 0
  else
    trimmed ← call_trim pastDate;
    if negb (test re_iso trimmed) then mret 0
    else
      match parseDateTime (trimmed ++ str "T00:00:00Z") with
      | None => mret 0
      | Some past =>
          let future := past >? now in
          let diffTime := Z.abs (now - past) in
          let diffWeeks := diffTime / msPerWeek in
          let result := diffWeeks + 1 in
          let result := if result <? 1 then 1 else result in
          let result := if future
                        then (if negb (result =? 1) then 1 else result)
                        else result in
          mret result
      end.

(** [[-./_]] *)
Definition isSeparator (c : codeunit) : bool :=
  ((c =? 45) || (c =? 46) || (c =? 47) || (c =? 95))%N.

(** [/^(\d{4})[-./_](\d{1,2})[-./_](\d{1,2})$/] *)
Definition direct_body : regex :=
  seq_of [Group (Rep isDigit 4 (Some 4%nat)); Class isSeparator;
          Group (Rep isDigit 1 (Some 2%nat)); Class isSeparator;
          Group (Rep isDigit 1 (Some 2%nat)); Eol].

Definition re_direct : regex := Seq Bol direct_body.

Definition month_names : list jsstring :=
  List.map str ["january"; "february"; "march"; "april"; "may"; "june"; "july";
                "august"; "september"; "october"; "november"; "december"]%string.

Definition MONTHS : gmap jsstring jsstring :=
  list_to_map
    (combine month_names
       (List.map str ["01"; "02"; "03"; "04"; "05"; "06"; "07";
                      "08"; "09"; "10"; "11"; "12"]%string)).

Definition ordinals : list jsstring :=
  List.map str ["st"; "nd"; "rd"; "th"]%string.

(** [(?:st|nd|rd|th)?] *)
Definition re_ordinal : regex := Opt (alt_of ordinals).

(** [/^(january|...|december)\s+(\d{1,2})(?:st|nd|rd|th)?\s+(\d{4})$/] *)
Definition month_day_body : regex :=
  seq_of [Group (alt_of month_names); Rep isWhiteSpace 1 None;
          Group (Rep isDigit 1 (Some 2%nat)); re_ordinal;
          Rep isWhiteSpace 1 None; Group (Rep isDigit 4 (Some 4%nat)); Eol].

Definition re_month_day : regex := Seq Bol month_day_body.

(** [/^(\d{1,2})(?:st|nd|rd|th)?\s+(january|...|december)\s+(\d{4})$/] *)
Definition day_month_body : regex :=
  seq_of [Group (Rep isDigit 1 (Some 2%nat)); re_ordinal;
          Rep isWhiteSpace 1 None; Group (alt_of month_names);
          Rep isWhiteSpace 1 None; Group (Rep isDigit 4 (Some 4%nat)); Eol].

Definition re_day_month : regex := Seq Bol day_month_body.

(** A property read inside a template literal: a missing key prints as
    the text "undefined".  The keys looked up in [MONTHS] are captures
    of the month alternative, so only its own twelve keys are ever read. *)
Definition property_text (o : gmap jsstring jsstring) (k : jsstring) : jsstring :=
  match o !! k with
  | Some v => v
  | None => str "undefined"
  end.

(** Lines 47-53: the direct numeric pattern.  [None] means that control
    falls through to the month-name patterns. *)
Definition numericBranch (s : jsstring) : option jsstring :=
  match exec re_direct s with
  | Some direct =>
      let y := group direct 1 in
      let m := group direct 2 in
      let d := group direct 3 in
      let month := padStart0 2 m in
      let day := padStart0 2 d in
      if num_ge (ToNumber month) 1 && num_le (ToNumber month) 12
         && num_ge (ToNumber day) 1 && num_le (ToNumber day) 31
      then Some (y ++ dash ++ month ++ dash ++ day)
      else None
  | None => None
  end.

(** Lines 54-74: the two month-name patterns. *)
Definition monthNameBranches `{Engine} (s : jsstring) : jsstring :=
  let lowered := removeCommas (toLowerCase s) in
  match exec re_month_day lowered with
  | Some m1 =>
      let mon := group m1 1 in
      let d := group m1 2 in
      let y := group m1 3 in
      let day := padStart0 2 d in
      y ++ dash ++ property_text MONTHS mon ++ dash ++ day
  | None =>
      match exec re_day_month lowered with
      | Some m2 =>
          let d := group m2 1 in
          let mon := group m2 2 in
          let y := group m2 3 in
          let day := padStart0 2 d in
          y ++ dash ++ property_text MONTHS mon ++ dash ++ day
      | None => []
      end
  end.

(** [normaliseDate(raw)] *)
Definition normaliseDate `{Engine} (raw : value) : completion jsstring :=
  if negb (ToBoolean raw) then mret []
  else
    s ← call_trim raw;
    match numericBranch s with
    | Some r => mret r
    | None => mret (monthNameBranches s)
    end.

(** Two reference engines, lower-casing by the ASCII table alone: one
    that rolls days over like Node, one that rejects them. *)
Definition refLowerCase (s : jsstring) : jsstring := List.map asciiLower s.

Definition rolloverEngine : Engine :=
  {| toLowerCase := refLowerCase;
     toLowerCase_ascii := λ s _, eq_refl;
     rollsOverDays := true |}.

Definition strictEngine : Engine :=
  {| toLowerCase := refLowerCase;
     toLowerCase_ascii := λ s _, eq_refl;
     rollsOverDays := false |}.

(** ** Shapes of text *)

(** [digits lo hi w]: between [lo] and [hi] decimal digits. *)
Definition digits (lo hi : nat) (w : jsstring) : Prop :=
  forallb isDigit w = true ∧ (lo <= length w <= hi)%nat.

(** The shape [\d{4}-\d{2}-\d{2}]. *)
Definition CanonicalDate (s : jsstring) : Prop :=
  ∃ y m d, s = y ++ dash ++ m ++ dash ++ d
           ∧ digits 4 4 y ∧ digits 2 2 m ∧ digits 2 2 d.

(** Decimal value of a digit string. *)
Definition decimal (w : jsstring) : Z :=
  fold_left (λ acc c, 10 * acc + digitValue c) w 0.

(** The instant the date constructor assigns to a canonical date taken
    as midnight UTC. *)
Definition midnightUTC `{Engine} (s : jsstring) : option Z :=
  parseDateTime (s ++ str "T00:00:00Z").

(** A non-empty run of white space. *)
Definition spaces (w : jsstring) : Prop :=
  forallb isWhiteSpace w = true ∧ w ≠ [].

(** The layouts "Month Day Year" and "Day Month Year" with single
    blanks, and the usual three-letter abbreviations (and "sept"). *)
Definition blank : jsstring := str " ".

Definition monthFirst (mon day year : jsstring) : jsstring :=
  mon ++ blank ++ day ++ blank ++ year.

Definition dayFirst (day mon year : jsstring) : jsstring :=
  day ++ blank ++ mon ++ blank ++ year.

Definition abbreviations : list jsstring :=
  List.map str ["jan"; "feb"; "mar"; "apr"; "jun"; "jul"; "aug"; "sep";
                "sept"; "oct"; "nov"; "dec"]%string.

(** Plain text: ASCII without capitals or commas, which lower-casing
    and the removal of commas leave as it is. *)
Definition isPlain (c : codeunit) : bool :=
  isAscii c && (asciiLower c =? c)%N && negb (c =? 44)%N.

(** The text shapes of the three patterns of [normaliseDate], with the
    pieces that the capturing groups pick out. *)
Definition NumericDate (s y m d : jsstring) : Prop :=
  ∃ c1 c2, s = y ++ c1 :: m ++ c2 :: d
           ∧ digits 4 4 y ∧ isSeparator c1 = true ∧ digits 1 2 m
           ∧ isSeparator c2 = true ∧ digits 1 2 d.

Definition MonthDayText (s mon d y : jsstring) : Prop :=
  ∃ ws1 suf ws2, s = mon ++ ws1 ++ d ++ suf ++ ws2 ++ y
                 ∧ In mon month_names ∧ spaces ws1 ∧ digits 1 2 d
                 ∧ (suf = [] ∨ In suf ordinals) ∧ spaces ws2 ∧ digits 4 4 y.

Definition DayMonthText (s d mon y : jsstring) : Prop :=
  ∃ suf ws1 ws2, s = d ++ suf ++ ws1 ++ mon ++ ws2 ++ y
                 ∧ digits 1 2 d ∧ (suf = [] ∨ In suf ordinals) ∧ spaces ws1
                 ∧ In mon month_names ∧ spaces ws2 ∧ digits 4 4 y.

(** The fields of a canonical date, and whether the date constructor
    accepts them. *)
Definition yearOf (s : jsstring) : Z := decimal (firstn 4 s).
Definition monthOf (s : jsstring) : Z := decimal (firstn 2 (skipn 5 s)).
Definition dayOf (s : jsstring) : Z := decimal (firstn 2 (skipn 8 s)).

Definition acceptsFields `{Engine} (y m d : Z) : bool :=
  (1 <=? m) && (m <=? 12) && (1 <=? d) && (d <=? 31)
  && (rollsOverDays || (d <=? daysInMonth y m)).

(** ** Validation of [pastDate] *)

(** The three guards of [getWeekOffset] (lines 10-22): the argument is
    empty or not a string, its trimmed text has not the canonical shape,
    or it has but the date constructor of the engine yields an invalid
    date.  Which dates those are is the engine's doing; an engine that
    rolls days over accepts 2025-02-30. *)
Inductive failsValidation `{Engine} : value → Prop :=
| fails_empty : failsValidation (VString [])
| fails_not_string v : typeof v ≠ TString → failsValidation v
| fails_shape s : ¬ CanonicalDate (trim s) → failsValidation (VString s)
| fails_date s :
    CanonicalDate (trim s) → midnightUTC (trim s) = None →
    failsValidation (VString s).





(** A valid argument together with the instant it denotes. *)
Definition validPastDate `{Engine} (s : jsstring) (p : Z) : Prop :=
  s ≠ [] ∧ CanonicalDate (trim s) ∧ midnightUTC (trim s) = Some p.

(** ** Number to text *)




(** ** The tools of server.ts and the client's display *)

(** An element of the [content] array of a tool response. *)
Record content_item := ContentItem {
  item_type : jsstring;
  item_text : jsstring
}.





(** [xs.join(sep)] on an array of strings. *)
Fixpoint join (sep : jsstring) (xs : list jsstring) : jsstring :=
  match xs with
  | [] => []
  | [x] => x
  | x :: xs' => x ++ sep ++ join sep xs'
  end.

(** The client's summary of a tool response (awsClient.ts, lines
    234-237): the texts of the items of type "text", joined by ", ". *)
Definition cleanResults (content : list content_item) : jsstring :=
  join (str ", ")
       (List.map item_text
          (List.filter (λ item, bool_decide (item_type item = str "text")) content)).

(** ** Percent decoding *)

Definition hexValue (c : codeunit) : option N :=
  if ((48 <=? c) && (c <=? 57))%N then Some (c - 48)%N
  else if ((65 <=? c) && (c <=? 70))%N then Some (c - 55)%N
  else if ((97 <=? c) && (c <=? 102))%N then Some (c - 87)%N
  else None.

(** An escape [%XX] at the head of the text: its octet and what
    follows it. *)
Definition parseHexOctet (s : jsstring) : option (N * jsstring) :=
  match s with
  | p :: h :: l :: rest =>
      if (p =? 37)%N then
        match hexValue h, hexValue l with
        | Some a, Some b => Some (16 * a + b, rest)%N
        | _, _ => None
        end
      else None
  | _ => None
  end.

Fixpoint readEscapes (n : nat) (s : jsstring) : option (list N * jsstring) :=
  match n with
  | O => Some ([], s)
  | S n' =>
      match parseHexOctet s with
      | Some (b, rest) =>
          match readEscapes n' rest with
          | Some (bs, rest') => Some (b :: bs, rest')
          | None => None
          end
      | None => None
      end
  end.

(** Number of leading 1 bits of an octet. *)
Definition leadingOnes (b : N) : nat :=
  if (b <? 128)%N then 0
  else if (b <? 192)%N then 1
  else if (b <? 224)%N then 2
  else if (b <? 240)%N then 3
  else if (b <? 248)%N then 4
  else 5.

Definition isContinuation (b : N) : bool := ((128 <=? b) && (b <=? 191))%N.

(** The code point of a well-formed UTF-8 sequence of two to four
    octets: no overlong forms, no surrogates, nothing above U+10FFFF. *)
Definition utf8CodePoint (octets : list N) : option N :=
  match octets with
  | [b0; b1] =>
      if ((194 <=? b0) && isContinuation b1)%N
      then Some ((b0 - 192) * 64 + (b1 - 128))%N
      else None
  | [b0; b1; b2] =>
      if (isContinuation b1 && isContinuation b2
          && (negb (b0 =? 224) || (160 <=? b1))
          && (negb (b0 =? 237) || (b1 <=? 159)))%N
      then Some (((b0 - 224) * 64 + (b1 - 128)) * 64 + (b2 - 128))%N
      else None
  | [b0; b1; b2; b3] =>
      if (isContinuation b1 && isContinuation b2 && isContinuation b3
          && (b0 <=? 244)
          && (negb (b0 =? 240) || (144 <=? b1))
          && (negb (b0 =? 244) || (b1 <=? 143)))%N
      then Some ((((b0 - 240) * 64 + (b1 - 128)) * 64 + (b2 - 128)) * 64
                 + (b3 - 128))%N
      else None
  | _ => None
  end.

Definition UTF16Encode (cp : N) : jsstring :=
  if (cp <? 65536)%N then [cp]
  else [55296 + (cp - 65536) / 1024; 56320 + (cp - 65536) mod 1024]%N.

(** The decoding loop of [decodeURIComponent]; [None] is the URIError.
    Each round consumes at least one code unit, so the length of the
    text is fuel enough. *)
Fixpoint decodeFrom (fuel : nat) (s : jsstring) : option jsstring :=
  match s, fuel with
  | [], _ => Some []
  | _ :: _, O => None
  | c :: s', S fuel' =>
      if (c =? 37)%N then
        match parseHexOctet s with
        | None => None
        | Some (b, rest) =>
            match leadingOnes b with
            | O => cons b <$> decodeFrom fuel' rest
            | 1%nat => None
            | S n' =>
                if (4 <? S n')%nat then None
                else
                  match readEscapes n' rest with
                  | None => None
                  | Some (bs, rest') =>
                      match utf8CodePoint (b :: bs) with
                      | None => None
                      | Some cp => app (UTF16Encode cp) <$> decodeFrom fuel' rest'
                      end
                  end
            end
        end
      else cons c <$> decodeFrom fuel' s'
  end.

Definition decodeURIComponent (s : jsstring) : option jsstring :=
  decodeFrom (length s) s.

(** ** JSON text *)

Definition hexDigit (d : N) : codeunit :=
  if (d <? 10)%N then (48 + d)%N else (87 + d)%N.

(** [\uXXXX] with lower-case digits. *)
Definition unicodeEscape (c : codeunit) : jsstring :=
  str "\u" ++ [hexDigit (c / 4096); hexDigit (c / 256 mod 16);
               hexDigit (c / 16 mod 16); hexDigit (c mod 16)]%N.

Definition isHighSurrogate (c : codeunit) : bool := ((55296 <=? c) && (c <=? 56319))%N.
Definition isLowSurrogate (c : codeunit) : bool := ((56320 <=? c) && (c <=? 57343))%N.

(** A code unit that is not half of a pair, as it appears inside a
    JSON string. *)
Definition quoteUnit (c : codeunit) : jsstring :=
  if (c =? 8)%N then str "\b"
  else if (c =? 9)%N then str "\t"
  else if (c =? 10)%N then str "\n"
  else if (c =? 12)%N then str "\f"
  else if (c =? 13)%N then str "\r"
  else if (c =? 34)%N then [92; 34]%N
  else if (c =? 92)%N then [92; 92]%N
  else if (c <? 32)%N || isHighSurrogate c || isLowSurrogate c
       then unicodeEscape c
  else [c].

Fixpoint quoteBody (s : jsstring) : jsstring :=
  match s with
  | [] => []
  | c :: s' =>
      if isHighSurrogate c then
        match s' with
        | d :: s'' =>
            if isLowSurrogate d then c :: d :: quoteBody s''
            else quoteUnit c ++ quoteBody s'
        | [] => quoteUnit c
        end
      else quoteUnit c ++ quoteBody s'
  end.

(** [JSON.stringify(s)] for a string [s]. *)
Definition QuoteJSONString (s : jsstring) : jsstring :=
  [34%N] ++ quoteBody s ++ [34%N].

(** ** The festival resource *)

(** An entry of data/calendar.json.  The file itself is not part of the
    sources at hand, so the calendar is an argument; [name] may be
    missing, as the handler allows for. *)
Record festival_entry := Festival {
  name : option jsstring;
  date : jsstring
}.

(** A variable of a URI template: absent, a string, or a list. *)
Inductive variable :=
| VarMissing
| VarString (s : jsstring)
| VarList (l : list jsstring).

Definition variableTruthy (v : variable) : bool :=
  match v with
  | VarMissing | VarString [] => false
  | _ => true
  end.

(** [String(v)] *)
Definition variableText (v : variable) : jsstring :=
  match v with
  | VarMissing => str "undefined"
  | VarString s => s
  | VarList l => join (str ",") l
  end.

Record resource_content := ResourceContent {
  uri : jsstring;
  text : jsstring;
  mimeType : jsstring
}.

(** Line 167 *)
Definition festivalRaw (festival : variable) : option jsstring :=
  if variableTruthy festival then decodeURIComponent (variableText festival)
  else Some [].

(** Line 168 *)
Definition festivalKey `{Engine} (raw : jsstring) : jsstring :=
  toLowerCase (trim raw).

(** Lines 169-171 *)
Definition findFestival `{Engine} (calendar : list festival_entry)
           (key : jsstring) : option festival_entry :=
  List.find (λ f, match name f with
                  | Some n => bool_decide (toLowerCase (trim n) = key)
                  | None => false
                  end) calendar.

(** [JSON.stringify({ error: `Festival not found: ${raw}` })] *)
Definition notFoundText (raw : jsstring) : jsstring :=
  str "{" ++ QuoteJSONString (str "error") ++ str ":"
  ++ QuoteJSONString (str "Festival not found: " ++ raw) ++ str "}".

(** [JSON.stringify({ name: entry.name, date: entry.date })]; a
    property whose value is undefined is left out. *)
Definition entryText (entry : festival_entry) : jsstring :=
  match name entry with
  | Some n =>
      str "{" ++ QuoteJSONString (str "name") ++ str ":" ++ QuoteJSONString n
      ++ str "," ++ QuoteJSONString (str "date") ++ str ":"
      ++ QuoteJSONString (date entry) ++ str "}"
  | None =>
      str "{" ++ QuoteJSONString (str "date") ++ str ":"
      ++ QuoteJSONString (date entry) ++ str "}"
  end.

(** The handler of the resource [festival-date] (lines 161-194);
    [href] is [uri.href], and [None] means that the handler rejects
    with the URIError of [decodeURIComponent]. *)
Definition festivalDate `{Engine} (calendar : list festival_entry)
           (href : jsstring) (festival : variable)
  : option (list resource_content) :=
  raw ← festivalRaw festival;
  let key := festivalKey raw in
  match findFestival calendar key with
  | None =>
      Some [ResourceContent href (notFoundText raw) (str "application/json")]
  | Some entry =>
      Some [ResourceContent href (entryText entry) (str "application/json")]
  end.

(** Text in which every surrogate is half of a pair. *)
Fixpoint wellFormedUTF16 (s : jsstring) : bool :=
  match s with
  | [] => true
  | c :: s' =>
      if isHighSurrogate c then
        match s' with
        | d :: s'' => isLowSurrogate d && wellFormedUTF16 s''
        | [] => false
        end
      else negb (isLowSurrogate c) && wellFormedUTF16 s'
  end.

(** Text without a code unit below U+0020, the control characters that
    JSON does not allow unescaped inside a string.  The other control
    characters, U+007F and U+0080 to U+009F, are not looked at:
    [JSON.stringify] leaves them as they are. *)
Definition noC0Controls (s : jsstring) : bool := forallb (λ c, 32 <=? c)%N s.

(** An entry answers to a key when it has a name that, trimmed and
    lower-cased, is the key. *)
Definition matchesKey `{Engine} (key : jsstring) (f : festival_entry) : Prop :=
  ∃ n, name f = Some n ∧ toLowerCase (trim n) = key.

(** A code unit that is neither a control character nor a surrogate. *)
Definition isOrdinary (c : codeunit) : bool :=
  (32 <=? c)%N && negb (isHighSurrogate c) && negb (isLowSurrogate c).

(** ** Reading JSON text (the client's [JSON.parse]) *)

#[local] Set Warnings "-register-all".

(** Parsed values.  A number keeps its text: none of the values read
    here is a number. *)
Inductive json :=
| JNull
| JBool (b : bool)
| JNumber (lexeme : jsstring)
| JString (s : jsstring)
| JArray (elements : list json)
| JObject (members : list (jsstring * json)).

Definition isJSONWhiteSpace (c : codeunit) : bool :=
  ((c =? 32) || (c =? 9) || (c =? 10) || (c =? 13))%N.

Fixpoint skipWhiteSpace (s : jsstring) : jsstring :=
  match s with
  | c :: s' => if isJSONWhiteSpace c then skipWhiteSpace s' else s
  | [] => []
  end.

(** The single-character escapes after a backslash. *)
Definition simpleEscape (e : codeunit) : option codeunit :=
  if (e =? 34)%N then Some 34%N
  else if (e =? 92)%N then Some 92%N
  else if (e =? 47)%N then Some 47%N
  else if (e =? 98)%N then Some 8%N
  else if (e =? 102)%N then Some 12%N
  else if (e =? 110)%N then Some 10%N
  else if (e =? 114)%N then Some 13%N
  else if (e =? 116)%N then Some 9%N
  else None.

Definition prepend (c : codeunit) (r : option (jsstring * jsstring))
  : option (jsstring * jsstring) :=
  match r with
  | Some (w, rest) => Some (c :: w, rest)
  | None => None
  end.

(** The characters of a string literal after its opening quote, up to
    and including the closing one. *)
Fixpoint parseChars (s : jsstring) : option (jsstring * jsstring) :=
  match s with
  | [] => None
  | c :: s' =>
      if (c =? 34)%N then Some ([], s')
      else if (c =? 92)%N then
        match s' with
        | e :: s'' =>
            if (e =? 117)%N then
              match s'' with
              | h1 :: h2 :: h3 :: h4 :: s3 =>
                  match hexValue h1, hexValue h2, hexValue h3, hexValue h4 with
                  | Some a, Some b, Some c', Some d =>
                      prepend (4096 * a + 256 * b + 16 * c' + d)%N (parseChars s3)
                  | _, _, _, _ => None
                  end
              | _ => None
              end
            else
              match simpleEscape e with
              | Some u => prepend u (parseChars s'')
              | None => None
              end
        | [] => None
        end
      else if (c <? 32)%N then None
      else prepend c (parseChars s')
  end.

Definition parseString (s : jsstring) : option (jsstring * jsstring) :=
  match s with
  | c :: s' => if (c =? 34)%N then parseChars s' else None
  | [] => None
  end.

Fixpoint spanDigits (s : jsstring) : jsstring * jsstring :=
  match s with
  | c :: s' =>
      if isDigit c then let (w, r) := spanDigits s' in (c :: w, r) else ([], s)
  | [] => ([], [])
  end.

(** One or more digits. *)
Definition someDigits (s : jsstring) : option (jsstring * jsstring) :=
  match spanDigits s with
  | ([], _) => None
  | (w, r) => Some (w, r)
  end.

(** A number token: an optional minus sign; a zero, or a digit from 1
    to 9 and any digits; optionally a point and one or more digits;
    optionally e or E, an optional sign and one or more digits. *)
Definition parseNumber (s : jsstring) : option (jsstring * jsstring) :=
  let (sign, s1) := match s with
                    | c :: r => if (c =? 45)%N then ([c], r) else ([], s)
                    | [] => ([], s)
                    end in
  match
    match s1 with
    | c :: r => if (c =? 48)%N then Some ([c], r) else someDigits s1
    | [] => None
    end
  with
  | None => None
  | Some (int, s2) =>
      match
        match s2 with
        | c :: r =>
            if (c =? 46)%N then
              match someDigits r with
              | Some (w, r') => Some (c :: w, r')
              | None => None
              end
            else Some ([], s2)
        | [] => Some ([], s2)
        end
      with
      | None => None
      | Some (frac, s3) =>
          match s3 with
          | c :: r =>
              if ((c =? 101) || (c =? 69))%N then
                let (esign, r1) :=
                  match r with
                  | d :: r' => if ((d =? 43) || (d =? 45))%N then ([d], r') else ([], r)
                  | [] => ([], r)
                  end in
                match someDigits r1 with
                | Some (w, r2) => Some (sign ++ int ++ frac ++ c :: esign ++ w, r2)
                | None => None
                end
              else Some (sign ++ int ++ frac, s3)
          | [] => Some (sign ++ int ++ frac, s3)
          end
      end
  end.

(** Values, the elements of an array after its bracket and the members
    of an object after its brace.  The recursion is on fuel: a value
    takes one unit, and one more for every element or member that
    stands before it in the array or object around it.  Each of these
    is at least one code unit of the text, so its length is fuel
    enough. *)
Fixpoint parseValue (fuel : nat) (s : jsstring) : option (json * jsstring) :=
  match fuel with
  | O => None
  | S fuel' =>
      match skipWhiteSpace s with
      | [] => None
      | c :: r =>
          if (c =? 123)%N then
            match skipWhiteSpace r with
            | d :: r' =>
                if (d =? 125)%N then Some (JObject [], r')
                else parseMembers fuel' r []
            | [] => None
            end
          else if (c =? 91)%N then
            match skipWhiteSpace r with
            | d :: r' =>
                if (d =? 93)%N then Some (JArray [], r')
                else parseElements fuel' r []
            | [] => None
            end
          else if (c =? 34)%N then
            match parseChars r with
            | Some (w, r') => Some (JString w, r')
            | None => None
            end
          else if isPrefix (str "true") (c :: r) then Some (JBool true, skipn 3 r)
          else if isPrefix (str "false") (c :: r) then Some (JBool false, skipn 4 r)
          else if isPrefix (str "null") (c :: r) then Some (JNull, skipn 3 r)
          else
            match parseNumber (c :: r) with
            | Some (w, r') => Some (JNumber w, r')
            | None => None
            end
      end
  end
with parseElements (fuel : nat) (s : jsstring) (acc : list json)
  : option (json * jsstring) :=
  match fuel with
  | O => None
  | S fuel' =>
      match parseValue fuel' s with
      | Some (v, r) =>
          match skipWhiteSpace r with
          | c :: r' =>
              if (c =? 44)%N then parseElements fuel' r' (acc ++ [v])
              else if (c =? 93)%N then Some (JArray (acc ++ [v]), r')
              else None
          | [] => None
          end
      | None => None
      end
  end
with parseMembers (fuel : nat) (s : jsstring) (acc : list (jsstring * json))
  : option (json * jsstring) :=
  match fuel with
  | O => None
  | S fuel' =>
      match parseString (skipWhiteSpace s) with
      | Some (k, r) =>
          match skipWhiteSpace r with
          | c :: r1 =>
              if (c =? 58)%N then
                match parseValue fuel' r1 with
                | Some (v, r2) =>
                    match skipWhiteSpace r2 with
                    | d :: r3 =>
                        if (d =? 44)%N then parseMembers fuel' r3 (acc ++ [(k, v)])
                        else if (d =? 125)%N then Some (JObject (acc ++ [(k, v)]), r3)
                        else None
                    | [] => None
                    end
                | None => None
                end
              else None
          | [] => None
          end
      | None => None
      end
  end.

(** [JSON.parse(text)]; [None] is the SyntaxError. *)
Definition JSONparse (s : jsstring) : option json :=
  match parseValue (S (length s)) s with
  | Some (v, r) => match skipWhiteSpace r with [] => Some v | _ :: _ => None end
  | None => None
  end.

(** The property [key] of a parsed object: of two members with the same
    key the later one counts.  [None] is undefined. *)
Fixpoint lookupMember (key : jsstring) (members : list (jsstring * json))
  : option json :=
  match members with
  | [] => None
  | (k, v) :: rest =>
      match lookupMember key rest with
      | Some v' => Some v'
      | None => if bool_decide (k = key) then Some v else None
      end
  end.

(** What the client makes of the response to a festival request
    (awsClient.ts, lines 207-212): nothing when there are no contents,
    a failure when the text is no JSON or is [null], and otherwise the
    [name] and [date] it puts into its final answer.  Among the parsed
    values only objects have such properties. *)
Inductive festival_answer :=
| NoAnswer
| AnswerFails
| FinalAnswer (name date : option json).

Definition readFestivalAnswer (contents : list resource_content) : festival_answer :=
  match contents with
  | [] => NoAnswer
  | first :: _ =>
      match JSONparse (text first) with
      | None => AnswerFails
      | Some JNull => AnswerFails
      | Some (JObject members) =>
          FinalAnswer (lookupMember (str "name") members)
                      (lookupMember (str "date") members)
      | Some _ => FinalAnswer None None
      end
  end.


(** ** The prompt [get-duration] *)

(** The user message (lines 222-228):
    [JSON.stringify({ query, knownDuration: knownDuration || null })]. *)
Definition durationInput (query : jsstring) (knownDuration : option jsstring)
  : jsstring :=
  str "{" ++ QuoteJSONString (str "query") ++ str ":" ++ QuoteJSONString query
  ++ str "," ++ QuoteJSONString (str "knownDuration") ++ str ":"
  ++ match knownDuration with
     | Some ((_ :: _) as k) => QuoteJSONString k
     | _ => str "null"
     end ++ str "}".


(** ** The list of festivals (server.ts, lines 128-151) *)

Definition lineBreak (indent : jsstring) : jsstring := 10%N :: indent.

(** An entry as an element of the indented array. *)
Definition entryLines (e : festival_entry) : jsstring :=
  match name e with
  | Some n =>
      str "{" ++ lineBreak (str "    ")
      ++ QuoteJSONString (str "name") ++ str ": " ++ QuoteJSONString n
      ++ str "," ++ lineBreak (str "    ")
      ++ QuoteJSONString (str "date") ++ str ": " ++ QuoteJSONString (date e)
      ++ lineBreak (str "  ") ++ str "}"
  | None =>
      str "{" ++ lineBreak (str "    ")
      ++ QuoteJSONString (str "date") ++ str ": " ++ QuoteJSONString (date e)
      ++ lineBreak (str "  ") ++ str "}"
  end.

(** [JSON.stringify(calendar, null, 2)] *)
Definition calendarText (calendar : list festival_entry) : jsstring :=
  match calendar with
  | [] => str "[]"
  | _ :: _ =>
      str "[" ++ lineBreak (str "  ")
      ++ join (str "," ++ lineBreak (str "  ")) (List.map entryLines calendar)
      ++ lineBreak [] ++ str "]"
  end.

(** The handler of the resource [calendar-list] (lines 136-150). *)
Definition calendarList (calendar : list festival_entry) (href : jsstring)
  : list resource_content :=
  [ResourceContent href (calendarText calendar) (str "application/json")].

Definition entryJson (e : festival_entry) : json :=
  JObject (match name e with
           | Some n => [(str "name", JString n)]
           | None => []
           end ++ [(str "date", JString (date e))]).


(** ** The client's list of resources (awsClient.ts, lines 91-93) *)

Module Listing.

(** What the client uses of a listed resource and of a listed resource
    template. *)
Record resource := Resource {
  name : jsstring;
  uri : jsstring
}.

Record template := Template {
  templateName : jsstring;
  uriTemplate : jsstring;
  description : option jsstring
}.

(** [`${r.name} (${r.uri})`] *)
Definition describeResource (r : resource) : jsstring :=
  name r ++ str " (" ++ uri r ++ str ")".

(** [`${rt.name} template (${rt.uriTemplate}) - ${rt.description || 'No description'}`] *)
Definition describeTemplate (rt : template) : jsstring :=
  templateName rt ++ str " template (" ++ uriTemplate rt ++ str ") - "
  ++ match description rt with
     | Some ((_ :: _) as d) => d
     | _ => str "No description"
     end.

(** [Boolean(s)] for a string. *)
Definition nonEmpty (s : jsstring) : bool :=
  match s with [] => false | _ :: _ => true end.

Definition allResources (resources : list resource) (templates : list template)
  : jsstring :=
  let resourceList := join (str ", ") (List.map describeResource resources) in
  let templateList := join (str ", ") (List.map describeTemplate templates) in
  join (str ", ") (List.filter nonEmpty [resourceList; templateList]).

End Listing.


(** ** The client's choice of a resource (awsClient.ts, lines 199-221) *)

(** [s.includes(w)] *)
Fixpoint includes (w s : jsstring) : bool :=
  isPrefix w s || match s with [] => false | _ :: s' => includes w s' end.

(** What the client reads for the argument [resource_uri] of a call of
    [get_resource]: in the first branch the URI as given, and the
    answer is then taken apart as a festival; in the second branch the
    URI with the alias replaced ([None] is undefined). *)
Inductive fetch :=
| FestivalFetch (uri : jsstring)
| PlainFetch (uri : option jsstring).

Definition routeResource (resource_uri : option jsstring) : fetch :=
  match resource_uri with
  | Some ((_ :: _) as u) =>
      if includes (str "festival") u then FestivalFetch u
      else PlainFetch (Some (if bool_decide (u = str "calendar-list")
                             then str "calendar://all-festivals" else u))
  | Some [] => PlainFetch (Some [])
  | None => PlainFetch None
  end.


(** ** The client's reading of the arguments of a call (lines 181-191) *)

(** [s.replace(/\\'/g, "'")]: from left to right, every backslash
    with an apostrophe after it gives way to the apostrophe alone. *)
Fixpoint fixQuotes (s : jsstring) : jsstring :=
  match s with
  | [] => []
  | c :: r =>
      match r with
      | d :: r' =>
          if ((c =? 92) && (d =? 39))%N then 39%N :: fixQuotes r'
          else c :: fixQuotes r
      | [] => [c]
      end
  end.

(** The arguments given as a string: [None] is the SyntaxError of the
    second [JSON.parse], which ends the handling of the tool calls
    (the [catch] of line 244 logs it). *)
Definition parseArguments (arguments : jsstring) : option json :=
  match JSONparse arguments with
  | Some args => Some args
  | None => JSONparse (fixQuotes arguments)
  end.

(** A text in which a backslash has been put before every apostrophe. *)
Fixpoint escapeApostrophes (s : jsstring) : jsstring :=
  match s with
  | [] => []
  | c :: r =>
      if (c =? 39)%N then 92%N :: 39%N :: escapeApostrophes r
      else c :: escapeApostrophes r
  end.


(** * Properties *)

(** ** The matcher meets its declarative reading *)

Lemma isPrefix_app w s : isPrefix w s = true → s = w ++ skipn (length w) s.
Proof.
  revert s; induction w as [|a w IH]; intros [|b s] Hp; simpl in *; try done.
  apply andb_true_iff in Hp as [Hab Hp].
  apply N.eqb_eq in Hab; subst b. f_equal. by apply IH.
Qed.

Lemma isPrefix_intro w s : isPrefix w (w ++ s) = true.
Proof.
  induction w as [|a w IH]; simpl; [done|].
  by rewrite N.eqb_refl, IH.
Qed.

Lemma rep_sound p lo hi i cs s st' :
  In st' (rep p lo hi i cs s) →
  ∃ w, s = w ++ rest st' ∧ forallb p w = true ∧ (lo <= length w)%nat
       ∧ within hi (length w) ∧ pos st' = (i + length w)%nat ∧ caps st' = cs.
Proof.
  revert lo hi i.
  induction s as [|c s IH]; intros lo hi i Hin.
  - assert (Hstop : In st' (match lo with O => [MState i [] cs] | S _ => [] end)).
    { destruct hi as [[|h]|]; exact Hin. }
    destruct lo; [|destruct Hstop].
    destruct Hstop as [<-|[]]. exists []. simpl.
    repeat split; try lia. destruct hi; simpl; lia.
  - assert (Hcases :
      In st' (match lo with O => [MState i (c :: s) cs] | S _ => [] end)
      ∨ (p c = true ∧ hi ≠ Some O
         ∧ In st' (rep p (Nat.pred lo) (option_map Nat.pred hi) (S i) cs s))).
    { simpl in Hin. destruct hi as [[|h]|]; [by left| |];
        (destruct (p c) eqn:Hc; [|by left]);
        apply in_app_or in Hin as [Hin|Hin]; auto. }
    destruct Hcases as [Hstop|(Hc & Hhi & Hin')].
    + destruct lo; [|destruct Hstop].
      destruct Hstop as [<-|[]]. exists []. simpl.
      repeat split; try lia. destruct hi; simpl; lia.
    + apply IH in Hin' as (w & Hs & Hw & Hlo & Hwi & Hpos & Hcs).
      exists (c :: w). simpl. rewrite Hc, Hw, <- Hs.
      repeat split; try lia; try done.
      destruct hi as [[|h]|]; simpl in *; try done; lia.
Qed.

Lemma rep_cons p lo hi i cs c s :
  rep p lo hi i cs (c :: s) =
  let stop := match lo with O => [MState i (c :: s) cs] | S _ => [] end in
  if bool_decide (hi = Some O) then stop
  else if p c then rep p (Nat.pred lo) (option_map Nat.pred hi) (S i) cs s ++ stop
       else stop.
Proof. by destruct hi as [[|h]|]. Qed.

Lemma rep_complete p lo hi i cs w s :
  forallb p w = true → (lo <= length w)%nat → within hi (length w) →
  In (MState (i + length w) s cs) (rep p lo hi i cs (w ++ s)).
Proof.
  revert lo hi i.
  induction w as [|c w IH]; intros lo hi i Hw Hlo Hhi.
  - simpl in Hlo. assert (lo = O) as -> by lia.
    rewrite Nat.add_0_r. simpl app.
    destruct s as [|c s].
    + destruct hi as [[|h]|]; simpl; auto.
    + rewrite rep_cons. cbv zeta.
      case_bool_decide; [by left|].
      destruct (p c); [apply in_or_app; right|]; by left.
  - simpl in Hw. apply andb_true_iff in Hw as [Hc Hw].
    change ((c :: w) ++ s) with (c :: (w ++ s)).
    rewrite rep_cons. cbv zeta.
    case_bool_decide as Hz; [subst hi; simpl in Hhi; lia|].
    rewrite Hc. apply in_or_app; left.
    replace (i + length (c :: w))%nat with (S i + length w)%nat by (simpl; lia).
    apply IH; [done|simpl in Hlo; lia|].
    destruct hi as [[|h]|]; simpl in *; try done; lia.
Qed.

Lemma accepts_consumes r : ∀ st st',
  accepts r st st' →
  ∃ w, rest st = w ++ rest st' ∧ pos st' = (pos st + length w)%nat.
Proof.
  induction r as [| |p|w|r1 IH1 r2 IH2|r1 IH1 r2 IH2|r1 IH1|p lo hi|r1 IH1];
    intros st st' Hacc; simpl in Hacc.
  - destruct Hacc as [_ ->]. exists []. simpl. split; [done|lia].
  - destruct Hacc as [_ ->]. exists []. simpl. split; [done|lia].
  - destruct Hacc as (c & Hr & _ & Hp & _). exists [c]. simpl. split; [done|lia].
  - destruct Hacc as (Hr & Hp & _). by exists w.
  - destruct Hacc as (mid & H1 & H2).
    apply IH1 in H1 as (w1 & Hr1 & Hp1). apply IH2 in H2 as (w2 & Hr2 & Hp2).
    exists (w1 ++ w2). rewrite <- app_assoc, <- Hr2, length_app. split; [done|lia].
  - destruct Hacc as [H|H]; eauto.
  - destruct Hacc as [H| ->]; eauto. exists []. simpl. split; [done|lia].
  - destruct Hacc as (w & Hr & _ & _ & _ & Hp & _). by exists w.
  - destruct Hacc as (mid & w & H1 & Hr & ->). simpl.
    apply IH1 in H1 as (w1 & Hr1 & Hp1). by exists w1.
Qed.

Lemma capture_text r st mid w :
  accepts r st mid → rest st = w ++ rest mid →
  firstn (pos mid - pos st) (rest st) = w.
Proof.
  intros Hacc Hr.
  apply accepts_consumes in Hacc as (w' & Hr' & Hp).
  assert (w' = w) as -> by (apply (app_inv_tail (rest mid)); congruence).
  rewrite Hr, Hp. replace (pos st + length w - pos st)%nat with (length w) by lia.
  apply take_app_length.
Qed.

Lemma run_sound r : ∀ st st', In st' (run r st) → accepts r st st'.
Proof.
  induction r as [| |p|w|r1 IH1 r2 IH2|r1 IH1 r2 IH2|r1 IH1|p lo hi|r1 IH1];
    intros st st' Hin; simpl in *.
  - destruct (pos st) eqn:Hp; [|destruct Hin]. destruct Hin as [<-|[]]. done.
  - destruct (rest st) eqn:Hr; [|destruct Hin]. destruct Hin as [<-|[]]. done.
  - destruct (rest st) as [|c s'] eqn:Hr; [destruct Hin|].
    destruct (p c) eqn:Hc; [|destruct Hin].
    destruct Hin as [<-|[]]. by exists c.
  - destruct (isPrefix w (rest st)) eqn:Hp; [|destruct Hin].
    destruct Hin as [<-|[]]. simpl. split; [by apply isPrefix_app|done].
  - apply in_flat_map in Hin as (mid & H1 & H2). exists mid. auto.
  - apply in_app_or in Hin as [H|H]; auto.
  - apply in_app_or in Hin as [H|[<-|[]]]; auto.
  - apply rep_sound in Hin as (w & ? & ? & ? & ? & ? & ?). by exists w.
  - apply in_map_iff in Hin as (mid & <- & Hmid).
    pose proof (IH1 _ _ Hmid) as Hacc.
    destruct (accepts_consumes _ _ _ Hacc) as (w & Hr & Hp).
    exists mid, w. split; [done|]. split; [done|].
    by rewrite (capture_text _ _ _ _ Hacc Hr).
Qed.

Lemma run_complete r : ∀ st st', accepts r st st' → In st' (run r st).
Proof.
  induction r as [| |p|w|r1 IH1 r2 IH2|r1 IH1 r2 IH2|r1 IH1|p lo hi|r1 IH1];
    intros st st' Hacc; simpl in *.
  - destruct Hacc as [-> ->]. by left.
  - destruct Hacc as [-> ->]. by left.
  - destruct Hacc as (c & -> & -> & Hp & Hc). left.
    destruct st'; simpl in *; congruence.
  - destruct Hacc as (-> & Hp & Hc). rewrite isPrefix_intro. left.
    rewrite drop_app_length. destruct st'; simpl in *; congruence.
  - destruct Hacc as (mid & H1 & H2). apply in_flat_map. eauto.
  - apply in_or_app. destruct Hacc; auto.
  - apply in_or_app. destruct Hacc as [H| ->]; [auto|right; by left].
  - destruct Hacc as (w & -> & Hw & Hlo & Hhi & Hp & Hc).
    destruct st' as [i' s' cs']; simpl in *; subst.
    by apply rep_complete.
  - destruct Hacc as (mid & w & H1 & Hr & ->).
    apply in_map_iff. exists mid. split; [|auto].
    by rewrite (capture_text _ _ _ _ H1 Hr).
Qed.

(** An anchored pattern can only match at index 0, and [exec] reports
    its first success there. *)
Lemma exec_from_Bol_later r s i : exec_from (Seq Bol r) (S i) s = None.
Proof. revert i; induction s as [|c s IH]; intros i; simpl; [done|apply IH]. Qed.

Lemma exec_anchored r s :
  exec (Seq Bol r) s =
  match run r (MState 0 s []) with
  | st' :: _ => Some (firstn (pos st') s :: caps st')
  | [] => None
  end.
Proof.
  unfold exec. destruct s as [|c s]; simpl; rewrite app_nil_r;
    destruct (run r _) as [|st' l]; try done.
  - by rewrite Nat.sub_0_r.
  - apply exec_from_Bol_later.
  - by rewrite Nat.sub_0_r.
Qed.

(** Reading off a match: a success of the anchored pattern is accepted,
    and when every accepted run ends in the same place with the same
    captures, that is what [exec] returns. *)
Lemma exec_anchored_sound r s m :
  exec (Seq Bol r) s = Some m →
  ∃ st', accepts r (MState 0 s []) st' ∧ m = firstn (pos st') s :: caps st'.
Proof.
  rewrite exec_anchored. destruct (run r _) as [|st' l] eqn:Hrun; [done|].
  intros [= <-]. exists st'. split; [|done].
  apply run_sound. rewrite Hrun. by left.
Qed.

Lemma exec_anchored_none r s st' :
  exec (Seq Bol r) s = None → ¬ accepts r (MState 0 s []) st'.
Proof.
  rewrite exec_anchored. intros Hex Hacc. apply run_complete in Hacc.
  destruct (run r _); [destruct Hacc|done].
Qed.

Lemma exec_anchored_unique r s st0 :
  accepts r (MState 0 s []) st0 →
  (∀ st', accepts r (MState 0 s []) st' → pos st' = pos st0 ∧ caps st' = caps st0) →
  exec (Seq Bol r) s = Some (firstn (pos st0) s :: caps st0).
Proof.
  intros Hacc Huniq. rewrite exec_anchored.
  apply run_complete in Hacc.
  destruct (run r _) as [|st' l] eqn:Hrun; [destruct Hacc|].
  destruct (Huniq st') as [-> ->]; [|done].
  apply run_sound. rewrite Hrun. by left.
Qed.

(** ** Steps of a pattern as consumed text *)

Ltac nbool :=
  repeat (progress
    (rewrite ?andb_true_iff, ?orb_true_iff, ?andb_false_iff, ?orb_false_iff,
       ?negb_true_iff, ?negb_false_iff,
       ?N.leb_le, ?N.eqb_eq, ?N.leb_gt, ?N.eqb_neq, ?N.ltb_lt, ?N.ltb_ge in *));
  lia.

Lemma consumes_refl st : consumes st [] [] st.
Proof. unfold consumes. simpl. rewrite app_nil_r. split_and!; [done|lia|done]. Qed.

Lemma consumes_nil_inv st st' : consumes st [] [] st' → st' = st.
Proof.
  intros (Hr & Hp & Hc). rewrite app_nil_r in Hc. simpl in *.
  destruct st, st'; simpl in *. f_equal; [lia|done|done].
Qed.

Lemma consumes_trans st mid st' w1 w2 c1 c2 :
  consumes st w1 c1 mid → consumes mid w2 c2 st' →
  consumes st (w1 ++ w2) (c1 ++ c2) st'.
Proof.
  intros (Hr1 & Hp1 & Hc1) (Hr2 & Hp2 & Hc2). unfold consumes.
  rewrite Hr1, Hr2, Hc2, Hc1, length_app, !app_assoc. split_and!; [done|lia|done].
Qed.

Lemma consumes_from_start s w cs st' :
  consumes (MState 0 s []) w cs st' → rest st' = [] →
  s = w ∧ st' = MState (length s) [] cs.
Proof.
  intros (Hr & Hp & Hc) Hnil. simpl in *. rewrite Hnil, app_nil_r in Hr. subst w.
  split; [done|]. destruct st'; simpl in *; by subst.
Qed.

Lemma consumes_intro i w s cs c :
  consumes (MState i (w ++ s) cs) w c (MState (i + length w) s (cs ++ c)).
Proof. done. Qed.

Lemma accepts_Class p st st' :
  accepts (Class p) st st' ↔ ∃ c, p c = true ∧ consumes st [c] [] st'.
Proof.
  simpl. unfold consumes. split.
  - intros (c & Hr & Hc & Hp & Hcs). exists c. simpl.
    rewrite app_nil_r. split_and!; [done|done|lia|done].
  - intros (c & Hc & Hr & Hp & Hcs). exists c. simpl in *.
    rewrite app_nil_r in Hcs. split_and!; [done|done|lia|done].
Qed.

Lemma accepts_Lit w st st' : accepts (Lit w) st st' ↔ consumes st w [] st'.
Proof. simpl. unfold consumes. by rewrite app_nil_r. Qed.

Lemma accepts_Rep p lo hi st st' :
  accepts (Rep p lo hi) st st' ↔
  ∃ w, forallb p w = true ∧ (lo <= length w)%nat ∧ within hi (length w)
       ∧ consumes st w [] st'.
Proof.
  simpl. unfold consumes. setoid_rewrite app_nil_r.
  split; intros (w & H); exists w; tauto.
Qed.

Lemma accepts_Group r st st' :
  accepts (Group r) st st' ↔
  ∃ mid w, accepts r st mid ∧ rest st = w ++ rest mid
           ∧ st' = MState (pos mid) (rest mid) (caps mid ++ [w]).
Proof. done. Qed.

Lemma accepts_Group_Rep p lo hi st st' :
  accepts (Group (Rep p lo hi)) st st' ↔
  ∃ w, forallb p w = true ∧ (lo <= length w)%nat ∧ within hi (length w)
       ∧ consumes st w [w] st'.
Proof.
  rewrite accepts_Group. setoid_rewrite accepts_Rep. split.
  - intros (mid & w & (w' & Hw & Hlo & Hhi & Hr' & Hp & Hc) & Hr & ->).
    assert (w' = w) as -> by (apply (app_inv_tail (rest mid)); congruence).
    exists w. unfold consumes. simpl. rewrite app_nil_r in Hc.
    split_and!; try done. by rewrite Hc.
  - intros (w & Hw & Hlo & Hhi & Hr & Hp & Hc).
    exists (MState (pos st') (rest st') (caps st)), w. simpl.
    split; [|split; [done|destruct st'; simpl in *; by subst]].
    exists w. unfold consumes. simpl. by rewrite app_nil_r.
Qed.

Lemma accepts_alt_of ws st st' :
  accepts (alt_of ws) st st' ↔ ∃ w, In w ws ∧ consumes st w [] st'.
Proof.
  induction ws as [|w [|w' ws] IH].
  - simpl. split; [by intros (? & _ & ? & _)|by intros (? & [] & _)].
  - change (alt_of [w]) with (Lit w). rewrite accepts_Lit. split.
    + intros H. exists w. split; [by left|done].
    + by intros (? & [<-|[]] & H).
  - change (alt_of (w :: w' :: ws)) with (Alt (Lit w) (alt_of (w' :: ws))).
    change (accepts (Alt ?a ?b) st st') with (accepts a st st' ∨ accepts b st st').
    rewrite IH, accepts_Lit. split.
    + intros [H|(x & Hx & H)]; [exists w|exists x]; (split; [|done]);
        [by left|by right].
    + intros (x & [<-|Hx] & H); [by left|right; by exists x].
Qed.

Lemma accepts_Group_alt_of ws st st' :
  accepts (Group (alt_of ws)) st st' ↔ ∃ w, In w ws ∧ consumes st w [w] st'.
Proof.
  rewrite accepts_Group. setoid_rewrite accepts_alt_of. split.
  - intros (mid & w & (w' & Hin & Hr' & Hp & Hc) & Hr & ->).
    assert (w' = w) as -> by (apply (app_inv_tail (rest mid)); congruence).
    exists w. unfold consumes. simpl. rewrite app_nil_r in Hc.
    split_and!; try done. by rewrite Hc.
  - intros (w & Hin & Hr & Hp & Hc).
    exists (MState (pos st') (rest st') (caps st)), w. simpl.
    split; [|split; [done|destruct st'; simpl in *; by subst]].
    exists w. unfold consumes. simpl. by rewrite app_nil_r.
Qed.

Lemma accepts_Opt r st st' :
  accepts (Opt r) st st' ↔ accepts r st st' ∨ st' = st.
Proof. done. Qed.

Lemma accepts_Seq r1 r2 st st' :
  accepts (Seq r1 r2) st st' ↔ ∃ mid, accepts r1 st mid ∧ accepts r2 mid st'.
Proof. done. Qed.

Lemma accepts_Eol st st' : accepts Eol st st' ↔ rest st = [] ∧ st' = st.
Proof. done. Qed.

(** A maximal run of a class is determined by the text. *)
Lemma span_unique p w1 w2 r1 r2 :
  forallb p w1 = true → forallb p w2 = true →
  stops p r1 → stops p r2 → w1 ++ r1 = w2 ++ r2 → w1 = w2 ∧ r1 = r2.
Proof.
  revert w2. induction w1 as [|a w1 IH]; intros [|b w2] H1 H2 S1 S2 Heq;
    simpl in *.
  - done.
  - subst r1. simpl in S1. apply andb_true_iff in H2 as [? ?]. congruence.
  - subst r2. simpl in S2. apply andb_true_iff in H1 as [? ?]. congruence.
  - apply andb_true_iff in H1 as [_ H1]. apply andb_true_iff in H2 as [_ H2].
    injection Heq as -> Heq. destruct (IH w2 H1 H2 S1 S2 Heq) as [-> ->]. done.
Qed.

Lemma digit_not_separator c : isDigit c = true → isSeparator c = false.
Proof. unfold isDigit, isSeparator. intros. nbool. Qed.

Lemma separator_not_digit c : isSeparator c = true → isDigit c = false.
Proof. unfold isDigit, isSeparator. intros. nbool. Qed.

Lemma digit_not_space c : isDigit c = true → isWhiteSpace c = false.
Proof. unfold isDigit, isWhiteSpace. intros. nbool. Qed.

Lemma space_not_digit c : isWhiteSpace c = true → isDigit c = false.
Proof. unfold isDigit, isWhiteSpace. intros. nbool. Qed.

Lemma digit_ascii c : isDigit c = true → isAscii c = true.
Proof. unfold isDigit, isAscii. intros. nbool. Qed.

Lemma digit_lower c : isDigit c = true → asciiLower c = c.
Proof.
  unfold isDigit, asciiLower. intros.
  destruct ((65 <=? c)%N && (c <=? 90)%N) eqn:E; [nbool|done].
Qed.

Lemma digit_not_comma c : isDigit c = true → negb (c =? 44)%N = true.
Proof. unfold isDigit. intros. nbool. Qed.

Lemma exec_anchored_some r s st' :
  accepts r (MState 0 s []) st' → ∃ m, exec (Seq Bol r) s = Some m.
Proof.
  intros Hacc. destruct (exec (Seq Bol r) s) eqn:Hex; [eauto|].
  by apply exec_anchored_none with (st' := st') in Hex.
Qed.

Ltac seq_step H mid Hstep := apply accepts_Seq in H as (mid & Hstep & H).

Ltac seq_intro := apply accepts_Seq; eexists; split.

(** ** The guard pattern of [getWeekOffset] *)

Lemma re_iso_accepts s st' :
  accepts iso_body (MState 0 s []) st' → CanonicalDate s.
Proof.
  intros H. unfold iso_body in H. simpl seq_of in H.
  seq_step H st1 H1. seq_step H st2 H2. seq_step H st3 H3.
  seq_step H st4 H4. seq_step H st5 H5.
  apply accepts_Rep in H1 as (y & Hy & Hy1 & Hy2 & C1).
  apply accepts_Lit in H2 as C2.
  apply accepts_Rep in H3 as (m & Hm & Hm1 & Hm2 & C3).
  apply accepts_Lit in H4 as C4.
  apply accepts_Rep in H5 as (d & Hd & Hd1 & Hd2 & C5).
  apply accepts_Eol in H as [Hend ->].
  pose proof (consumes_trans _ _ _ _ _ _ _ C1
               (consumes_trans _ _ _ _ _ _ _ C2
                 (consumes_trans _ _ _ _ _ _ _ C3
                   (consumes_trans _ _ _ _ _ _ _ C4 C5)))) as C.
  apply consumes_from_start in C as [-> _]; [|done].
  exists y, m, d. unfold digits. simpl in *. split_and!; done.
Qed.

Lemma re_iso_accepts_intro s :
  CanonicalDate s →
  ∃ st', accepts iso_body (MState 0 s []) st'.
Proof.
  intros (y & m & d & -> & [Hy Hly] & [Hm Hlm] & [Hd Hld]).
  rewrite <- (app_nil_r d). eexists. unfold iso_body. simpl seq_of.
  seq_intro. { apply accepts_Rep. exists y. split_and!; [done|lia|simpl; lia|apply consumes_intro]. }
  seq_intro. { apply accepts_Lit. apply consumes_intro. }
  seq_intro. { apply accepts_Rep. exists m. split_and!; [done|lia|simpl; lia|apply consumes_intro]. }
  seq_intro. { apply accepts_Lit. apply consumes_intro. }
  seq_intro. { apply accepts_Rep. exists d. split_and!; [done|lia|simpl; lia|apply consumes_intro]. }
  apply accepts_Eol. done.
Qed.

(** The guard accepts exactly the canonical shape. *)
Lemma test_re_iso s : test re_iso s = true ↔ CanonicalDate s.
Proof.
  unfold test, re_iso. split.
  - destruct (exec _ s) as [m|] eqn:Hex; [intros _|done].
    apply exec_anchored_sound in Hex as (st' & Hacc & _).
    by apply re_iso_accepts in Hacc.
  - intros Hs. apply re_iso_accepts_intro in Hs as (st' & Hacc).
    apply exec_anchored_some in Hacc as (m & ->). done.
Qed.

(** ** [getWeekOffset] *)

Section WeekOffset.
Context `{Engine}.

Lemma getWeekOffset_not_string v now :
  typeof v ≠ TString → getWeekOffset v now = Normal 0.
Proof.
  intros Hty. unfold getWeekOffset.
  destruct v; simpl in *; try done; rewrite ?orb_true_r; done.
Qed.

Lemma getWeekOffset_empty now : getWeekOffset (VString []) now = Normal 0.
Proof. done. Qed.

(** What the body computes once the two guards on the value are passed. *)
Lemma getWeekOffset_string s now :
  s ≠ [] →
  getWeekOffset (VString s) now =
  if test re_iso (trim s) then
    match midnightUTC (trim s) with
    | None => Normal 0
    | Some past =>
        Normal (if past >? now then 1 else (now - past) / msPerWeek + 1)
    end
  else Normal 0.
Proof.
  intros Hs. destruct s as [|c s]; [done|].
  unfold getWeekOffset, midnightUTC.
  change (ToBoolean (VString (c :: s))) with true.
  change (typeof (VString (c :: s))) with TString.
  change (call_trim (VString (c :: s))) with (Normal (trim (c :: s))).
  cbn [negb orb type_tag_eqb mbind completion_bind bind].
  unfold mret, completion_ret.
  destruct (test re_iso (trim (c :: s))); [|done]. cbn [negb].
  destruct (parseDateTime _) as [past|]; [|done].
  f_equal.
  assert (0 < msPerWeek) by done.
  destruct (past >? now) eqn:Hfut.
  - destruct (Z.abs (now - past) / msPerWeek + 1 <? 1); [done|].
    destruct (_ =? 1) eqn:Heq; [|done]. by apply Z.eqb_eq in Heq.
  - assert (past <= now) by lia.
    rewrite Z.abs_eq by lia.
    assert (0 <= (now - past) / msPerWeek) by (apply Z.div_pos; lia).
    destruct (_ <? 1) eqn:Hlt; [lia|done].
Qed.

Lemma getWeekOffset_valid s p now :
  validPastDate s p →
  getWeekOffset (VString s) now =
  Normal (if p >? now then 1 else (now - p) / msPerWeek + 1).
Proof.
  intros (Hs & Hshape & Hp). rewrite getWeekOffset_string by done.
  apply test_re_iso in Hshape. by rewrite Hshape, Hp.
Qed.

Lemma getWeekOffset_fails v now :
  failsValidation v → getWeekOffset v now = Normal 0.
Proof.
  intros [|v' Hty|s Hshape|s Hshape Hdate].
  - apply getWeekOffset_empty.
  - by apply getWeekOffset_not_string.
  - destruct (decide (s = [])) as [->|Hs]; [done|].
    rewrite getWeekOffset_string by done.
    destruct (test re_iso (trim s)) eqn:Ht; [|done].
    by apply test_re_iso in Ht.
  - destruct (decide (s = [])) as [->|Hs]; [done|].
    rewrite getWeekOffset_string by done.
    by rewrite Hdate; destruct (test _ _).
Qed.

(** Every argument either fails validation or is a valid date. *)
Lemma validation_cases v :
  failsValidation v ∨ ∃ s p, v = VString s ∧ validPastDate s p.
Proof.
  destruct v as [| | | |s|];
    try (left; apply fails_not_string; discriminate).
  destruct s as [|c s]; [left; constructor|].
  destruct (test re_iso (trim (c :: s))) eqn:Ht.
  - apply test_re_iso in Ht.
    destruct (midnightUTC (trim (c :: s))) as [p|] eqn:Hp.
    + right. exists (c :: s), p. by repeat split.
    + left. by apply fails_date.
  - left. apply fails_shape. intros Hc. apply test_re_iso in Hc. congruence.
Qed.

Lemma getWeekOffset_returns v now : ∃ n, getWeekOffset v now = Normal n.
Proof.
  destruct (validation_cases v) as [Hf|(s & p & -> & Hv)].
  - exists 0. by apply getWeekOffset_fails.
  - eexists. by apply getWeekOffset_valid.
Qed.

Lemma valid_not_fails s p : validPastDate s p → ¬ failsValidation (VString s).
Proof.
  intros (Hs & Hshape & Hp) Hf. inversion Hf; subst; try done.
  congruence.
Qed.

Lemma weeks_nonneg a : 0 <= a → 1 <= a / msPerWeek + 1.
Proof. intros. assert (0 <= a / msPerWeek) by (by apply Z.div_pos). lia. Qed.

(** Whole days apart give whole weeks: with [now] on the [k]-th day
    after the midnight [p], the quotient by a week is [k / 7]. *)
Lemma weeks_of_days p now k :
  p mod msPerDay = 0 → Day now = Day p + k →
  (now - p) / msPerWeek = k / 7.
Proof.
  unfold Day, msPerWeek. intros Hmid Hday.
  change (1000 * 60 * 60 * 24 * 7) with (msPerDay * 7).
  assert (0 < msPerDay) by done.
  rewrite <- Z.div_div by lia. f_equal.
  pose proof (Z.div_mod p msPerDay ltac:(lia)) as Hp.
  pose proof (Z.div_mod now msPerDay ltac:(lia)) as Hn.
  pose proof (Z.mod_pos_bound now msPerDay ltac:(lia)) as Hb.
  symmetry. apply Z.div_unique with (r := now mod msPerDay); [lia|].
  rewrite Hmid in Hp. lia.
Qed.

End WeekOffset.

(** ** The date constructor on canonical dates *)

Lemma digits_exact_2 w : digits 2 2 w → ∃ a b, w = [a; b] ∧ isDigit a = true ∧ isDigit b = true.
Proof.
  intros [Hw Hl]. destruct w as [|a [|b [|c w]]]; simpl in Hl; try lia.
  simpl in Hw. exists a, b. split; [done|].
  apply andb_true_iff in Hw as [? Hw]. apply andb_true_iff in Hw as [? _]. done.
Qed.

Lemma digits_exact_4 w :
  digits 4 4 w →
  ∃ a b c d, w = [a; b; c; d] ∧ isDigit a = true ∧ isDigit b = true
             ∧ isDigit c = true ∧ isDigit d = true.
Proof.
  intros [Hw Hl]. destruct w as [|a [|b [|c [|d [|e w]]]]]; simpl in Hl; try lia.
  simpl in Hw. exists a, b, c, d. split; [done|].
  apply andb_true_iff in Hw as [? Hw]. apply andb_true_iff in Hw as [? Hw].
  apply andb_true_iff in Hw as [? Hw]. apply andb_true_iff in Hw as [? _]. done.
Qed.

Lemma canonical_explicit s :
  CanonicalDate s →
  ∃ y1 y2 y3 y4 m1 m2 d1 d2,
    s = [y1; y2; y3; y4; 45%N; m1; m2; 45%N; d1; d2]
    ∧ forallb isDigit [y1; y2; y3; y4; m1; m2; d1; d2] = true.
Proof.
  intros (y & m & d & -> & Hy & Hm & Hd).
  apply digits_exact_4 in Hy as (y1 & y2 & y3 & y4 & -> & ? & ? & ? & ?).
  apply digits_exact_2 in Hm as (m1 & m2 & -> & ? & ?).
  apply digits_exact_2 in Hd as (d1 & d2 & -> & ? & ?).
  exists y1, y2, y3, y4, m1, m2, d1, d2. split; [done|].
  cbn [forallb].
  repeat match goal with Hc : isDigit _ = true |- _ => rewrite Hc; clear Hc end.
  done.
Qed.

Lemma digitValue_bounds c : isDigit c = true → 0 <= digitValue c <= 9.
Proof. unfold isDigit, digitValue. intros. nbool. Qed.

Lemma decimal_2 a b : decimal [a; b] = twoDigits a b.
Proof. unfold decimal, twoDigits. cbn [fold_left]. lia. Qed.

Lemma decimal_4 a b c d : decimal [a; b; c; d] = 100 * twoDigits a b + twoDigits c d.
Proof. unfold decimal, twoDigits. cbn [fold_left]. lia. Qed.

Lemma twoDigits_bounds a b :
  isDigit a = true → isDigit b = true → 0 <= twoDigits a b <= 99.
Proof.
  intros Ha%digitValue_bounds Hb%digitValue_bounds. unfold twoDigits. lia.
Qed.

Lemma daysBeforeMonth_bounds l m : 0 <= daysBeforeMonth l m <= 335.
Proof.
  unfold daysBeforeMonth.
  destruct l, m as [|p|p]; try lia; do 4 (try destruct p; try lia).
Qed.

(** Every date of the four-digit years lies well inside the range of
    time values. *)
Lemma MakeDay_in_range y m d :
  0 <= y <= 9999 → 1 <= d <= 31 →
  Z.abs (MakeDate (MakeDay y m d) 0) <= 8640000000000000.
Proof.
  intros Hy Hd. unfold MakeDate, MakeDay, DayFromYear, msPerDay.
  pose proof (daysBeforeMonth_bounds (isLeapYear y) m).
  Z.to_euclidean_division_equations. lia.
Qed.

Section DateConstructor.
Context `{Engine}.

Lemma midnightUTC_canonical s :
  CanonicalDate s →
  midnightUTC s =
  if acceptsFields (yearOf s) (monthOf s) (dayOf s)
  then Some (MakeDay (yearOf s) (monthOf s) (dayOf s) * msPerDay)
  else None.
Proof.
  intros Hs. apply canonical_explicit in Hs
    as (y1 & y2 & y3 & y4 & m1 & m2 & d1 & d2 & -> & Hd).
  unfold midnightUTC, parseDateTime, yearOf, monthOf, dayOf, acceptsFields.
  cbn [app str List.map list_ascii_of_string firstn skipn].
  rewrite decimal_4, !decimal_2.
  change (N_of_ascii "0") with 48%N. change (N_of_ascii "T") with 84%N.
  change (N_of_ascii ":") with 58%N. change (N_of_ascii "Z") with 90%N.
  cbn [forallb] in Hd |- *.
  repeat (apply andb_true_iff in Hd as [? Hd]).
  repeat match goal with Hc : isDigit _ = true |- _ => rewrite Hc end.
  change (twoDigits 48%N 48%N) with 0.
  change (MakeTime 0 0 0 0) with 0.
  cbn [isDigit N.leb N.eqb N.compare Pos.compare Pos.compare_cont Pos.eqb andb].
  change (0 <=? 23) with true. change (0 <=? 59) with true.
  rewrite !andb_true_r.
  pose proof (twoDigits_bounds y1 y2 ltac:(done) ltac:(done)).
  pose proof (twoDigits_bounds y3 y4 ltac:(done) ltac:(done)).
  set (year := 100 * twoDigits y1 y2 + twoDigits y3 y4) in *.
  set (month := twoDigits m1 m2). set (day := twoDigits d1 d2).
  destruct (_ && _) eqn:Hok; [|done].
  unfold TimeClip.
  assert (Z.abs (MakeDate (MakeDay year month day) 0) <= 8640000000000000) as Hr.
  { apply MakeDay_in_range; [lia|].
    repeat (apply andb_true_iff in Hok as [Hok ?]). lia. }
  apply Z.leb_le in Hr. rewrite Hr. unfold MakeDate. f_equal. lia.
Qed.

(** A valid argument denotes a midnight. *)
Lemma valid_midnight s p : validPastDate s p → p mod msPerDay = 0.
Proof.
  intros (_ & Hshape & Hp). rewrite midnightUTC_canonical in Hp by done.
  destruct (acceptsFields _ _ _); [|done]. injection Hp as <-.
  apply Z.mod_mul. done.
Qed.

(** The date constructor rejects exactly the fields out of bounds. *)
Lemma midnightUTC_invalid s :
  CanonicalDate s →
  midnightUTC s = None ↔ acceptsFields (yearOf s) (monthOf s) (dayOf s) = false.
Proof.
  intros Hs. rewrite midnightUTC_canonical by done.
  by destruct (acceptsFields _ _ _).
Qed.

End DateConstructor.

(** ** Claims about [getWeekOffset] *)

(** C1, as stated: the result would be at least 1 on every input.  The
    empty string is sent back with 0. *)
Lemma getWeekOffset_floor_fails :
  ¬ (∀ (E : Engine) (v : value) (now n : Z),
       getWeekOffset v now = Normal n → 1 <= n).
Proof.
  intros Hclaim.
  specialize (Hclaim rolloverEngine (VString (str "")) 1749982830000 0 eq_refl).
  lia.
Qed.

(** C1, amended: [getWeekOffset] always returns an integer; it is 0 when
    the argument fails validation and at least 1 when it is a valid
    date, whatever the clock reads. *)
Theorem getWeekOffset_floor `{Engine} (v : value) (now : Z) :
  ∃ n, getWeekOffset v now = Normal n
       ∧ ((failsValidation v ∧ n = 0)
          ∨ (¬ failsValidation v ∧ 1 <= n)).
Proof.
  destruct (validation_cases v) as [Hf|(s & p & -> & Hv)].
  - exists 0. split; [by apply getWeekOffset_fails|by left].
  - eexists. split; [by apply getWeekOffset_valid|].
    right. split; [by eapply valid_not_fails|].
    destruct (p >? now) eqn:Hfut; [done|].
    apply weeks_nonneg. lia.
Qed.




(** C5: a valid date whose midnight lies after the clock reading gives
    exactly 1, however far ahead it is. *)
Theorem getWeekOffset_future `{Engine} (s : jsstring) (p now : Z) :
  validPastDate s p → now < p → getWeekOffset (VString s) now = Normal 1.
Proof.
  intros Hv Hfut. rewrite (getWeekOffset_valid s p) by done.
  assert ((p >? now) = true) as -> by lia. done.
Qed.

Lemma getWeekOffset_future_witness :
  @validPastDate rolloverEngine (str "2030-01-01") 1893456000000
  ∧ @getWeekOffset rolloverEngine (VString (str "2030-01-01")) 1749982830000
    = Normal 1.
Proof.
  assert (@validPastDate rolloverEngine (str "2030-01-01") 1893456000000) as Hv.
  { split; [done|]. split; [|by vm_compute].
    apply test_re_iso. vm_compute. reflexivity. }
  split; [exact Hv|].
  apply (@getWeekOffset_future rolloverEngine _ _ _ Hv). lia.
Defined.

(** C6: for a valid date not after the clock reading the result is the
    number of whole weeks elapsed plus one; in particular, with the
    clock on the [k]-th day after the date it is [k / 7 + 1]: 1 on the
    same day, 2 after 7 and after 13 days, 3 after 14 days. *)
Theorem getWeekOffset_elapsed `{Engine} (s : jsstring) (p now : Z) :
  validPastDate s p →
  (p <= now →
   getWeekOffset (VString s) now = Normal ((now - p) / msPerWeek + 1))
  ∧ (∀ k, 0 <= k → Day now = Day p + k →
          getWeekOffset (VString s) now = Normal (k / 7 + 1))
  ∧ (Day now = Day p → getWeekOffset (VString s) now = Normal 1)
  ∧ (Day now = Day p + 7 → getWeekOffset (VString s) now = Normal 2)
  ∧ (Day now = Day p + 13 → getWeekOffset (VString s) now = Normal 2)
  ∧ (Day now = Day p + 14 → getWeekOffset (VString s) now = Normal 3).
Proof.
  intros Hv.
  assert (Hpast : p <= now →
    getWeekOffset (VString s) now = Normal ((now - p) / msPerWeek + 1)).
  { intros Hle. rewrite (getWeekOffset_valid s p) by done.
    assert ((p >? now) = false) as -> by lia. done. }
  assert (Hdays : ∀ k, 0 <= k → Day now = Day p + k →
    getWeekOffset (VString s) now = Normal (k / 7 + 1)).
  { intros k Hk Hday. pose proof (valid_midnight s p Hv) as Hmid.
    assert (p <= now) as Hle.
    { unfold Day in Hday. assert (0 < msPerDay) by done.
      pose proof (Z.div_mod p msPerDay ltac:(lia)).
      pose proof (Z.div_mod now msPerDay ltac:(lia)).
      pose proof (Z.mod_pos_bound now msPerDay ltac:(lia)). nia. }
    rewrite (Hpast Hle), (weeks_of_days p now k Hmid Hday). done. }
  split; [done|]. split; [done|].
  split; [intros Hd; apply (Hdays 0); lia|].
  split; [intros Hd; apply (Hdays 7); lia|].
  split; [intros Hd; apply (Hdays 13); lia|].
  intros Hd; apply (Hdays 14); lia.
Qed.

Lemma getWeekOffset_elapsed_witness :
  @validPastDate rolloverEngine (str "2025-06-01") 1748736000000
  ∧ Day 1749982830000 = Day 1748736000000 + 14
  ∧ @getWeekOffset rolloverEngine (VString (str "2025-06-01")) 1749982830000
    = Normal 3.
Proof.
  assert (@validPastDate rolloverEngine (str "2025-06-01") 1748736000000) as Hv.
  { split; [done|]. split; [|by vm_compute].
    apply test_re_iso. vm_compute. reflexivity. }
  split; [exact Hv|]. split; [reflexivity|].
  apply (@getWeekOffset_elapsed rolloverEngine _ _ 1749982830000 Hv).
  reflexivity.
Defined.

(** ** The numeric pattern of [normaliseDate] *)

Lemma direct_accepts s st' :
  accepts direct_body (MState 0 s []) st' →
  ∃ y m d, NumericDate s y m d ∧ st' = MState (length s) [] [y; m; d].
Proof.
  intros H. unfold direct_body in H. simpl seq_of in H.
  seq_step H st1 H1. seq_step H st2 H2. seq_step H st3 H3.
  seq_step H st4 H4. seq_step H st5 H5.
  apply accepts_Group_Rep in H1 as (y & Hy & Hy1 & Hy2 & C1).
  apply accepts_Class in H2 as (c1 & Hc1 & C2).
  apply accepts_Group_Rep in H3 as (m & Hm & Hm1 & Hm2 & C3).
  apply accepts_Class in H4 as (c2 & Hc2 & C4).
  apply accepts_Group_Rep in H5 as (d & Hd & Hd1 & Hd2 & C5).
  apply accepts_Eol in H as [Hend ->].
  pose proof (consumes_trans _ _ _ _ _ _ _ C1
               (consumes_trans _ _ _ _ _ _ _ C2
                 (consumes_trans _ _ _ _ _ _ _ C3
                   (consumes_trans _ _ _ _ _ _ _ C4 C5)))) as C.
  apply consumes_from_start in C as [Hs ->]; [|done].
  exists y, m, d. split; [|done].
  exists c1, c2. unfold digits. simpl in *. split_and!; done.
Qed.

Lemma direct_accepts_intro s y m d :
  NumericDate s y m d →
  ∃ st', accepts direct_body (MState 0 s []) st'.
Proof.
  intros (c1 & c2 & -> & [Hy Hly] & Hc1 & [Hm Hlm] & Hc2 & [Hd Hld]).
  rewrite <- (app_nil_r d). eexists. unfold direct_body. simpl seq_of.
  seq_intro. { apply accepts_Group_Rep. exists y. split_and!; [done|lia|simpl; lia|apply consumes_intro]. }
  seq_intro. { apply accepts_Class. exists c1. split; [done|apply (consumes_intro _ [c1])]. }
  seq_intro. { apply accepts_Group_Rep. exists m. split_and!; [done|lia|simpl; lia|apply consumes_intro]. }
  seq_intro. { apply accepts_Class. exists c2. split; [done|apply (consumes_intro _ [c2])]. }
  seq_intro. { apply accepts_Group_Rep. exists d. split_and!; [done|lia|simpl; lia|apply consumes_intro]. }
  apply accepts_Eol. done.
Qed.

(** The pieces of a numeric date are determined by the text. *)
Lemma NumericDate_unique s y m d y' m' d' :
  NumericDate s y m d → NumericDate s y' m' d' → y = y' ∧ m = m' ∧ d = d'.
Proof.
  intros (c1 & c2 & -> & [Hy _] & Hc1 & [Hm _] & Hc2 & [Hd _])
         (c1' & c2' & Heq & [Hy' _] & Hc1' & [Hm' _] & Hc2' & [Hd' _]).
  apply span_unique with (p := isDigit) in Heq as [-> Heq];
    [|done|done|by apply separator_not_digit..].
  injection Heq as -> Heq.
  apply span_unique with (p := isDigit) in Heq as [-> Heq];
    [|done|done|by apply separator_not_digit..].
  by injection Heq as -> ->.
Qed.

Lemma exec_re_direct s m :
  exec re_direct s = Some m ↔
  ∃ y mo d, NumericDate s y mo d ∧ m = [s; y; mo; d].
Proof.
  unfold re_direct. split.
  - intros Hex. apply exec_anchored_sound in Hex as (st' & Hacc & ->).
    apply direct_accepts in Hacc as (y & mo & d & Hnum & ->).
    exists y, mo, d. split; [done|]. simpl. by rewrite firstn_all.
  - intros (y & mo & d & Hnum & ->).
    destruct (direct_accepts_intro _ _ _ _ Hnum) as (st0 & Hacc).
    pose proof (direct_accepts _ _ Hacc) as (y0 & m0 & d0 & Hnum0 & ->).
    destruct (NumericDate_unique _ _ _ _ _ _ _ Hnum Hnum0) as (<- & <- & <-).
    rewrite (exec_anchored_unique _ _ _ Hacc).
    + simpl. by rewrite firstn_all.
    + intros st' Hacc'. apply direct_accepts in Hacc' as (y1 & m1 & d1 & Hnum1 & ->).
      destruct (NumericDate_unique _ _ _ _ _ _ _ Hnum Hnum1) as (<- & <- & <-).
      done.
Qed.

Lemma exec_re_direct_none s :
  exec re_direct s = None ↔ ¬ ∃ y m d, NumericDate s y m d.
Proof.
  split.
  - intros Hex (y & m & d & Hnum).
    assert (exec re_direct s = Some [s; y; m; d]) by (apply exec_re_direct; eauto).
    congruence.
  - intros Hno. destruct (exec re_direct s) as [m|] eqn:Hex; [|done].
    apply exec_re_direct in Hex as (y & mo & d & Hnum & _). destruct Hno; eauto.
Qed.

Lemma digits_1_2 d :
  digits 1 2 d →
  (∃ a, d = [a] ∧ isDigit a = true)
  ∨ (∃ a b, d = [a; b] ∧ isDigit a = true ∧ isDigit b = true).
Proof.
  intros [Hd Hl]. destruct d as [|a [|b [|c d]]]; simpl in Hl; try lia;
    simpl in Hd; repeat (apply andb_true_iff in Hd as [? Hd]); eauto 6.
Qed.

(** Padding a day or month to two places keeps its value. *)
Lemma padStart0_digits d :
  digits 1 2 d →
  digits 2 2 (padStart0 2 d) ∧ ToNumber (padStart0 2 d) = Some (decimal d).
Proof.
  intros [(a & -> & Ha)|(a & b & -> & Ha & Hb)]%digits_1_2;
    unfold digits, padStart0, ToNumber, decimal; simpl repeat; simpl app;
    cbn [forallb fold_left length]; rewrite ?Ha, ?Hb;
    change (isDigit 48%N) with true; cbn [andb]; (split; [split; [done|lia]|]);
    f_equal; unfold digitValue; lia.
Qed.

Lemma numericBranch_spec s r :
  numericBranch s = Some r ↔
  ∃ y m d, NumericDate s y m d
           ∧ 1 <= decimal m <= 12 ∧ 1 <= decimal d <= 31
           ∧ r = y ++ dash ++ padStart0 2 m ++ dash ++ padStart0 2 d.
Proof.
  unfold numericBranch. split.
  - destruct (exec re_direct s) as [mm|] eqn:Hex; [|done].
    apply exec_re_direct in Hex as (y & m & d & Hnum & ->).
    pose proof Hnum as (c1 & c2 & _ & _ & _ & Hm & _ & Hd).
    apply padStart0_digits in Hm as [_ Hm]. apply padStart0_digits in Hd as [_ Hd].
    cbn [group nth]. rewrite Hm, Hd. unfold num_ge, num_le.
    destruct (_ && _) eqn:Hok; [|done]. intros [= <-].
    exists y, m, d. split; [done|].
    repeat (apply andb_true_iff in Hok as [Hok ?]). split_and!; try lia. done.
  - intros (y & m & d & Hnum & Hmr & Hdr & ->).
    assert (exec re_direct s = Some [s; y; m; d]) as -> by (apply exec_re_direct; eauto).
    pose proof Hnum as (c1 & c2 & _ & _ & _ & Hm & _ & Hd).
    apply padStart0_digits in Hm as [_ Hm]. apply padStart0_digits in Hd as [_ Hd].
    cbn [group nth]. rewrite Hm, Hd. unfold num_ge, num_le.
    assert (((1 <=? decimal m) && (decimal m <=? 12)
             && (1 <=? decimal d) && (decimal d <=? 31)) = true) as ->; [|done].
    repeat (apply andb_true_iff; split); lia.
Qed.

(** A matching text out of range falls through. *)
Lemma numericBranch_out_of_range s y m d :
  NumericDate s y m d →
  ¬ (1 <= decimal m <= 12 ∧ 1 <= decimal d <= 31) →
  numericBranch s = None.
Proof.
  intros Hnum Hout. destruct (numericBranch s) as [r|] eqn:Hr; [|done].
  apply numericBranch_spec in Hr as (y' & m' & d' & Hnum' & Hm & Hd & _).
  destruct (NumericDate_unique _ _ _ _ _ _ _ Hnum Hnum') as (_ & -> & ->).
  tauto.
Qed.

Lemma numericBranch_no_match s :
  (¬ ∃ y m d, NumericDate s y m d) → numericBranch s = None.
Proof.
  intros Hno. unfold numericBranch.
  by apply exec_re_direct_none in Hno as ->.
Qed.

(** ** [normaliseDate] on strings *)

Section Normalise.
Context `{Engine}.

Lemma normaliseDate_falsy v : ToBoolean v = false → normaliseDate v = Normal [].
Proof. intros Hv. unfold normaliseDate. by rewrite Hv. Qed.

Lemma normaliseDate_string raw :
  raw ≠ [] →
  normaliseDate (VString raw) =
  Normal (match numericBranch (trim raw) with
          | Some r => r
          | None => monthNameBranches (trim raw)
          end).
Proof.
  intros Hraw. destruct raw as [|c raw]; [done|].
  unfold normaliseDate.
  change (ToBoolean (VString (c :: raw))) with true.
  change (call_trim (VString (c :: raw))) with (Normal (trim (c :: raw))).
  cbn [negb mbind completion_bind bind]. unfold mret, completion_ret.
  by destruct (numericBranch _).
Qed.

Lemma normaliseDate_total_string raw :
  ∃ r, normaliseDate (VString raw) = Normal r.
Proof.
  destruct raw as [|c raw]; [by exists []|].
  rewrite normaliseDate_string by done. eauto.
Qed.

End Normalise.

(** ** The month-name patterns *)

Lemma accepts_ordinal st st' :
  accepts re_ordinal st st' ↔
  ∃ suf, (suf = [] ∨ In suf ordinals) ∧ consumes st suf [] st'.
Proof.
  unfold re_ordinal. rewrite accepts_Opt, accepts_alt_of. split.
  - intros [(w & Hin & C)| ->]; [exists w; auto|].
    exists []. split; [by left|apply consumes_refl].
  - intros (suf & [->|Hin] & C); [right; by apply consumes_nil_inv|].
    left. by exists suf.
Qed.

Lemma spaces_intro w :
  forallb isWhiteSpace w = true → (1 <= length w)%nat → spaces w.
Proof. intros Hw Hl. split; [done|]. intros ->. simpl in Hl. lia. Qed.

Lemma spaces_length w : spaces w → (1 <= length w)%nat.
Proof. intros [_ Hne]. destruct w; [done|simpl; lia]. Qed.

Lemma month_day_accepts s st' :
  accepts month_day_body (MState 0 s []) st' →
  ∃ mon d y, MonthDayText s mon d y ∧ st' = MState (length s) [] [mon; d; y].
Proof.
  intros H. unfold month_day_body in H. cbn [seq_of] in H.
  seq_step H st1 H1. seq_step H st2 H2. seq_step H st3 H3.
  seq_step H st4 H4. seq_step H st5 H5. seq_step H st6 H6.
  apply accepts_Group_alt_of in H1 as (mon & Hmon & C1).
  apply accepts_Rep in H2 as (ws1 & Hws1 & Hl1 & _ & C2).
  apply accepts_Group_Rep in H3 as (d & Hd & Hd1 & Hd2 & C3).
  apply accepts_ordinal in H4 as (suf & Hsuf & C4).
  apply accepts_Rep in H5 as (ws2 & Hws2 & Hl2 & _ & C5).
  apply accepts_Group_Rep in H6 as (y & Hy & Hy1 & Hy2 & C6).
  apply accepts_Eol in H as [Hend ->].
  pose proof (consumes_trans _ _ _ _ _ _ _ C1
               (consumes_trans _ _ _ _ _ _ _ C2
                 (consumes_trans _ _ _ _ _ _ _ C3
                   (consumes_trans _ _ _ _ _ _ _ C4
                     (consumes_trans _ _ _ _ _ _ _ C5 C6))))) as C.
  apply consumes_from_start in C as [Hs ->]; [|done].
  exists mon, d, y. split; [|done].
  exists ws1, suf, ws2. unfold digits. simpl in *.
  split_and!; auto using spaces_intro.
Qed.

Lemma day_month_accepts s st' :
  accepts day_month_body (MState 0 s []) st' →
  ∃ d mon y, DayMonthText s d mon y ∧ st' = MState (length s) [] [d; mon; y].
Proof.
  intros H. unfold day_month_body in H. cbn [seq_of] in H.
  seq_step H st1 H1. seq_step H st2 H2. seq_step H st3 H3.
  seq_step H st4 H4. seq_step H st5 H5. seq_step H st6 H6.
  apply accepts_Group_Rep in H1 as (d & Hd & Hd1 & Hd2 & C1).
  apply accepts_ordinal in H2 as (suf & Hsuf & C2).
  apply accepts_Rep in H3 as (ws1 & Hws1 & Hl1 & _ & C3).
  apply accepts_Group_alt_of in H4 as (mon & Hmon & C4).
  apply accepts_Rep in H5 as (ws2 & Hws2 & Hl2 & _ & C5).
  apply accepts_Group_Rep in H6 as (y & Hy & Hy1 & Hy2 & C6).
  apply accepts_Eol in H as [Hend ->].
  pose proof (consumes_trans _ _ _ _ _ _ _ C1
               (consumes_trans _ _ _ _ _ _ _ C2
                 (consumes_trans _ _ _ _ _ _ _ C3
                   (consumes_trans _ _ _ _ _ _ _ C4
                     (consumes_trans _ _ _ _ _ _ _ C5 C6))))) as C.
  apply consumes_from_start in C as [Hs ->]; [|done].
  exists d, mon, y. split; [|done].
  exists suf, ws1, ws2. unfold digits. simpl in *.
  split_and!; auto using spaces_intro.
Qed.

Lemma exec_re_month_day s m :
  exec re_month_day s = Some m →
  ∃ mon d y, MonthDayText s mon d y ∧ m = [s; mon; d; y].
Proof.
  unfold re_month_day. intros Hex.
  apply exec_anchored_sound in Hex as (st' & Hacc & ->).
  apply month_day_accepts in Hacc as (mon & d & y & Htxt & ->).
  exists mon, d, y. split; [done|]. simpl. by rewrite firstn_all.
Qed.

Lemma exec_re_day_month s m :
  exec re_day_month s = Some m →
  ∃ d mon y, DayMonthText s d mon y ∧ m = [s; d; mon; y].
Proof.
  unfold re_day_month. intros Hex.
  apply exec_anchored_sound in Hex as (st' & Hacc & ->).
  apply day_month_accepts in Hacc as (d & mon & y & Htxt & ->).
  exists d, mon, y. split; [done|]. simpl. by rewrite firstn_all.
Qed.

(** The table has a two-digit numeral for each of the twelve names. *)
Lemma MONTHS_lookup mon :
  In mon month_names →
  ∃ a b, property_text MONTHS mon = [a; b]
         ∧ isDigit a = true ∧ isDigit b = true
         ∧ 1 <= decimal [a; b] <= 12.
Proof.
  intros Hin. unfold month_names in Hin. simpl in Hin.
  repeat (destruct Hin as [<-|Hin];
          [eexists _, _; split; [by vm_compute|by vm_compute]|]).
  destruct Hin.
Qed.

(** The text that both month-name branches build. *)
Lemma canonical_output y mon d :
  digits 4 4 y → In mon month_names → digits 1 2 d →
  CanonicalDate (y ++ dash ++ property_text MONTHS mon ++ dash ++ padStart0 2 d).
Proof.
  intros Hy Hmon Hd. exists y, (property_text MONTHS mon), (padStart0 2 d).
  split; [done|]. split; [done|].
  split; [|by apply padStart0_digits].
  apply MONTHS_lookup in Hmon as (a & b & -> & Ha & Hb & _).
  split; [simpl; by rewrite Ha, Hb|simpl; lia].
Qed.

Section NormaliseShape.
Context `{Engine}.

(** A result of the month-name branches is either empty or built from
    one of the twelve names found in the lower-cased text. *)
Lemma monthNameBranches_spec s :
  let lowered := removeCommas (toLowerCase s) in
  monthNameBranches s = []
  ∨ ∃ mon d y,
      (MonthDayText lowered mon d y ∨ DayMonthText lowered d mon y)
      ∧ monthNameBranches s
        = y ++ dash ++ property_text MONTHS mon ++ dash ++ padStart0 2 d.
Proof.
  intros lowered. unfold monthNameBranches. fold lowered.
  destruct (exec re_month_day lowered) as [m1|] eqn:H1.
  - apply exec_re_month_day in H1 as (mon & d & y & Htxt & ->).
    right. exists mon, d, y. split; [by left|done].
  - destruct (exec re_day_month lowered) as [m2|] eqn:H2; [|by left].
    apply exec_re_day_month in H2 as (d & mon & y & Htxt & ->).
    right. exists mon, d, y. split; [by right|done].
Qed.

Lemma monthNameBranches_shape s :
  monthNameBranches s = [] ∨ CanonicalDate (monthNameBranches s).
Proof.
  destruct (monthNameBranches_spec s) as [He|(mon & d & y & Htxt & ->)];
    [by left|right].
  destruct Htxt as [(? & ? & ? & _ & Hmon & _ & Hd & _ & _ & Hy)
                   |(? & ? & ? & _ & Hd & _ & _ & Hmon & _ & Hy)];
    by apply canonical_output.
Qed.

Lemma numericBranch_shape s r : numericBranch s = Some r → CanonicalDate r.
Proof.
  intros (y & m & d & (c1 & c2 & _ & Hy & _ & Hm & _ & Hd) & _ & _ & ->)
    %numericBranch_spec.
  exists y, (padStart0 2 m), (padStart0 2 d).
  split_and!; [done|done|by apply padStart0_digits..].
Qed.

End NormaliseShape.

(** ** Claims about the shape of the output *)

(** C8: on every string [normaliseDate] returns the empty string or a
    text of the shape [\d{4}-\d{2}-\d{2}], which the guard pattern of
    [getWeekOffset] accepts; no other text is ever returned. *)
Theorem normaliseDate_shape `{Engine} (raw : jsstring) :
  ∃ r, normaliseDate (VString raw) = Normal r
       ∧ (r = [] ∨ (CanonicalDate r ∧ test re_iso r = true)).
Proof.
  destruct raw as [|c raw]; [exists []; by split; [|left]|].
  rewrite normaliseDate_string by done. eexists. split; [done|].
  destruct (numericBranch _) as [r|] eqn:Hnum.
  - right. apply numericBranch_shape in Hnum. split; [done|by apply test_re_iso].
  - destruct (monthNameBranches_shape (trim (c :: raw))) as [->|Hs]; [by left|].
    right. split; [done|by apply test_re_iso].
Qed.

(** ** Lower-casing plain text *)

Lemma forallb_trimStart p s :
  forallb p s = true → forallb p (trimStart s) = true.
Proof.
  induction s as [|c s IH]; [done|]. intros Hs. simpl.
  destruct (isWhiteSpace c); [|done].
  simpl in Hs. apply andb_true_iff in Hs as [_ Hs]. auto.
Qed.

Lemma forallb_rev_true p (s : jsstring) :
  forallb p s = true → forallb p (rev s) = true.
Proof.
  rewrite !forallb_forall. intros Hs c Hc. apply Hs. by apply in_rev.
Qed.

Lemma forallb_trim p s : forallb p s = true → forallb p (trim s) = true.
Proof.
  intros Hs. unfold trim, trimEnd.
  by apply forallb_rev_true, forallb_trimStart, forallb_rev_true, forallb_trimStart.
Qed.

Lemma digit_plain c : isDigit c = true → isPlain c = true.
Proof.
  intros Hc. unfold isPlain.
  by rewrite digit_ascii, digit_lower, N.eqb_refl, digit_not_comma.
Qed.

Lemma separator_plain c : isSeparator c = true → isPlain c = true.
Proof.
  unfold isSeparator, isPlain, isAscii, asciiLower. intros Hc.
  assert (c = 45 ∨ c = 46 ∨ c = 47 ∨ c = 95)%N as [->|[->|[->| ->]]] by nbool;
    done.
Qed.

Lemma digits_plain lo hi w : digits lo hi w → forallb isPlain w = true.
Proof.
  intros [Hw _]. rewrite forallb_forall in *. auto using digit_plain.
Qed.

Section Lowered.
Context `{Engine}.

Lemma lowered_plain s :
  forallb isPlain s = true → removeCommas (toLowerCase s) = s.
Proof.
  intros Hs. rewrite toLowerCase_ascii.
  - induction s as [|c s IH]; [done|]. simpl in *.
    apply andb_true_iff in Hs as [Hc Hs]. unfold isPlain in Hc.
    apply andb_true_iff in Hc as [Hc Hcomma].
    apply andb_true_iff in Hc as [_ Hlow]. apply N.eqb_eq in Hlow.
    rewrite Hlow, Hcomma. f_equal. by apply IH.
  - rewrite forallb_forall in *. intros c Hc. specialize (Hs c Hc).
    unfold isPlain in Hs. by repeat (apply andb_true_iff in Hs as [Hs _]).
Qed.

Lemma monthNameBranches_ascii s :
  forallb isAscii s = true →
  monthNameBranches s = @monthNameBranches rolloverEngine s.
Proof.
  intros Hs. unfold monthNameBranches.
  by rewrite !toLowerCase_ascii.
Qed.

Lemma monthNameBranches_nil : monthNameBranches [] = [].
Proof. by rewrite monthNameBranches_ascii. Qed.

(** The body of [normaliseDate] on any string, empty or not. *)
Lemma normaliseDate_string_all raw :
  normaliseDate (VString raw) =
  Normal (match numericBranch (trim raw) with
          | Some r => r
          | None => monthNameBranches (trim raw)
          end).
Proof.
  destruct raw as [|c raw]; [|by apply normaliseDate_string].
  change (trim []) with (@nil codeunit).
  change (numericBranch []) with (@None jsstring).
  by rewrite monthNameBranches_nil.
Qed.

End Lowered.

(** On ASCII text the result does not depend on the engine. *)
Lemma normaliseDate_ascii `{Engine} raw :
  forallb isAscii raw = true →
  normaliseDate (VString raw) = @normaliseDate rolloverEngine (VString raw).
Proof.
  intros Hraw.
  rewrite normaliseDate_string_all, (@normaliseDate_string_all rolloverEngine).
  rewrite (monthNameBranches_ascii (trim raw)); [done|by apply forallb_trim].
Qed.

Ltac eval_normalise :=
  rewrite normaliseDate_ascii by (by vm_compute); by vm_compute.

(** ** Claims about the numeric branch *)

Lemma stops_after_day suf ws rest :
  (suf = [] ∨ In suf ordinals) → spaces ws → stops isDigit (suf ++ ws ++ rest).
Proof.
  intros Hsuf [Hws Hne]. destruct Hsuf as [->|Hin].
  - destruct ws as [|w ws]; [done|]. simpl in *.
    apply andb_true_iff in Hws as [Hw _]. by apply space_not_digit.
  - unfold ordinals in Hin. simpl in Hin.
    by repeat (destruct Hin as [<-|Hin]; [done|]).
Qed.

Lemma month_name_first_letter mon :
  In mon month_names → ∃ c w, mon = c :: w ∧ isDigit c = false ∧ isWhiteSpace c = false.
Proof.
  intros Hin. unfold month_names in Hin. simpl in Hin.
  repeat (destruct Hin as [<-|Hin]; [by eexists _, _|]). destruct Hin.
Qed.

Section NumericText.
Context `{Engine}.

Lemma NumericDate_plain s y m d : NumericDate s y m d → forallb isPlain s = true.
Proof.
  intros (c1 & c2 & -> & Hy & Hc1 & Hm & Hc2 & Hd).
  rewrite forallb_app. cbn [forallb]. rewrite forallb_app. cbn [forallb].
  by rewrite (digits_plain _ _ _ Hy), (digits_plain _ _ _ Hm),
    (digits_plain _ _ _ Hd), !separator_plain.
Qed.

(** Text of the numeric shape is none of the month-name shapes. *)
Lemma NumericDate_not_month_day s y m d mon d' y' :
  NumericDate s y m d → ¬ MonthDayText s mon d' y'.
Proof.
  intros (c1 & c2 & -> & Hy & _) (ws1 & suf & ws2 & Heq & Hmon & _).
  apply digits_exact_4 in Hy as (y1 & y2 & y3 & y4 & -> & Hy1 & _).
  apply month_name_first_letter in Hmon as (c & w & -> & Hc & _).
  injection Heq as -> _. congruence.
Qed.

Lemma NumericDate_not_day_month s y m d d' mon y' :
  NumericDate s y m d → ¬ DayMonthText s d' mon y'.
Proof.
  intros (c1 & c2 & -> & [Hy Hly] & Hc1 & _)
         (suf & ws1 & ws2 & Heq & [Hd' Hld'] & Hsuf & Hws1 & _).
  apply span_unique with (p := isDigit) in Heq as [<- _]; try done.
  - lia.
  - by apply separator_not_digit.
  - by apply stops_after_day.
Qed.

Lemma monthNameBranches_numeric s y m d :
  NumericDate s y m d → monthNameBranches s = [].
Proof.
  intros Hnum. unfold monthNameBranches.
  rewrite (lowered_plain s) by by eapply NumericDate_plain.
  destruct (exec re_month_day s) as [m1|] eqn:H1.
  { apply exec_re_month_day in H1 as (mon & d' & y' & Htxt & _).
    by eapply NumericDate_not_month_day in Htxt. }
  destruct (exec re_day_month s) as [m2|] eqn:H2; [|done].
  apply exec_re_day_month in H2 as (d' & mon & y' & Htxt & _).
  by eapply NumericDate_not_day_month in Htxt.
Qed.

End NumericText.

(** C3, as stated: text would match the numeric pattern only when its
    two separators are the same character.  "2025-06/01" matches. *)
Lemma numeric_same_separator_fails :
  ¬ (∀ (y m d : jsstring) (c1 c2 : codeunit),
       digits 4 4 y → digits 1 2 m → digits 1 2 d →
       is_Some (exec re_direct (y ++ c1 :: m ++ c2 :: d)) → c1 = c2).
Proof.
  intros Hclaim.
  specialize (Hclaim (str "2025") (str "06") (str "01") 45%N 47%N).
  discriminate Hclaim; try (split; [done|simpl; lia]).
  eexists. by vm_compute.
Qed.

(** C3, amended: the numeric branch takes text made of four digits, a
    separator, one or two digits, a separator and one or two digits,
    where each separator is any of [- . / _] and the two need not be the
    same; it pads month and day to two places and returns the date only
    when the month is in 1-12 and the day in 1-31.  Otherwise it yields
    nothing and the month-name patterns are tried, which such text never
    matches, so the result is empty. *)
Theorem numeric_branch_rule `{Engine} (raw : jsstring) :
  normaliseDate (VString raw)
  = Normal (match numericBranch (trim raw) with
            | Some r => r
            | None => monthNameBranches (trim raw)
            end)
  ∧ (∀ r, numericBranch (trim raw) = Some r ↔
          ∃ y m d, NumericDate (trim raw) y m d
                   ∧ 1 <= decimal m <= 12 ∧ 1 <= decimal d <= 31
                   ∧ r = y ++ dash ++ padStart0 2 m ++ dash ++ padStart0 2 d)
  ∧ (∀ y m d, NumericDate (trim raw) y m d →
              ¬ (1 <= decimal m <= 12 ∧ 1 <= decimal d <= 31) →
              normaliseDate (VString raw) = Normal []).
Proof.
  split; [apply normaliseDate_string_all|].
  split; [intros r; apply numericBranch_spec|].
  intros y m d Hnum Hout. rewrite normaliseDate_string_all.
  rewrite (numericBranch_out_of_range _ _ _ _ Hnum Hout).
  by rewrite (monthNameBranches_numeric _ _ _ _ Hnum).
Qed.

Lemma numeric_branch_rule_witness :
  NumericDate (trim (str "2025-13/1")) (str "2025") (str "13") (str "1")
  ∧ ¬ (1 <= decimal (str "13") <= 12 ∧ 1 <= decimal (str "1") <= 31)
  ∧ @normaliseDate rolloverEngine (VString (str "2025-13/1")) = Normal [].
Proof.
  assert (NumericDate (trim (str "2025-13/1")) (str "2025") (str "13") (str "1"))
    as Hnum.
  { exists 45%N, 47%N. unfold digits. by vm_compute; split_and!; try lia. }
  assert (¬ (1 <= decimal (str "13") <= 12 ∧ 1 <= decimal (str "1") <= 31))
    as Hout by (vm_compute; intros [[_ Hle] _]; by apply Hle).
  split; [exact Hnum|]. split; [exact Hout|].
  exact (proj2 (proj2 (@numeric_branch_rule rolloverEngine (str "2025-13/1")))
           _ _ _ Hnum Hout).
Defined.

(** ** The month-name patterns are unambiguous *)

(** No month name is the beginning of another. *)
Lemma month_name_unique mon mon' r r' :
  In mon month_names → In mon' month_names →
  mon ++ r = mon' ++ r' → mon = mon' ∧ r = r'.
Proof.
  intros Hin Hin'. unfold month_names in Hin, Hin'.
  cbn [List.map In] in Hin, Hin'.
  repeat (destruct Hin as [<-|Hin]; [|]); try destruct Hin;
    (repeat (destruct Hin' as [<-|Hin']; [|]); try destruct Hin');
    intros Heq; first [discriminate Heq | by apply app_inv_head in Heq].
Qed.

Lemma stops_digits_space d rest :
  digits 1 2 d → stops isWhiteSpace (d ++ rest).
Proof.
  intros [(a & -> & Ha)|(a & b & -> & Ha & _)]%digits_1_2;
    by apply digit_not_space.
Qed.

Lemma stops_digits4_space y : digits 4 4 y → stops isWhiteSpace y.
Proof.
  intros (a & b & c & d & -> & Ha & _)%digits_exact_4. by apply digit_not_space.
Qed.

Lemma stops_month_space mon rest :
  In mon month_names → stops isWhiteSpace (mon ++ rest).
Proof. by intros (c & w & -> & _ & Hc)%month_name_first_letter. Qed.

Lemma spaces_first ws rest :
  spaces ws → ∃ w r, ws ++ rest = w :: r ∧ isWhiteSpace w = true.
Proof.
  intros [Hws Hne]. destruct ws as [|w ws]; [done|].
  simpl in Hws. apply andb_true_iff in Hws as [Hw _]. by exists w, (ws ++ rest).
Qed.

(** An ordinal suffix, or none, followed by white space: which one it
    is can be read off the text. *)
Lemma ordinal_unique suf suf' ws ws' r r' :
  (suf = [] ∨ In suf ordinals) → (suf' = [] ∨ In suf' ordinals) →
  spaces ws → spaces ws' →
  suf ++ ws ++ r = suf' ++ ws' ++ r' → suf = suf' ∧ ws ++ r = ws' ++ r'.
Proof.
  intros Hsuf Hsuf' (w & t & -> & Hw)%(spaces_first _ r)
         (w' & t' & -> & Hw')%(spaces_first _ r').
  unfold ordinals in *. cbn [List.map In] in Hsuf, Hsuf'.
  destruct Hsuf as [->|Hsuf], Hsuf' as [->|Hsuf'];
    repeat (destruct Hsuf as [<-|Hsuf]; [|]); try destruct Hsuf;
    repeat (destruct Hsuf' as [<-|Hsuf']; [|]); try destruct Hsuf';
    intros Heq; try discriminate Heq; try done;
    try (injection Heq as Heq _; subst; discriminate).
  all: by apply app_inv_head in Heq.
Qed.

Lemma MonthDayText_unique s mon d y mon' d' y' :
  MonthDayText s mon d y → MonthDayText s mon' d' y' →
  mon = mon' ∧ d = d' ∧ y = y'.
Proof.
  intros (ws1 & suf & ws2 & -> & Hmon & [Hws1 _] & Hd & Hsuf & Hws2 & Hy)
         (ws1' & suf' & ws2' & Heq & Hmon' & [Hws1' _] & Hd' & Hsuf' & Hws2' & Hy').
  apply month_name_unique in Heq as [<- Heq]; [|done..].
  apply span_unique with (p := isWhiteSpace) in Heq as [<- Heq];
    [|done|done|by apply stops_digits_space..].
  apply span_unique with (p := isDigit) in Heq as [<- Heq];
    [|by destruct Hd|by destruct Hd'|by apply stops_after_day..].
  apply ordinal_unique in Heq as [<- Heq]; [|done..].
  apply span_unique with (p := isWhiteSpace) in Heq as [<- Heq];
    [done|by destruct Hws2|by destruct Hws2'|by apply stops_digits4_space..].
Qed.

Lemma DayMonthText_unique s d mon y d' mon' y' :
  DayMonthText s d mon y → DayMonthText s d' mon' y' →
  d = d' ∧ mon = mon' ∧ y = y'.
Proof.
  intros (suf & ws1 & ws2 & -> & Hd & Hsuf & Hws1 & Hmon & [Hws2 Hne2] & Hy)
         (suf' & ws1' & ws2' & Heq & Hd' & Hsuf' & Hws1' & Hmon' & [Hws2' Hne2'] & Hy').
  apply span_unique with (p := isDigit) in Heq as [<- Heq];
    [|by destruct Hd|by destruct Hd'|by apply stops_after_day..].
  apply ordinal_unique in Heq as [<- Heq]; [|done..].
  apply span_unique with (p := isWhiteSpace) in Heq as [<- Heq];
    [|by destruct Hws1|by destruct Hws1'|by apply stops_month_space..].
  apply month_name_unique in Heq as [<- Heq]; [|done..].
  apply span_unique with (p := isWhiteSpace) in Heq as [<- Heq];
    [done|done|done|by apply stops_digits4_space..].
Qed.

Lemma month_day_accepts_intro s mon d y :
  MonthDayText s mon d y → ∃ st', accepts month_day_body (MState 0 s []) st'.
Proof.
  intros (ws1 & suf & ws2 & -> & Hmon & Hws1 & [Hd Hld] & Hsuf & Hws2 & [Hy Hly]).
  pose proof (spaces_length _ Hws1). pose proof (spaces_length _ Hws2).
  destruct Hws1 as [Hws1 _], Hws2 as [Hws2 _].
  rewrite <- (app_nil_r y). eexists. unfold month_day_body. cbn [seq_of].
  seq_intro. { apply accepts_Group_alt_of. exists mon. split; [done|apply consumes_intro]. }
  seq_intro. { apply accepts_Rep. exists ws1. split_and!; [done|lia|done|apply consumes_intro]. }
  seq_intro. { apply accepts_Group_Rep. exists d. split_and!; [done|lia|simpl; lia|apply consumes_intro]. }
  seq_intro. { apply accepts_ordinal. exists suf. split; [done|apply consumes_intro]. }
  seq_intro. { apply accepts_Rep. exists ws2. split_and!; [done|lia|done|apply consumes_intro]. }
  seq_intro. { apply accepts_Group_Rep. exists y. split_and!; [done|lia|simpl; lia|apply consumes_intro]. }
  apply accepts_Eol. done.
Qed.

Lemma day_month_accepts_intro s d mon y :
  DayMonthText s d mon y → ∃ st', accepts day_month_body (MState 0 s []) st'.
Proof.
  intros (suf & ws1 & ws2 & -> & [Hd Hld] & Hsuf & Hws1 & Hmon & Hws2 & [Hy Hly]).
  pose proof (spaces_length _ Hws1). pose proof (spaces_length _ Hws2).
  destruct Hws1 as [Hws1 _], Hws2 as [Hws2 _].
  rewrite <- (app_nil_r y). eexists. unfold day_month_body. cbn [seq_of].
  seq_intro. { apply accepts_Group_Rep. exists d. split_and!; [done|lia|simpl; lia|apply consumes_intro]. }
  seq_intro. { apply accepts_ordinal. exists suf. split; [done|apply consumes_intro]. }
  seq_intro. { apply accepts_Rep. exists ws1. split_and!; [done|lia|done|apply consumes_intro]. }
  seq_intro. { apply accepts_Group_alt_of. exists mon. split; [done|apply consumes_intro]. }
  seq_intro. { apply accepts_Rep. exists ws2. split_and!; [done|lia|done|apply consumes_intro]. }
  seq_intro. { apply accepts_Group_Rep. exists y. split_and!; [done|lia|simpl; lia|apply consumes_intro]. }
  apply accepts_Eol. done.
Qed.

(** Text of a month-name shape is matched, with its pieces as captures. *)
Lemma exec_re_month_day_intro s mon d y :
  MonthDayText s mon d y → exec re_month_day s = Some [s; mon; d; y].
Proof.
  intros Htxt. unfold re_month_day.
  destruct (month_day_accepts_intro _ _ _ _ Htxt) as (st0 & Hacc).
  pose proof (month_day_accepts _ _ Hacc) as (mon0 & d0 & y0 & Htxt0 & ->).
  destruct (MonthDayText_unique _ _ _ _ _ _ _ Htxt Htxt0) as (<- & <- & <-).
  rewrite (exec_anchored_unique _ _ _ Hacc).
  - simpl. by rewrite firstn_all.
  - intros st' (mon1 & d1 & y1 & Htxt1 & ->)%month_day_accepts.
    by destruct (MonthDayText_unique _ _ _ _ _ _ _ Htxt Htxt1) as (<- & <- & <-).
Qed.

Lemma exec_re_day_month_intro s d mon y :
  DayMonthText s d mon y → exec re_day_month s = Some [s; d; mon; y].
Proof.
  intros Htxt. unfold re_day_month.
  destruct (day_month_accepts_intro _ _ _ _ Htxt) as (st0 & Hacc).
  pose proof (day_month_accepts _ _ Hacc) as (d0 & mon0 & y0 & Htxt0 & ->).
  destruct (DayMonthText_unique _ _ _ _ _ _ _ Htxt Htxt0) as (<- & <- & <-).
  rewrite (exec_anchored_unique _ _ _ Hacc).
  - simpl. by rewrite firstn_all.
  - intros st' (d1 & mon1 & y1 & Htxt1 & ->)%day_month_accepts.
    by destruct (DayMonthText_unique _ _ _ _ _ _ _ Htxt Htxt1) as (<- & <- & <-).
Qed.

(** ** What the month-name branches return *)

Lemma DayMonthText_not_month_day s d mon y mon' d' y' :
  DayMonthText s d mon y → ¬ MonthDayText s mon' d' y'.
Proof.
  intros (suf & ws1 & ws2 & -> & Hd & _) (ws1' & suf' & ws2' & Heq & Hmon' & _).
  apply month_name_first_letter in Hmon' as (c & w & -> & Hc & _).
  apply digits_1_2 in Hd as [(a & -> & Ha)|(a & b & -> & Ha & _)];
    injection Heq as -> _; congruence.
Qed.

Section MonthNames.
Context `{Engine}.

Lemma monthNameBranches_month_day s mon d y :
  MonthDayText (removeCommas (toLowerCase s)) mon d y →
  monthNameBranches s
  = y ++ dash ++ property_text MONTHS mon ++ dash ++ padStart0 2 d.
Proof.
  intros Htxt. unfold monthNameBranches.
  by rewrite (exec_re_month_day_intro _ _ _ _ Htxt).
Qed.

Lemma monthNameBranches_day_month s d mon y :
  DayMonthText (removeCommas (toLowerCase s)) d mon y →
  monthNameBranches s
  = y ++ dash ++ property_text MONTHS mon ++ dash ++ padStart0 2 d.
Proof.
  intros Htxt. unfold monthNameBranches.
  destruct (exec re_month_day _) as [m1|] eqn:H1.
  { apply exec_re_month_day in H1 as (mon' & d' & y' & Htxt' & _).
    by eapply DayMonthText_not_month_day in Htxt'. }
  by rewrite (exec_re_day_month_intro _ _ _ _ Htxt).
Qed.

(** When the lower-cased text has a month-name shape the numeric
    branch stays out of the way. *)
Lemma numericBranch_month_text s mon d y :
  (MonthDayText (removeCommas (toLowerCase s)) mon d y
   ∨ DayMonthText (removeCommas (toLowerCase s)) d mon y) →
  numericBranch s = None.
Proof.
  intros Htxt. apply numericBranch_no_match. intros (y' & m' & d' & Hnum).
  rewrite (lowered_plain s) in Htxt by by eapply NumericDate_plain.
  destruct Htxt as [Htxt|Htxt].
  - by eapply NumericDate_not_month_day in Htxt.
  - by eapply NumericDate_not_day_month in Htxt.
Qed.

(** Whatever the day digits are, the month-name branches return them:
    there is no check that the day lies in 1-31. *)
Lemma normaliseDate_month_text raw mon d y :
  let lowered := removeCommas (toLowerCase (trim raw)) in
  (MonthDayText lowered mon d y ∨ DayMonthText lowered d mon y) →
  normaliseDate (VString raw)
  = Normal (y ++ dash ++ property_text MONTHS mon ++ dash ++ padStart0 2 d).
Proof.
  intros lowered Htxt. rewrite normaliseDate_string_all.
  rewrite (numericBranch_month_text _ _ _ _ Htxt). f_equal.
  destruct Htxt as [Htxt|Htxt];
    [by apply monthNameBranches_month_day|by apply monthNameBranches_day_month].
Qed.

(** Only text with one of the twelve names gets a result from the
    month-name branches. *)
Lemma normaliseDate_needs_month raw r :
  normaliseDate (VString raw) = Normal r → r ≠ [] →
  numericBranch (trim raw) = Some r
  ∨ ∃ mon d y,
      In mon month_names
      ∧ (MonthDayText (removeCommas (toLowerCase (trim raw))) mon d y
         ∨ DayMonthText (removeCommas (toLowerCase (trim raw))) d mon y)
      ∧ r = y ++ dash ++ property_text MONTHS mon ++ dash ++ padStart0 2 d.
Proof.
  rewrite normaliseDate_string_all. intros [= Hr] Hne.
  destruct (numericBranch (trim raw)) as [r'|]; [left; by subst|right].
  destruct (monthNameBranches_spec (trim raw)) as [He|(mon & d & y & Htxt & Hm)];
    [congruence|].
  exists mon, d, y. split; [|split; [done|congruence]].
  destruct Htxt as [(? & ? & ? & _ & Hmon & _)|(? & ? & ? & _ & _ & _ & _ & Hmon & _)];
    done.
Qed.

End MonthNames.

(** ** Single-blank layouts *)

(** Text that neither begins nor ends with white space is left alone by
    [trim]. *)
Lemma trimStart_id s : stops isWhiteSpace s → trimStart s = s.
Proof. destruct s as [|c s]; [done|]. simpl. by intros ->. Qed.

Lemma trim_id s :
  stops isWhiteSpace s → stops isWhiteSpace (rev s) → trim s = s.
Proof.
  intros Hs Hr. unfold trim, trimEnd.
  by rewrite (trimStart_id s), (trimStart_id (rev s)), rev_involutive.
Qed.

Lemma stops_rev_digits4 y rest :
  digits 4 4 y → stops isWhiteSpace (rev (rest ++ y)).
Proof.
  intros (a & b & c & d & -> & _ & _ & _ & Hd)%digits_exact_4.
  rewrite rev_app_distr. by apply digit_not_space.
Qed.

Lemma month_name_plain mon : In mon month_names → forallb isPlain mon = true.
Proof.
  intros Hin. unfold month_names in Hin. cbn [List.map In] in Hin.
  by repeat (destruct Hin as [<-|Hin]; [done|]).
Qed.

Lemma abbreviation_plain a : In a abbreviations → forallb isPlain a = true.
Proof.
  intros Hin. unfold abbreviations in Hin. cbn [List.map In] in Hin.
  by repeat (destruct Hin as [<-|Hin]; [done|]).
Qed.

Lemma abbreviation_first_letter a :
  In a abbreviations →
  ∃ c w, a = c :: w ∧ isDigit c = false ∧ isWhiteSpace c = false.
Proof.
  intros Hin. unfold abbreviations in Hin. cbn [List.map In] in Hin.
  repeat (destruct Hin as [<-|Hin]; [by eexists _, _|]). destruct Hin.
Qed.

(** An abbreviation followed by a blank is not the start of a month
    name followed by white space. *)
Lemma abbreviation_clash a mon r ws r' :
  In a abbreviations → In mon month_names → spaces ws →
  a ++ blank ++ r ≠ mon ++ ws ++ r'.
Proof.
  intros Ha Hmon (w & t & -> & Hw)%(spaces_first _ r').
  unfold abbreviations in Ha. unfold month_names in Hmon.
  cbn [List.map In] in Ha, Hmon.
  repeat (destruct Ha as [<-|Ha]; [|]); try destruct Ha;
    (repeat (destruct Hmon as [<-|Hmon]; [|]); try destruct Hmon);
    intros Heq; discriminate Heq.
Qed.

Lemma spaces_blank : spaces blank.
Proof. done. Qed.

Lemma blank_plain : forallb isPlain blank = true.
Proof. done. Qed.

Lemma monthFirst_text mon day year :
  In mon month_names → digits 1 2 day → digits 4 4 year →
  MonthDayText (monthFirst mon day year) mon day year.
Proof.
  intros Hmon Hday Hyear. exists blank, [], blank.
  split_and!; auto using spaces_blank.
Qed.

Lemma dayFirst_text day mon year :
  In mon month_names → digits 1 2 day → digits 4 4 year →
  DayMonthText (dayFirst day mon year) day mon year.
Proof.
  intros Hmon Hday Hyear. exists [], blank, blank.
  split_and!; auto using spaces_blank.
Qed.

Lemma monthFirst_trim mon day year :
  (In mon month_names ∨ In mon abbreviations) → digits 4 4 year →
  trim (monthFirst mon day year) = monthFirst mon day year.
Proof.
  intros Hmon Hyear. apply trim_id.
  - destruct Hmon as [(c & w & -> & _ & Hc)%month_name_first_letter
                     |(c & w & -> & _ & Hc)%abbreviation_first_letter]; done.
  - unfold monthFirst. rewrite !app_assoc. by apply stops_rev_digits4.
Qed.

Lemma dayFirst_trim day mon year :
  digits 1 2 day → digits 4 4 year →
  trim (dayFirst day mon year) = dayFirst day mon year.
Proof.
  intros Hday Hyear. apply trim_id.
  - by apply stops_digits_space.
  - unfold dayFirst. rewrite !app_assoc. by apply stops_rev_digits4.
Qed.

Lemma monthFirst_plain mon day year :
  (In mon month_names ∨ In mon abbreviations) →
  digits 1 2 day → digits 4 4 year →
  forallb isPlain (monthFirst mon day year) = true.
Proof.
  intros Hmon Hday Hyear. unfold monthFirst. rewrite !forallb_app.
  rewrite (digits_plain _ _ _ Hday), (digits_plain _ _ _ Hyear), blank_plain.
  destruct Hmon as [Hmon|Hmon];
    [by rewrite month_name_plain|by rewrite abbreviation_plain].
Qed.

Lemma dayFirst_plain day mon year :
  (In mon month_names ∨ In mon abbreviations) →
  digits 1 2 day → digits 4 4 year →
  forallb isPlain (dayFirst day mon year) = true.
Proof.
  intros Hmon Hday Hyear. unfold dayFirst. rewrite !forallb_app.
  rewrite (digits_plain _ _ _ Hday), (digits_plain _ _ _ Hyear), blank_plain.
  destruct Hmon as [Hmon|Hmon];
    [by rewrite month_name_plain|by rewrite abbreviation_plain].
Qed.

(** The two layouts with an abbreviation have no month-name shape. *)
Lemma abbreviated_monthFirst_no_text a day year mon d y :
  In a abbreviations →
  ¬ MonthDayText (monthFirst a day year) mon d y
  ∧ ¬ DayMonthText (monthFirst a day year) d mon y.
Proof.
  intros Ha. split.
  - intros (ws1 & suf & ws2 & Heq & Hmon & Hws1 & _).
    by eapply abbreviation_clash in Heq.
  - intros (suf & ws1 & ws2 & Heq & Hd & _).
    apply abbreviation_first_letter in Ha as (c & w & -> & Hc & _).
    apply digits_1_2 in Hd as [(x & -> & Hx)|(x & z & -> & Hx & _)];
      injection Heq as -> _; congruence.
Qed.

Lemma abbreviated_dayFirst_no_text day a year mon d y :
  In a abbreviations → digits 1 2 day →
  ¬ MonthDayText (dayFirst day a year) mon d y
  ∧ ¬ DayMonthText (dayFirst day a year) d mon y.
Proof.
  intros Ha Hday. split.
  - intros (ws1 & suf & ws2 & Heq & Hmon & _).
    apply month_name_first_letter in Hmon as (c & w & -> & Hc & _).
    apply digits_1_2 in Hday as [(x & -> & Hx)|(x & z & -> & Hx & _)];
      injection Heq as -> _; congruence.
  - intros (suf & ws1 & ws2 & Heq & Hd & Hsuf & Hws1 & Hmon & Hws2 & _).
    unfold dayFirst in Heq.
    apply span_unique with (p := isDigit) in Heq as [_ Heq];
      [|by destruct Hday|by destruct Hd|done|by apply stops_after_day].
    apply (ordinal_unique [] suf blank ws1) in Heq as [_ Heq];
      [|by left|done|apply spaces_blank|done].
    apply span_unique with (p := isWhiteSpace) in Heq as [_ Heq];
      [|done|by destruct Hws1| |by apply stops_month_space].
    + by eapply abbreviation_clash in Heq.
    + by apply abbreviation_first_letter in Ha as (c & w & -> & _ & Hc).
Qed.

Section Layouts.
Context `{Engine}.

Lemma lowered_monthFirst mon day year :
  (In mon month_names ∨ In mon abbreviations) →
  digits 1 2 day → digits 4 4 year →
  removeCommas (toLowerCase (trim (monthFirst mon day year)))
  = monthFirst mon day year.
Proof.
  intros Hmon Hday Hyear.
  rewrite monthFirst_trim by done. by apply lowered_plain, monthFirst_plain.
Qed.

Lemma lowered_dayFirst day mon year :
  (In mon month_names ∨ In mon abbreviations) →
  digits 1 2 day → digits 4 4 year →
  removeCommas (toLowerCase (trim (dayFirst day mon year)))
  = dayFirst day mon year.
Proof.
  intros Hmon Hday Hyear.
  rewrite dayFirst_trim by done. by apply lowered_plain, dayFirst_plain.
Qed.

(** Every one of the twelve names is taken, in both word orders. *)
Lemma normaliseDate_full_name mon day year :
  In mon month_names → digits 1 2 day → digits 4 4 year →
  normaliseDate (VString (monthFirst mon day year))
  = Normal (year ++ dash ++ property_text MONTHS mon ++ dash ++ padStart0 2 day)
  ∧ normaliseDate (VString (dayFirst day mon year))
    = Normal (year ++ dash ++ property_text MONTHS mon ++ dash ++ padStart0 2 day).
Proof.
  intros Hmon Hday Hyear. split; apply normaliseDate_month_text.
  - left. rewrite lowered_monthFirst by auto. by apply monthFirst_text.
  - right. rewrite lowered_dayFirst by auto. by apply dayFirst_text.
Qed.

(** No abbreviation is taken, in either word order. *)
Lemma normaliseDate_abbreviation a day year :
  In a abbreviations → digits 1 2 day → digits 4 4 year →
  normaliseDate (VString (monthFirst a day year)) = Normal []
  ∧ normaliseDate (VString (dayFirst day a year)) = Normal [].
Proof.
  intros Ha Hday Hyear. split.
  - destruct (normaliseDate_total_string (monthFirst a day year)) as [r Hr].
    rewrite Hr. f_equal. destruct (decide (r = [])) as [|Hne]; [done|].
    destruct (normaliseDate_needs_month _ _ Hr Hne)
      as [Hnum|(mon & d & y & _ & Htxt & _)].
    + apply numericBranch_spec in Hnum as (y & m & d & Hnum & _).
      rewrite monthFirst_trim in Hnum by auto.
      destruct Hnum as (c1 & c2 & Heq & Hy & _).
      apply digits_exact_4 in Hy as (y1 & y2 & y3 & y4 & -> & Hy1 & _).
      apply abbreviation_first_letter in Ha as (c & w & -> & Hc & _).
      injection Heq as -> _. congruence.
    + rewrite lowered_monthFirst in Htxt by auto.
      destruct (abbreviated_monthFirst_no_text a day year mon d y Ha).
      tauto.
  - destruct (normaliseDate_total_string (dayFirst day a year)) as [r Hr].
    rewrite Hr. f_equal. destruct (decide (r = [])) as [|Hne]; [done|].
    destruct (normaliseDate_needs_month _ _ Hr Hne)
      as [Hnum|(mon & d & y & _ & Htxt & _)].
    + apply numericBranch_spec in Hnum as (y & m & d & Hnum & _).
      rewrite dayFirst_trim in Hnum by auto.
      destruct Hnum as (c1 & c2 & Heq & [Hy Hly] & Hc1 & _).
      unfold dayFirst in Heq.
      apply span_unique with (p := isDigit) in Heq as [-> _];
        [|by destruct Hday|done|done|by apply separator_not_digit].
      destruct Hday as [_ Hl]. lia.
    + rewrite lowered_dayFirst in Htxt by auto.
      destruct (abbreviated_dayFirst_no_text day a year mon d y Ha Hday).
      tauto.
Qed.

End Layouts.

(** ** Claims about the month-name branches *)

(** C9: the month-name branches take exactly the twelve full lower-case
    names: a result that does not come from the numeric branch needs one
    of them in the lower-cased text, each of them is taken in both word
    orders, and abbreviations are not: text with an abbreviated month
    gives the empty string, as does "jan 1 2025". *)
Theorem month_names_recognised `{Engine} :
  (∀ raw r,
     normaliseDate (VString raw) = Normal r → r ≠ [] →
     numericBranch (trim raw) = None →
     ∃ mon d y,
       In mon month_names
       ∧ (MonthDayText (removeCommas (toLowerCase (trim raw))) mon d y
          ∨ DayMonthText (removeCommas (toLowerCase (trim raw))) d mon y))
  ∧ (∀ mon day year,
       In mon month_names → digits 1 2 day → digits 4 4 year →
       normaliseDate (VString (monthFirst mon day year))
       = Normal (year ++ dash ++ property_text MONTHS mon ++ dash ++ padStart0 2 day)
       ∧ normaliseDate (VString (dayFirst day mon year))
         = Normal (year ++ dash ++ property_text MONTHS mon ++ dash ++ padStart0 2 day))
  ∧ (∀ a day year,
       In a abbreviations → digits 1 2 day → digits 4 4 year →
       normaliseDate (VString (monthFirst a day year)) = Normal []
       ∧ normaliseDate (VString (dayFirst day a year)) = Normal [])
  ∧ normaliseDate (VString (str "jan 1 2025")) = Normal []
  ∧ normaliseDate (VString (str "Jan 1st, 2025")) = Normal []
  ∧ normaliseDate (VString (str "1 Sept 2025")) = Normal [].
Proof.
  split_and!.
  - intros raw r Hr Hne Hnum.
    destruct (normaliseDate_needs_month _ _ Hr Hne)
      as [Hnum'|(mon & d & y & Hmon & Htxt & _)]; [congruence|eauto].
  - apply normaliseDate_full_name.
  - apply normaliseDate_abbreviation.
  - eval_normalise.
  - eval_normalise.
  - eval_normalise.
Qed.

Lemma month_names_recognised_witness :
  In (str "feb") abbreviations ∧ digits 1 2 (str "29") ∧ digits 4 4 (str "2024")
  ∧ @normaliseDate rolloverEngine (VString (monthFirst (str "feb") (str "29") (str "2024")))
    = Normal []
  ∧ In (str "february") month_names
  ∧ @normaliseDate rolloverEngine
      (VString (monthFirst (str "february") (str "29") (str "2024")))
    = Normal (str "2024-02-29").
Proof.
  assert (In (str "feb") abbreviations) as Ha by (vm_compute; tauto).
  assert (In (str "february") month_names) as Hm by (vm_compute; tauto).
  assert (digits 1 2 (str "29")) as Hd by (split; [done|simpl; lia]).
  assert (digits 4 4 (str "2024")) as Hy by (split; [done|simpl; lia]).
  pose proof (@month_names_recognised rolloverEngine) as (_ & Hfull & Habbr & _).
  exact (conj Ha (conj Hd (conj Hy (conj (proj1 (Habbr _ _ _ Ha Hd Hy))
           (conj Hm (proj1 (Hfull _ _ _ Hm Hd Hy))))))).
Defined.

(** C10: the month-name branches do not check the day.  Whatever one or
    two digits stand for the day, they are returned; "june 99 2025" and
    "june 0 2025" give dates whose day lies outside 1-31, whereas the
    numeric branch turns the same days down. *)
Theorem month_names_no_day_check `{Engine} :
  (∀ raw mon d y,
     (MonthDayText (removeCommas (toLowerCase (trim raw))) mon d y
      ∨ DayMonthText (removeCommas (toLowerCase (trim raw))) d mon y) →
     normaliseDate (VString raw)
     = Normal (y ++ dash ++ property_text MONTHS mon ++ dash ++ padStart0 2 d))
  ∧ normaliseDate (VString (str "june 99 2025")) = Normal (str "2025-06-99")
  ∧ normaliseDate (VString (str "june 0 2025")) = Normal (str "2025-06-00")
  ∧ normaliseDate (VString (str "99 june 2025")) = Normal (str "2025-06-99")
  ∧ dayOf (str "2025-06-99") = 99 ∧ dayOf (str "2025-06-00") = 0
  ∧ normaliseDate (VString (str "2025-06-99")) = Normal []
  ∧ normaliseDate (VString (str "2025-6-0")) = Normal [].
Proof.
  split_and!; try done; try eval_normalise.
  intros raw mon d y. apply normaliseDate_month_text.
Qed.

Lemma month_names_no_day_check_witness :
  MonthDayText
    (removeCommas (@toLowerCase rolloverEngine (trim (str "March 45th, 2025"))))
    (str "march") (str "45") (str "2025")
  ∧ @normaliseDate rolloverEngine (VString (str "March 45th, 2025"))
    = Normal (str "2025-03-45").
Proof.
  assert (MonthDayText
    (removeCommas (@toLowerCase rolloverEngine (trim (str "March 45th, 2025"))))
    (str "march") (str "45") (str "2025")) as Htxt.
  { exists blank, (str "th"), blank. vm_compute. split_and!; try done; try lia; tauto. }
  split; [exact Htxt|].
  exact (proj1 (@month_names_no_day_check rolloverEngine) _ _ _ _ (or_introl Htxt)).
Defined.

(** C7 at the failing input: "2025-06-99" is a text that [normaliseDate]
    emits (for "june 99 2025") and has the canonical shape, yet it is
    not sent back to itself but to the empty string. *)
Theorem normaliseDate_reemit_rejected `{Engine} :
  normaliseDate (VString (str "june 99 2025")) = Normal (str "2025-06-99")
  ∧ CanonicalDate (str "2025-06-99")
  ∧ normaliseDate (VString (str "2025-06-99")) = Normal []
  ∧ str "2025-06-99" ≠ [].
Proof.
  split_and!; try done; try eval_normalise.
  by apply test_re_iso.
Qed.

(** Canonical text whose month and day are in range is sent back to
    itself: it is only the unchecked days of the month-name branches
    that are not. *)
Lemma normaliseDate_fixes_in_range `{Engine} (d : jsstring) :
  CanonicalDate d → 1 <= monthOf d <= 12 → 1 <= dayOf d <= 31 →
  normaliseDate (VString d) = Normal d.
Proof.
  intros Hd Hm Hday.
  pose proof Hd as (y & m & dd & -> & Hy & Hmm & Hdd).
  assert (trim (y ++ dash ++ m ++ dash ++ dd) = y ++ dash ++ m ++ dash ++ dd)
    as Htrim.
  { apply trim_id.
    - pose proof Hy as (a & b & c & e & -> & Ha & _)%digits_exact_4.
      by apply digit_not_space.
    - pose proof Hdd as (a & b & -> & _ & Hb)%digits_exact_2.
      rewrite !app_assoc, rev_app_distr. by apply digit_not_space. }
  pose proof Hy as (y1 & y2 & y3 & y4 & -> & _)%digits_exact_4.
  pose proof Hmm as (m1 & m2 & -> & Hm1 & Hm2)%digits_exact_2.
  pose proof Hdd as (d1 & d2 & -> & Hd1 & Hd2)%digits_exact_2.
  rewrite normaliseDate_string_all, Htrim.
  assert (numericBranch ([y1; y2; y3; y4] ++ dash ++ [m1; m2] ++ dash ++ [d1; d2])
          = Some ([y1; y2; y3; y4] ++ dash ++ [m1; m2] ++ dash ++ [d1; d2])) as ->;
    [|done].
  apply numericBranch_spec. exists [y1; y2; y3; y4], [m1; m2], [d1; d2].
  split_and!; try done.
  - exists 45%N, 45%N. split_and!; try done;
      (split; [simpl; by rewrite ?Hm1, ?Hm2, ?Hd1, ?Hd2|simpl; lia]).
  - apply Hm.
  - apply Hm.
  - apply Hday.
  - apply Hday.
Qed.

(** ** Claims about totality *)

(** C2, as stated: neither helper would ever raise, whatever the value.
    [normaliseDate] raises a TypeError on the number 42. *)
Lemma normaliseDate_total_fails :
  ¬ (∀ (E : Engine) (v : value), ∃ s, normaliseDate v = Normal s).
Proof.
  intros Hclaim.
  destruct (Hclaim rolloverEngine (VNumber (S754_finite false 21 1))) as [s Hs].
  discriminate Hs.
Qed.

(** C2, amended: [getWeekOffset] returns an integer on every value.
    [normaliseDate] returns a string on every string, on every falsy
    value and on every object whose [trim] returns a string; on a String
    object it gives what it gives on the text itself.  It raises a
    TypeError on every truthy value without a callable [trim] - a
    number, [true], an array, a plain object -, values which its
    parameter type leaves out. *)
Theorem helpers_total `{Engine} (v : value) (now : Z) :
  (∃ n, getWeekOffset v now = Normal n)
  ∧ (typeof v = TString ∨ ToBoolean v = false →
     ∃ s, normaliseDate v = Normal s)
  ∧ (ToBoolean v = true → hasCallableTrim v = false →
     ∃ e, normaliseDate v = Throw e)
  ∧ (ToBoolean v = true → ∀ s, call_trim v = Normal s →
     ∃ r, normaliseDate v = Normal r)
  ∧ (∀ t, normaliseDate (StringObject t) = normaliseDate (VString t)).
Proof.
  split_and!.
  - apply getWeekOffset_returns.
  - intros [Hty|Hf].
    + destruct v; try done. apply normaliseDate_total_string.
    + exists []. by apply normaliseDate_falsy.
  - intros Htrue Htrim. unfold normaliseDate. rewrite Htrue.
    destruct v as [| |b|x|w|[c|]]; try done; by eexists.
  - intros Htrue s Hs. unfold normaliseDate. rewrite Htrue, Hs.
    cbn [negb mbind completion_bind bind]. destruct (numericBranch s); by eexists.
  - intros t. rewrite normaliseDate_string_all.
    unfold normaliseDate, StringObject.
    cbn [ToBoolean negb call_trim mbind completion_bind bind].
    by destruct (numericBranch (trim t)).
Qed.

Lemma helpers_total_witness :
  (typeof VNull = TString ∨ ToBoolean VNull = false)
  ∧ ∃ s, @normaliseDate rolloverEngine VNull = Normal s.
Proof.
  assert (typeof VNull = TString ∨ ToBoolean VNull = false) as Hv
    by (right; reflexivity).
  split; [exact Hv|].
  exact (proj1 (proj2 (@helpers_total rolloverEngine VNull 0)) Hv).
Defined.

(** ** Worked examples *)

(** The sample inputs of the header comment of [normaliseDate]. *)
Example normaliseDate_samples `{Engine} :
  normaliseDate (VString (str "2025.06.01")) = Normal (str "2025-06-01")
  ∧ normaliseDate (VString (str "2025/6/1")) = Normal (str "2025-06-01")
  ∧ normaliseDate (VString (str "2025-6-1")) = Normal (str "2025-06-01")
  ∧ normaliseDate (VString (str "2025_06_01")) = Normal (str "2025-06-01")
  ∧ normaliseDate (VString (str "June 1 2025")) = Normal (str "2025-06-01")
  ∧ normaliseDate (VString (str "1 June 2025")) = Normal (str "2025-06-01")
  ∧ normaliseDate (VString (str "June 1st, 2025")) = Normal (str "2025-06-01")
  ∧ normaliseDate (VString (str "not a date")) = Normal []
  ∧ normaliseDate (VString (str "2025-13-01")) = Normal []
  ∧ normaliseDate (VString (str "2025-06-32")) = Normal [].
Proof. split_and!; eval_normalise. Qed.

(** A day past the end of its month: the engines that roll it over
    count weeks from the date it rolls to (2025-03-02 here), the others
    report an invalid date and the fallback is returned. *)
Example getWeekOffset_day_overflow :
  @getWeekOffset rolloverEngine (VString (str "2025-02-30")) 1749982830000
  = Normal 16
  ∧ @midnightUTC rolloverEngine (str "2025-02-30")
    = @midnightUTC rolloverEngine (str "2025-03-02")
  ∧ @getWeekOffset strictEngine (VString (str "2025-02-30")) 1749982830000
    = Normal 0.
Proof. split_and!; by vm_compute. Qed.

(** With the clock at 2025-06-15T10:20:30Z. *)
Example getWeekOffset_samples `{Engine} :
  let now := MakeDate (MakeDay 2025 6 15) (MakeTime 10 20 30 0) in
  getWeekOffset (VString (str "2025-06-15")) now = Normal 1
  ∧ getWeekOffset (VString (str "2025-06-08")) now = Normal 2
  ∧ getWeekOffset (VString (str "2025-06-02")) now = Normal 2
  ∧ getWeekOffset (VString (str "2025-06-01")) now = Normal 3
  ∧ getWeekOffset (VString (str "2025-06-16")) now = Normal 1
  ∧ getWeekOffset (VString (str "2099-12-31")) now = Normal 1
  ∧ getWeekOffset (VString (str "not-a-date")) now = Normal 0
  ∧ getWeekOffset (VString (str "2025/06/01")) now = Normal 0
  ∧ getWeekOffset (VString (str "")) now = Normal 0
  ∧ getWeekOffset VUndefined now = Normal 0.
Proof.
  intros now. destruct H as [lower Hlower [|]]; split_and!; by vm_compute.
Qed.

(** * Further properties of the helpers *)

(** ** White space around the argument *)

Lemma trimStart_stopped s : stops isWhiteSpace (trimStart s).
Proof.
  induction s as [|c s IH]; [done|]. simpl.
  destruct (isWhiteSpace c) eqn:Hc; [done|]. by simpl.
Qed.

Lemma trimStart_suffix s : ∃ w, s = w ++ trimStart s ∧ forallb isWhiteSpace w = true.
Proof.
  induction s as [|c s (w & Hs & Hw)]; [by exists []|]. simpl.
  destruct (isWhiteSpace c) eqn:Hc; [|by exists []].
  exists (c :: w). simpl. rewrite Hc, Hw. split; [by f_equal|done].
Qed.

Lemma trimStart_spaces w s :
  forallb isWhiteSpace w = true → trimStart (w ++ s) = trimStart s.
Proof.
  induction w as [|c w IH]; [done|]. simpl.
  intros [Hc Hw]%andb_true_iff. rewrite Hc. auto.
Qed.

Lemma stops_rev_trimStart s :
  stops isWhiteSpace (rev s) → stops isWhiteSpace (rev (trimStart s)).
Proof.
  induction s as [|c s IH]; [done|]. simpl.
  destruct (isWhiteSpace c) eqn:Hc; [|done].
  intros Hs. apply IH. destruct (rev s) as [|d r] eqn:Hr; [|done].
  simpl in Hs. congruence.
Qed.

Lemma trim_stopped s :
  stops isWhiteSpace (trim s) ∧ stops isWhiteSpace (rev (trim s)).
Proof.
  unfold trim, trimEnd. split.
  - apply stops_rev_trimStart. rewrite rev_involutive. apply trimStart_stopped.
  - rewrite rev_involutive. apply trimStart_stopped.
Qed.

Lemma trim_idempotent s : trim (trim s) = trim s.
Proof. apply trim_id; apply trim_stopped. Qed.

Lemma trim_padding w1 s w2 :
  forallb isWhiteSpace w1 = true → forallb isWhiteSpace w2 = true →
  trim (w1 ++ s ++ w2) = trim s.
Proof.
  intros H1 H2. unfold trim, trimEnd.
  rewrite trimStart_spaces by done.
  destruct (trimStart_suffix s) as (w & Hs & Hw).
  destruct (trimStart s) as [|c t] eqn:Ht.
  - (* s is all white space *)
    rewrite Hs, app_nil_r.
    assert (∀ u, forallb isWhiteSpace u = true → trimStart u = []) as Hall.
    { induction u as [|a u IH]; [done|]. simpl.
      intros [Ha Hu]%andb_true_iff. rewrite Ha. auto. }
    rewrite (Hall (w ++ w2)) by (by rewrite forallb_app, Hw). done.
  - pose proof (trimStart_stopped s) as Hc. rewrite Ht in Hc. simpl in Hc.
    rewrite <- Ht at 1.
    assert (trimStart (s ++ w2) = trimStart s ++ w2) as ->.
    { rewrite Hs at 1. rewrite <- app_assoc, trimStart_spaces by done.
      rewrite Ht. simpl. by rewrite Hc. }
    rewrite rev_app_distr, trimStart_spaces; [done|by apply forallb_rev_true].
Qed.

Section Padding.
Context `{Engine}.

Lemma normaliseDate_trim raw :
  normaliseDate (VString raw) = normaliseDate (VString (trim raw)).
Proof. by rewrite !normaliseDate_string_all, trim_idempotent. Qed.

Lemma getWeekOffset_trim raw now :
  getWeekOffset (VString raw) now = getWeekOffset (VString (trim raw)) now.
Proof.
  destruct (decide (raw = [])) as [->|Hraw]; [done|].
  rewrite (getWeekOffset_string raw) by done.
  destruct (decide (trim raw = [])) as [Ht|Ht].
  - by rewrite Ht.
  - by rewrite (getWeekOffset_string (trim raw)), trim_idempotent by done.
Qed.

End Padding.

(** X1: white space around the argument makes no difference to either
    helper. *)
Theorem padding_ignored `{Engine} (w1 s w2 : jsstring) (now : Z) :
  forallb isWhiteSpace w1 = true → forallb isWhiteSpace w2 = true →
  normaliseDate (VString (w1 ++ s ++ w2)) = normaliseDate (VString s)
  ∧ getWeekOffset (VString (w1 ++ s ++ w2)) now = getWeekOffset (VString s) now.
Proof.
  intros H1 H2. split.
  - by rewrite normaliseDate_trim, trim_padding, <- normaliseDate_trim.
  - by rewrite getWeekOffset_trim, trim_padding, <- getWeekOffset_trim.
Qed.

Lemma padding_ignored_witness :
  forallb isWhiteSpace (str "  ") = true
  ∧ @normaliseDate rolloverEngine (VString (str "  " ++ str "2025/6/1" ++ str "  "))
    = @normaliseDate rolloverEngine (VString (str "2025/6/1")).
Proof.
  assert (forallb isWhiteSpace (str "  ") = true) as Hw by reflexivity.
  split; [exact Hw|].
  exact (proj1 (@padding_ignored rolloverEngine _ (str "2025/6/1") _ 0 Hw Hw)).
Defined.

(** ** Reading the week count *)

(** X2: for a valid date not after the clock reading, the result [n]
    says that at least [n - 1] and less than [n] whole weeks have gone
    by; so it goes up by one when the clock moves on a week and never
    goes down as the clock advances. *)
Theorem getWeekOffset_brackets `{Engine} (s : jsstring) (p now : Z) :
  validPastDate s p → p <= now →
  ∃ n, getWeekOffset (VString s) now = Normal n
       ∧ (n - 1) * msPerWeek <= now - p < n * msPerWeek
       ∧ getWeekOffset (VString s) (now + msPerWeek) = Normal (n + 1)
       ∧ (∀ later m, now <= later →
            getWeekOffset (VString s) later = Normal m → n <= m).
Proof.
  intros Hv Hle. assert (0 < msPerWeek) as Hw by done.
  exists ((now - p) / msPerWeek + 1).
  assert (Hat : ∀ t, p <= t →
    getWeekOffset (VString s) t = Normal ((t - p) / msPerWeek + 1)).
  { intros t Ht. rewrite (getWeekOffset_valid s p) by done.
    assert ((p >? t) = false) as -> by lia. done. }
  split; [by apply Hat|]. split.
  - pose proof (Z.mul_div_le (now - p) msPerWeek Hw).
    pose proof (Z.mul_succ_div_gt (now - p) msPerWeek Hw). lia.
  - split.
    + rewrite Hat by lia. do 2 f_equal.
      replace (now + msPerWeek - p) with (now - p + 1 * msPerWeek) by lia.
      rewrite Z.div_add by lia. lia.
    + intros later m Hl. rewrite Hat by lia. intros [= <-].
      apply Z.add_le_mono_r, Z.div_le_mono; lia.
Qed.

Lemma getWeekOffset_brackets_witness :
  @validPastDate rolloverEngine (str "2025-06-01") 1748736000000
  ∧ ∃ n, @getWeekOffset rolloverEngine (VString (str "2025-06-01")) 1749982830000
         = Normal n
         ∧ (n - 1) * msPerWeek <= 1749982830000 - 1748736000000 < n * msPerWeek.
Proof.
  assert (@validPastDate rolloverEngine (str "2025-06-01") 1748736000000) as Hv.
  { split; [done|]. split; [|by vm_compute].
    apply test_re_iso. by vm_compute. }
  split; [exact Hv|].
  destruct (@getWeekOffset_brackets rolloverEngine _ _ 1749982830000 Hv ltac:(lia))
    as (n & Hn & Hb & _).
  exists n. by split.
Defined.

(** X3: for a valid date the result is 1 exactly when the date is less
    than a week before the clock reading or after it: a date in the
    future cannot be told from one of the last seven days. *)
Theorem getWeekOffset_one `{Engine} (s : jsstring) (p now : Z) :
  validPastDate s p →
  getWeekOffset (VString s) now = Normal 1 ↔ now < p + msPerWeek.
Proof.
  intros Hv. rewrite (getWeekOffset_valid s p) by done.
  assert (0 < msPerWeek) as Hw by done.
  destruct (p >? now) eqn:Hfut.
  - split; [lia|done].
  - assert (0 <= now - p) by lia. split.
    + intros [= Hq]. assert ((now - p) / msPerWeek = 0) as Hz by lia.
      apply Z.div_small_iff in Hz; lia.
    + intros Hlt. by rewrite Z.div_small by lia.
Qed.

Lemma getWeekOffset_one_witness :
  @validPastDate rolloverEngine (str "2030-01-01") 1893456000000
  ∧ (@getWeekOffset rolloverEngine (VString (str "2030-01-01")) 1749982830000
     = Normal 1 ↔ 1749982830000 < 1893456000000 + msPerWeek).
Proof.
  assert (@validPastDate rolloverEngine (str "2030-01-01") 1893456000000) as Hv.
  { split; [done|]. split; [|by vm_compute].
    apply test_re_iso. by vm_compute. }
  split; [exact Hv|].
  exact (@getWeekOffset_one rolloverEngine _ _ 1749982830000 Hv).
Defined.

(** ** From [normaliseDate] to [getWeekOffset] *)

Lemma canonical_trim r : CanonicalDate r → trim r = r ∧ r ≠ [].
Proof.
  intros (y1 & y2 & y3 & y4 & m1 & m2 & d1 & d2 & -> & Hd)%canonical_explicit.
  cbn [forallb] in Hd. repeat (apply andb_true_iff in Hd as [? Hd]).
  split; [|done]. apply trim_id; by apply digit_not_space.
Qed.

Lemma decimal_padStart0 d : digits 1 2 d → decimal (padStart0 2 d) = decimal d.
Proof.
  intros Hd. destruct (padStart0_digits d Hd) as [[Hp Hl] Hn].
  unfold ToNumber in Hn. rewrite Hp in Hn.
  destruct (padStart0 2 d); [simpl in Hl; lia|]. by injection Hn.
Qed.

Lemma numericBranch_fields s r :
  numericBranch s = Some r →
  1 <= monthOf r <= 12 ∧ 1 <= dayOf r <= 31.
Proof.
  intros (y & m & d & (c1 & c2 & _ & Hy & _ & Hm & _ & Hd) & Hmr & Hdr & ->)
    %numericBranch_spec.
  rewrite <- (decimal_padStart0 m Hm) in Hmr.
  rewrite <- (decimal_padStart0 d Hd) in Hdr.
  apply digits_exact_4 in Hy as (y1 & y2 & y3 & y4 & -> & _).
  destruct (padStart0_digits m Hm) as [(a & b & Ea & _)%digits_exact_2 _].
  destruct (padStart0_digits d Hd) as [(e & f & Ee & _)%digits_exact_2 _].
  rewrite Ea in *. rewrite Ee in *. done.
Qed.

Section Pipeline.
Context `{Engine}.

Lemma getWeekOffset_canonical r now :
  CanonicalDate r →
  getWeekOffset (VString r) now =
  if acceptsFields (yearOf r) (monthOf r) (dayOf r)
  then Normal (let p := MakeDay (yearOf r) (monthOf r) (dayOf r) * msPerDay in
               if p >? now then 1 else (now - p) / msPerWeek + 1)
  else Normal 0.
Proof.
  intros Hr. destruct (canonical_trim r Hr) as [Ht Hne].
  pose proof (midnightUTC_canonical r Hr) as Hp.
  destruct (acceptsFields _ _ _).
  - apply getWeekOffset_valid. split; [done|]. by rewrite Ht.
  - apply getWeekOffset_fails, fails_date; by rewrite Ht.
Qed.

Lemma getWeekOffset_canonical_zero r now :
  CanonicalDate r →
  getWeekOffset (VString r) now = Normal 0
  ↔ acceptsFields (yearOf r) (monthOf r) (dayOf r) = false.
Proof.
  intros Hr. rewrite getWeekOffset_canonical by done.
  destruct (acceptsFields _ _ _); [|done]. split; [|done].
  intros [= Hz]. cbv zeta in Hz. assert (0 < msPerWeek) by done.
  destruct (_ >? now) eqn:Hfut; [done|].
  assert (0 <= (now - MakeDay (yearOf r) (monthOf r) (dayOf r) * msPerDay)
               / msPerWeek) by (apply Z.div_pos; lia).
  lia.
Qed.

End Pipeline.

(** X4: given a non-empty result of [normaliseDate], [getWeekOffset]
    returns 0 exactly when the date constructor turns its month and day
    down.  For a result of the numeric branch on an engine that rolls
    days over it never does, and the week count is at least 1. *)
Theorem normalised_date_week_offset `{Engine} (raw r : jsstring) (now : Z) :
  normaliseDate (VString raw) = Normal r → r ≠ [] →
  (getWeekOffset (VString r) now = Normal 0
   ↔ acceptsFields (yearOf r) (monthOf r) (dayOf r) = false)
  ∧ (numericBranch (trim raw) = Some r → rollsOverDays = true →
     ∃ n, getWeekOffset (VString r) now = Normal n ∧ 1 <= n).
Proof.
  intros Hr Hne.
  assert (CanonicalDate r) as Hc.
  { rewrite normaliseDate_string_all in Hr. injection Hr as Hr.
    destruct (numericBranch (trim raw)) as [r'|] eqn:Hnum.
    - subst r'. by eapply numericBranch_shape.
    - destruct (monthNameBranches_shape (trim raw)); congruence. }
  split; [by apply getWeekOffset_canonical_zero|].
  intros Hnum Hroll. apply numericBranch_fields in Hnum as [Hm Hd].
  destruct (getWeekOffset_returns (VString r) now) as [n Hn].
  exists n. split; [done|].
  destruct (decide (n = 0)) as [->|Hnz].
  - apply getWeekOffset_canonical_zero in Hn; [|done].
    unfold acceptsFields in Hn. rewrite Hroll in Hn.
    repeat (apply andb_false_iff in Hn as [Hn|Hn]); try done; lia.
  - rewrite getWeekOffset_canonical in Hn by done.
    destruct (acceptsFields _ _ _); [|congruence].
    injection Hn as <-. cbv zeta. assert (0 < msPerWeek) by done.
    destruct (_ >? now) eqn:Hfut; [lia|]. apply weeks_nonneg. lia.
Qed.

Lemma normalised_date_week_offset_witness :
  @normaliseDate rolloverEngine (VString (str "June 31st, 2025"))
  = Normal (str "2025-06-31")
  ∧ str "2025-06-31" ≠ []
  ∧ (@getWeekOffset rolloverEngine (VString (str "2025-06-31")) 0 = Normal 0
     ↔ @acceptsFields rolloverEngine (yearOf (str "2025-06-31"))
         (monthOf (str "2025-06-31")) (dayOf (str "2025-06-31")) = false).
Proof.
  assert (@normaliseDate rolloverEngine (VString (str "June 31st, 2025"))
          = Normal (str "2025-06-31")) as Hr by (by vm_compute).
  assert (str "2025-06-31" ≠ []) as Hne by done.
  split; [exact Hr|]. split; [exact Hne|].
  exact (proj1 (@normalised_date_week_offset rolloverEngine _ _ 0 Hr Hne)).
Defined.

(** ** Numbers as text *)






(** ** The tools as the client sees them *)

Lemma cleanResults_single t : cleanResults [ContentItem (str "text") t] = t.
Proof. done. Qed.




(** ** Percent decoding *)

Lemma parseHexOctet_length s b rest :
  parseHexOctet s = Some (b, rest) → length s = (3 + length rest)%nat.
Proof.
  destruct s as [|p [|h [|l r]]]; try done. simpl.
  destruct (p =? 37)%N; [|done].
  destruct (hexValue h), (hexValue l); try done. by intros [= _ <-].
Qed.

Lemma readEscapes_length n s bs rest :
  readEscapes n s = Some (bs, rest) → (length rest <= length s)%nat.
Proof.
  revert s bs. induction n as [|n IH]; intros s bs; simpl.
  - by intros [= _ <-].
  - destruct (parseHexOctet s) as [[b r]|] eqn:Hp; [|done].
    destruct (readEscapes n r) as [[bs' r']|] eqn:Hr; [|done].
    intros [= _ <-]. apply parseHexOctet_length in Hp. apply IH in Hr. lia.
Qed.

(** Any fuel from the length of the text upwards gives the same result. *)
Lemma decodeFrom_fuel fuel s :
  (length s <= fuel)%nat → decodeFrom fuel s = decodeFrom (length s) s.
Proof.
  assert (Hgen : ∀ f1 f2 t, (length t <= f1)%nat → (length t <= f2)%nat →
                            decodeFrom f1 t = decodeFrom f2 t).
  { induction f1 as [|f1 IH]; intros f2 t H1 H2.
    - destruct t; [by destruct f2|simpl in H1; lia].
    - destruct t as [|c t]; [by destruct f2|].
      destruct f2 as [|f2]; [simpl in H2; lia|].
      simpl in H1, H2. cbn [decodeFrom].
      destruct (c =? 37)%N; [|by rewrite (IH f2 t) by lia].
      destruct (parseHexOctet (c :: t)) as [[b rest]|] eqn:Hp; [|done].
      apply parseHexOctet_length in Hp. simpl in Hp.
      destruct (leadingOnes b) as [|[|n]]; [by rewrite (IH f2 rest) by lia|done|].
      destruct (4 <? S (S n))%nat; [done|].
      destruct (readEscapes (S n) rest) as [[bs rest']|] eqn:Hr; [|done].
      apply readEscapes_length in Hr.
      destruct (utf8CodePoint (b :: bs)); [|done].
      by rewrite (IH f2 rest') by lia. }
  intros Hf. by apply Hgen.
Qed.

Lemma decodeURIComponent_nil : decodeURIComponent [] = Some [].
Proof. done. Qed.

Lemma decodeURIComponent_cons c s :
  (c =? 37)%N = false →
  decodeURIComponent (c :: s) = cons c <$> decodeURIComponent s.
Proof. intros Hc. unfold decodeURIComponent. simpl. by rewrite Hc. Qed.

Lemma decodeURIComponent_escape s b rest :
  parseHexOctet s = Some (b, rest) → (b <? 128)%N = true →
  decodeURIComponent s = cons b <$> decodeURIComponent rest.
Proof.
  intros Hp Hb. pose proof (parseHexOctet_length _ _ _ Hp) as Hl.
  unfold decodeURIComponent.
  destruct s as [|c t]; [done|]. rewrite Hl.
  change (3 + length rest)%nat with (S (2 + length rest)).
  cbn [decodeFrom]. rewrite Hp.
  assert ((c =? 37)%N = true) as ->.
  { destruct t as [|h [|l r]]; try done. simpl in Hp. by destruct (c =? 37)%N. }
  unfold leadingOnes. rewrite Hb. by rewrite decodeFrom_fuel by lia.
Qed.

Lemma decodeURIComponent_stray s :
  parseHexOctet (37%N :: s) = None → decodeURIComponent (37%N :: s) = None.
Proof. intros Hp. unfold decodeURIComponent. cbn [length decodeFrom]. by rewrite Hp. Qed.

Lemma decodeURIComponent_app w s :
  forallb (λ c, negb (c =? 37)%N) w = true →
  decodeURIComponent (w ++ s) = app w <$> decodeURIComponent s.
Proof.
  induction w as [|c w IH]; intros Hw; simpl.
  - by destruct (decodeURIComponent s).
  - simpl in Hw. apply andb_true_iff in Hw as [Hc Hw].
    apply negb_true_iff in Hc. rewrite decodeURIComponent_cons, IH by done.
    by destruct (decodeURIComponent s).
Qed.

(** X7: [decodeURIComponent] leaves text without a percent sign alone,
    copies such text in front of the first escape, and turns an escape
    [%XX] below 80 into the code unit XX. *)
Theorem decodeURIComponent_plain (w s rest : jsstring) (b : N) :
  forallb (λ c, negb (c =? 37)%N) w = true →
  decodeURIComponent w = Some w
  ∧ decodeURIComponent (w ++ s) = app w <$> decodeURIComponent s
  ∧ (parseHexOctet s = Some (b, rest) → (b < 128)%N →
     decodeURIComponent (w ++ s) = (λ t, w ++ b :: t) <$> decodeURIComponent rest).
Proof.
  intros Hw. split_and!.
  - rewrite <- (app_nil_r w) at 1.
    rewrite decodeURIComponent_app, decodeURIComponent_nil by done.
    cbn [mbind option_bind fmap option_fmap option_map]. by rewrite app_nil_r.
  - by apply decodeURIComponent_app.
  - intros Hp Hb. rewrite decodeURIComponent_app by done.
    rewrite (decodeURIComponent_escape s b rest) by (done || by apply N.ltb_lt).
    by destruct (decodeURIComponent rest).
Qed.

Lemma decodeURIComponent_plain_witness :
  forallb (λ c, negb (c =? 37)%N) (str "King") = true
  ∧ decodeURIComponent (str "King" ++ str "%27s") = Some (str "King's").
Proof.
  assert (forallb (λ c, negb (c =? 37)%N) (str "King") = true) as Hw by reflexivity.
  split; [exact Hw|].
  exact (proj2 (proj2 (decodeURIComponent_plain (str "King") (str "%27s")
                         (str "s") 39 Hw)) eq_refl eq_refl).
Defined.

(** ** The festival resource *)

Section Festival.
Context `{Engine}.

Lemma findFestival_found calendar key e :
  findFestival calendar key = Some e ↔
  ∃ before after,
    calendar = before ++ e :: after ∧ matchesKey key e
    ∧ ∀ f, In f before → ¬ matchesKey key f.
Proof.
  unfold findFestival, matchesKey. induction calendar as [|f cal IH]; simpl.
  - split; [done|]. intros (before & after & Heq & _). by destruct before.
  - destruct (name f) as [n|] eqn:Hn.
    + case_bool_decide as Hk.
      * split.
        -- intros [= <-]. exists [], cal. split_and!; [done|eauto|by intros ? []].
        -- intros ([|f' before] & after & Heq & Hm & Hnone).
           ++ by injection Heq as <- _.
           ++ injection Heq as <- _. destruct (Hnone f); [by left|eauto].
      * rewrite IH. split.
        -- intros (before & after & -> & Hm & Hnone).
           exists (f :: before), after. split_and!; [done|done|].
           intros f' [<-|Hin]; [|by apply Hnone].
           intros (n' & Hn' & Hk'). congruence.
        -- intros ([|f' before] & after & Heq & Hm & Hnone).
           ++ injection Heq as <- _. destruct Hm as (n' & Hn' & Hk'). congruence.
           ++ injection Heq as <- ->. exists before, after.
              split_and!; [done|done|]. intros ? ?. apply Hnone. by right.
    + rewrite IH. split.
      * intros (before & after & -> & Hm & Hnone).
        exists (f :: before), after. split_and!; [done|done|].
        intros f' [<-|Hin]; [|by apply Hnone].
        intros (n' & Hn' & _). congruence.
      * intros ([|f' before] & after & Heq & Hm & Hnone).
        -- injection Heq as <- _. destruct Hm as (n' & Hn' & _). congruence.
        -- injection Heq as <- ->. exists before, after.
           split_and!; [done|done|]. intros ? ?. apply Hnone. by right.
Qed.

Lemma findFestival_none calendar key :
  findFestival calendar key = None ↔ ∀ f, In f calendar → ¬ matchesKey key f.
Proof.
  split.
  - intros Hnone f Hin (n & Hn & Hk).
    eapply find_none in Hnone; [|done]. simpl in Hnone. rewrite Hn in Hnone.
    by apply bool_decide_eq_false in Hnone.
  - intros Hall. destruct (findFestival calendar key) as [e|] eqn:He; [|done].
    apply findFestival_found in He as (before & after & -> & Hm & _).
    destruct (Hall e); [|done]. apply in_or_app. right. by left.
Qed.

End Festival.

(** X8: the festival resource answers with the first entry of the
    calendar whose trimmed, lower-cased name equals the trimmed,
    lower-cased request, giving its name and date as stored; when no
    entry answers to the request, and only then, it reports the request
    as not found, echoing the decoded text. *)
Theorem festivalDate_lookup `{Engine} (calendar : list festival_entry)
        (href : jsstring) (festival : variable) (raw : jsstring) :
  festivalRaw festival = Some raw →
  (∃ before e after,
     calendar = before ++ e :: after
     ∧ matchesKey (festivalKey raw) e
     ∧ (∀ f, In f before → ¬ matchesKey (festivalKey raw) f)
     ∧ festivalDate calendar href festival
       = Some [ResourceContent href (entryText e) (str "application/json")])
  ∨ ((∀ f, In f calendar → ¬ matchesKey (festivalKey raw) f)
     ∧ festivalDate calendar href festival
       = Some [ResourceContent href (notFoundText raw) (str "application/json")]).
Proof.
  intros Hraw. unfold festivalDate. rewrite Hraw. cbn [mbind option_bind fmap option_fmap option_map].
  destruct (findFestival calendar (festivalKey raw)) as [e|] eqn:He.
  - left. apply findFestival_found in He as (before & after & -> & Hm & Hnone).
    exists before, e, after. done.
  - right. split; [|done]. by apply findFestival_none.
Qed.

Lemma festivalDate_lookup_witness :
  festivalRaw (VarString (str "%20king%27s%20BIRTHDAY")) = Some (str " king's BIRTHDAY")
  ∧ @festivalDate rolloverEngine
      [Festival (Some (str "Christmas")) (str "2025-12-25");
       Festival None (str "2025-01-01");
       Festival (Some (str "King's Birthday ")) (str "2025-06-09")]
      (str "calendar://festival/x/date") (VarString (str "%20king%27s%20BIRTHDAY"))
    = Some [ResourceContent (str "calendar://festival/x/date")
              (entryText (Festival (Some (str "King's Birthday ")) (str "2025-06-09")))
              (str "application/json")].
Proof.
  assert (festivalRaw (VarString (str "%20king%27s%20BIRTHDAY"))
          = Some (str " king's BIRTHDAY")) as Hraw by (by vm_compute).
  split; [exact Hraw|].
  destruct (@festivalDate_lookup rolloverEngine
              [Festival (Some (str "Christmas")) (str "2025-12-25");
               Festival None (str "2025-01-01");
               Festival (Some (str "King's Birthday ")) (str "2025-06-09")]
              (str "calendar://festival/x/date") _ _ Hraw)
    as [(before & e & after & Hcal & Hm & Hnone & Hres)|[Hnone Hres]].
  - rewrite Hres. do 3 f_equal.
    destruct before as [|f1 [|f2 [|f3 before]]]; cbn [app] in Hcal;
      simplify_eq; try done.
    all: try by destruct before.
    all: destruct Hm as (n & Hn & Hk); cbn [name] in Hn; simplify_eq.
  - exfalso. apply (Hnone (Festival (Some (str "King's Birthday ")) (str "2025-06-09"))).
    + right. right. by left.
    + eexists. split; [done|]. by vm_compute.
Defined.

(** X9: the festival resource fails with a URIError, instead of
    answering "not found", exactly when the request is non-empty and
    cannot be percent-decoded; a percent sign that is not followed by
    two hexadecimal digits is enough for that. *)
Theorem festivalDate_rejects `{Engine} (calendar : list festival_entry)
        (href : jsstring) (festival : variable) :
  (festivalDate calendar href festival = None
   ↔ variableTruthy festival = true
     ∧ decodeURIComponent (variableText festival) = None)
  ∧ ∀ w s, forallb (λ c, negb (c =? 37)%N) w = true →
           parseHexOctet (37%N :: s) = None →
           festivalDate calendar href (VarString (w ++ 37%N :: s)) = None.
Proof.
  assert (Hiff : ∀ v, festivalDate calendar href v = None
                      ↔ variableTruthy v = true
                        ∧ decodeURIComponent (variableText v) = None).
  { intros v. unfold festivalDate, festivalRaw.
    destruct (variableTruthy v).
    - destruct (decodeURIComponent _) as [raw|]; cbn [mbind option_bind fmap option_fmap option_map].
      + destruct (findFestival _ _); (split; [done|by intros [_ ?]]).
      + done.
    - cbn [mbind option_bind fmap option_fmap option_map]. destruct (findFestival _ _); (split; [done|by intros [? _]]). }
  split; [apply Hiff|].
  intros w s Hw Hs. apply Hiff. split.
  - by destruct w.
  - cbn [variableText]. rewrite decodeURIComponent_app by done.
    by rewrite decodeURIComponent_stray.
Qed.

Lemma festivalDate_rejects_witness :
  forallb (λ c, negb (c =? 37)%N) (str "100") = true
  ∧ parseHexOctet (37%N :: str " off") = None
  ∧ @festivalDate rolloverEngine [] (str "u") (VarString (str "100% off")) = None.
Proof.
  assert (forallb (λ c, negb (c =? 37)%N) (str "100") = true) as Hw by reflexivity.
  assert (parseHexOctet (37%N :: str " off") = None) as Hs by reflexivity.
  split; [exact Hw|]. split; [exact Hs|].
  exact (proj2 (@festivalDate_rejects rolloverEngine [] (str "u") VarMissing)
           (str "100") (str " off") Hw Hs).
Defined.

(** ** Letter case *)

Lemma isWhiteSpace_lower c : isWhiteSpace (asciiLower c) = isWhiteSpace c.
Proof.
  unfold asciiLower. destruct ((65 <=? c)%N && (c <=? 90)%N) eqn:Hc; [|done].
  assert (isWhiteSpace c = false) as -> by (unfold isWhiteSpace; nbool).
  unfold isWhiteSpace. nbool.
Qed.

Lemma asciiLower_idempotent c : asciiLower (asciiLower c) = asciiLower c.
Proof.
  unfold asciiLower. destruct ((65 <=? c)%N && (c <=? 90)%N) eqn:Hc; [|by rewrite Hc].
  assert (((65 <=? c + 32)%N && (c + 32 <=? 90)%N) = false) as -> by nbool. done.
Qed.

Lemma asciiLower_ascii c : isAscii (asciiLower c) = isAscii c.
Proof.
  unfold asciiLower, isAscii.
  destruct ((65 <=? c)%N && (c <=? 90)%N) eqn:Hc; [|done].
  assert ((c <? 128)%N = true) as -> by nbool. nbool.
Qed.

Lemma trimStart_lower s :
  trimStart (List.map asciiLower s) = List.map asciiLower (trimStart s).
Proof.
  induction s as [|c s IH]; [done|]. simpl.
  rewrite isWhiteSpace_lower. by destruct (isWhiteSpace c).
Qed.

Lemma trim_lower s : trim (List.map asciiLower s) = List.map asciiLower (trim s).
Proof.
  unfold trim, trimEnd.
  by rewrite trimStart_lower, <- map_rev, trimStart_lower, map_rev.
Qed.

Lemma forallb_map_lower_ascii s :
  forallb isAscii (List.map asciiLower s) = forallb isAscii s.
Proof.
  induction s as [|c s IH]; [done|]. simpl. by rewrite asciiLower_ascii, IH.
Qed.

Lemma space_not_percent w :
  forallb isWhiteSpace w = true → forallb (λ c, negb (c =? 37)%N) w = true.
Proof.
  rewrite !forallb_forall. intros Hw c Hc. specialize (Hw c Hc).
  unfold isWhiteSpace in Hw. nbool.
Qed.

Section Keys.
Context `{Engine}.

(** The key of ASCII text: its trimmed text in lower case. *)
Lemma festivalKey_ascii s :
  forallb isAscii s = true → festivalKey s = List.map asciiLower (trim s).
Proof.
  intros Hs. unfold festivalKey. apply toLowerCase_ascii. by apply forallb_trim.
Qed.

Lemma festivalKey_padding w1 s w2 :
  forallb isWhiteSpace w1 = true → forallb isWhiteSpace w2 = true →
  festivalKey (w1 ++ s ++ w2) = festivalKey s.
Proof. intros H1 H2. unfold festivalKey. by rewrite trim_padding. Qed.

Lemma festivalKey_case s1 s2 :
  forallb isAscii s1 = true → forallb isAscii s2 = true →
  List.map asciiLower s1 = List.map asciiLower s2 →
  festivalKey s1 = festivalKey s2.
Proof.
  intros H1 H2 Heq. rewrite !festivalKey_ascii by done.
  by rewrite <- !trim_lower, Heq.
Qed.

End Keys.

(** X10: for requests in ASCII the festival resource does not mind
    letter case or white space around the name: an ASCII request
    without escapes that differs from another only in the case of its
    letters and in surrounding white space is looked up under the same
    key, and when an entry answers to it the two responses are the
    same. *)
Theorem festivalDate_insensitive `{Engine} (calendar : list festival_entry)
        (href s1 s2 w1 w2 : jsstring) :
  forallb isAscii s1 = true → forallb isAscii s2 = true →
  forallb (λ c, negb (c =? 37)%N) s1 = true →
  forallb (λ c, negb (c =? 37)%N) s2 = true →
  forallb isWhiteSpace w1 = true → forallb isWhiteSpace w2 = true →
  s1 ≠ [] → List.map asciiLower s1 = List.map asciiLower s2 →
  festivalKey (w1 ++ s2 ++ w2) = festivalKey s1
  ∧ (is_Some (findFestival calendar (festivalKey s1)) →
     festivalDate calendar href (VarString (w1 ++ s2 ++ w2))
     = festivalDate calendar href (VarString s1)).
Proof.
  intros Ha1 Ha2 Hp1 Hp2 Hw1 Hw2 Hne Heq.
  assert (festivalKey (w1 ++ s2 ++ w2) = festivalKey s1) as Hkey.
  { rewrite festivalKey_padding by done. symmetry. by apply festivalKey_case. }
  split; [done|]. intros [e He].
  assert (s2 ≠ []) as Hne2 by (intros ->; by destruct s1).
  assert (festivalRaw (VarString s1) = Some s1) as Hr1.
  { unfold festivalRaw. destruct s1; [done|]. cbn [variableTruthy variableText].
    rewrite <- (app_nil_r (_ :: _)) at 1.
    rewrite decodeURIComponent_app, decodeURIComponent_nil by done.
    cbn [mbind option_bind fmap option_fmap option_map]. by rewrite app_nil_r. }
  assert (festivalRaw (VarString (w1 ++ s2 ++ w2)) = Some (w1 ++ s2 ++ w2)) as Hr2.
  { unfold festivalRaw.
    assert (variableTruthy (VarString (w1 ++ s2 ++ w2)) = true) as ->.
    { destruct w1; [destruct s2; [done|]|]; done. }
    cbn [variableText].
    rewrite <- (app_nil_r (w1 ++ s2 ++ w2)) at 1.
    rewrite decodeURIComponent_app;
      [rewrite decodeURIComponent_nil; cbn [mbind option_bind fmap option_fmap option_map]; by rewrite app_nil_r|].
    rewrite !forallb_app.
    apply andb_true_intro; split; [exact (space_not_percent _ Hw1)|].
    apply andb_true_intro; split; [exact Hp2|exact (space_not_percent _ Hw2)]. }
  unfold festivalDate. rewrite Hr1, Hr2. cbn [mbind option_bind fmap option_fmap option_map]. by rewrite Hkey, He.
Qed.

Lemma festivalDate_insensitive_witness :
  festivalKey (H := rolloverEngine) (str " " ++ str "CHRISTMAS" ++ str "  ")
  = festivalKey (H := rolloverEngine) (str "Christmas")
  ∧ @festivalDate rolloverEngine
      [Festival (Some (str "Christmas")) (str "2025-12-25")] (str "u")
      (VarString (str " " ++ str "CHRISTMAS" ++ str "  "))
    = @festivalDate rolloverEngine
        [Festival (Some (str "Christmas")) (str "2025-12-25")] (str "u")
        (VarString (str "Christmas")).
Proof.
  destruct (@festivalDate_insensitive rolloverEngine
              [Festival (Some (str "Christmas")) (str "2025-12-25")] (str "u")
              (str "Christmas") (str "CHRISTMAS") (str " ") (str "  ")
              eq_refl eq_refl eq_refl eq_refl eq_refl eq_refl
              ltac:(done) eq_refl) as [Hkey Hsame].
  split; [exact Hkey|]. apply Hsame. eexists. by vm_compute.
Defined.

Lemma asciiLower_fixed c :
  isDigit (asciiLower c) || isSeparator (asciiLower c) = true → asciiLower c = c.
Proof.
  unfold asciiLower. destruct ((65 <=? c)%N && (c <=? 90)%N) eqn:Hc; [|done].
  unfold isDigit, isSeparator. intros Hd. nbool.
Qed.

Lemma NumericDate_units s y m d :
  NumericDate s y m d → forallb (λ c, isDigit c || isSeparator c) s = true.
Proof.
  intros (c1 & c2 & -> & [Hy _] & Hc1 & [Hm _] & Hc2 & [Hd _]).
  assert (Hdig : ∀ w, forallb isDigit w = true →
                      forallb (λ c, isDigit c || isSeparator c) w = true).
  { intros w. rewrite !forallb_forall. intros Hw c Hc. by rewrite Hw. }
  rewrite forallb_app. cbn [forallb]. rewrite forallb_app. cbn [forallb].
  by rewrite !Hdig, Hc1, Hc2, !orb_true_r.
Qed.

Lemma map_lower_fixed s :
  forallb (λ c, isDigit c || isSeparator c) (List.map asciiLower s) = true →
  List.map asciiLower s = s.
Proof.
  induction s as [|c s IH]; [done|]. simpl.
  intros [Hc Hs]%andb_true_iff. by rewrite asciiLower_fixed, IH.
Qed.

Lemma numericBranch_lower s :
  numericBranch (List.map asciiLower s) = numericBranch s.
Proof.
  destruct (numericBranch (List.map asciiLower s)) as [r|] eqn:Hl.
  - pose proof Hl as (y & m & d & Hnum & _)%numericBranch_spec.
    apply NumericDate_units, map_lower_fixed in Hnum. by rewrite <- Hl, Hnum.
  - destruct (numericBranch s) as [r|] eqn:Hs; [|done].
    pose proof Hs as (y & m & d & Hnum & _)%numericBranch_spec.
    assert (List.map asciiLower s = s) as Heq; [|by rewrite Heq, Hs in Hl].
    apply NumericDate_plain in Hnum.
    clear -Hnum. induction s as [|c s IH]; [done|]. simpl in *.
    apply andb_true_iff in Hnum as [Hc Hs]. unfold isPlain in Hc.
    apply andb_true_iff in Hc as [Hc _]. apply andb_true_iff in Hc as [_ Hc].
    apply N.eqb_eq in Hc. by rewrite Hc, IH.
Qed.

(** X11: the case of ASCII letters makes no difference to
    [normaliseDate]. *)
Theorem normaliseDate_case `{Engine} (raw : jsstring) :
  forallb isAscii raw = true →
  normaliseDate (VString (List.map asciiLower raw)) = normaliseDate (VString raw).
Proof.
  intros Hraw. rewrite !normaliseDate_string_all, trim_lower, numericBranch_lower.
  destruct (numericBranch (trim raw)); [done|]. f_equal.
  unfold monthNameBranches.
  assert (forallb isAscii (trim raw) = true) as Ht by by apply forallb_trim.
  rewrite !toLowerCase_ascii by (by rewrite ?forallb_map_lower_ascii).
  rewrite List.map_map.
  by rewrite (map_ext _ asciiLower) by apply asciiLower_idempotent.
Qed.

Lemma normaliseDate_case_witness :
  forallb isAscii (str "1 JUNE 2025") = true
  ∧ @normaliseDate rolloverEngine (VString (List.map asciiLower (str "1 JUNE 2025")))
    = @normaliseDate rolloverEngine (VString (str "1 JUNE 2025")).
Proof.
  assert (forallb isAscii (str "1 JUNE 2025") = true) as Ha by reflexivity.
  split; [exact Ha|].
  exact (@normaliseDate_case rolloverEngine _ Ha).
Defined.

(** ** JSON text *)

Lemma hexDigit_ordinary d : (d < 16)%N → isOrdinary (hexDigit d) = true.
Proof.
  intros Hd. unfold isOrdinary, isHighSurrogate, isLowSurrogate, hexDigit.
  destruct (d <? 10)%N eqn:E; nbool.
Qed.

Lemma unicodeEscape_ordinary c :
  (c < 65536)%N → forallb isOrdinary (unicodeEscape c) = true.
Proof.
  intros Hc. unfold unicodeEscape. cbn [str List.map list_ascii_of_string app forallb].
  rewrite !hexDigit_ordinary; [done|..].
  - apply N.mod_lt. done.
  - apply N.mod_lt. done.
  - apply N.mod_lt. done.
  - apply N.Div0.div_lt_upper_bound. lia.
Qed.

Lemma quoteUnit_ordinary c : forallb isOrdinary (quoteUnit c) = true.
Proof.
  unfold quoteUnit.
  repeat (match goal with |- context [if (?a =? ?b)%N then _ else _] =>
            destruct (a =? b)%N eqn:?; [done|] end).
  destruct ((c <? 32)%N || isHighSurrogate c || isLowSurrogate c) eqn:He.
  - apply unicodeEscape_ordinary.
    unfold isHighSurrogate, isLowSurrogate in *. nbool.
  - cbn [forallb]. unfold isOrdinary.
    apply orb_false_iff in He as [He Hl]. apply orb_false_iff in He as [He Hh].
    rewrite Hh, Hl. nbool.
Qed.

Lemma ordinary_wellFormed a b :
  forallb isOrdinary a = true →
  wellFormedUTF16 (a ++ b) = wellFormedUTF16 b ∧ noC0Controls (a ++ b) = noC0Controls b.
Proof.
  induction a as [|c a IH]; [done|]. simpl.
  intros [Hc Ha]%andb_true_iff. destruct (IH Ha) as [-> Hn].
  unfold noC0Controls in *. cbn [forallb]. rewrite Hn.
  unfold isOrdinary in Hc.
  apply andb_true_iff in Hc as [Hc Hl]. apply andb_true_iff in Hc as [Hc Hh].
  apply negb_true_iff in Hh, Hl. by rewrite Hh, Hl, Hc.
Qed.

Lemma ordinary_safe a b :
  forallb isOrdinary a = true →
  wellFormedUTF16 b = true ∧ noC0Controls b = true →
  wellFormedUTF16 (a ++ b) = true ∧ noC0Controls (a ++ b) = true.
Proof. intros Ha Hb. by destruct (ordinary_wellFormed a b Ha) as [-> ->]. Qed.

Lemma quoteBody_safe_app s b :
  wellFormedUTF16 b = true ∧ noC0Controls b = true →
  wellFormedUTF16 (quoteBody s ++ b) = true ∧ noC0Controls (quoteBody s ++ b) = true.
Proof.
  remember (length s) as n eqn:Hn. revert s Hn.
  induction n as [n IH] using lt_wf_ind. intros s Hn Hb.
  destruct s as [|c s]; [done|]. cbn [quoteBody].
  destruct (isHighSurrogate c) eqn:Hh.
  - destruct s as [|d s].
    + by apply ordinary_safe; [apply quoteUnit_ordinary|].
    + destruct (isLowSurrogate d) eqn:Hl.
      * destruct (IH (length s) ltac:(simpl in Hn; lia) s eq_refl Hb) as [Hw Hc].
        cbn [app wellFormedUTF16]. rewrite Hh, Hl, Hw.
        unfold noC0Controls in *. cbn [forallb]. rewrite Hc.
        unfold isHighSurrogate, isLowSurrogate in *. split; [done|nbool].
      * rewrite <- app_assoc.
        apply ordinary_safe; [apply quoteUnit_ordinary|].
        by apply (IH (length (d :: s)) ltac:(simpl in Hn |- *; lia) (d :: s)).
  - rewrite <- app_assoc. apply ordinary_safe; [apply quoteUnit_ordinary|].
    by apply (IH (length s) ltac:(simpl in Hn; lia) s).
Qed.

Lemma QuoteJSONString_safe_app s b :
  wellFormedUTF16 b = true ∧ noC0Controls b = true →
  wellFormedUTF16 (QuoteJSONString s ++ b) = true
  ∧ noC0Controls (QuoteJSONString s ++ b) = true.
Proof.
  intros Hb. unfold QuoteJSONString. rewrite <- !app_assoc.
  apply (ordinary_safe [34%N]); [done|].
  apply quoteBody_safe_app. by apply (ordinary_safe [34%N]).
Qed.

(** X12: whatever the request and the calendar hold, the festival
    resource, when it answers, sends one content with the URI of the
    request and the JSON media type, and its text has no code unit
    below U+0020 and no surrogate outside a pair.  The other control
    characters are not escaped: a request for [%7F] is answered with
    U+007F in the text. *)
Theorem festivalDate_text_safe `{Engine} (calendar : list festival_entry)
        (href : jsstring) (festival : variable) (contents : list resource_content) :
  festivalDate calendar href festival = Some contents →
  Forall (λ c, wellFormedUTF16 (text c) = true ∧ noC0Controls (text c) = true
               ∧ mimeType c = str "application/json" ∧ uri c = href) contents
  ∧ length contents = 1%nat.
Proof.
  unfold festivalDate. destruct (festivalRaw festival) as [raw|]; [cbn [mbind option_bind fmap option_fmap option_map]|done].
  destruct (findFestival _ _) as [e|]; intros [= <-]; (split; [|done]);
    constructor; try done; cbn [text mimeType uri]; split_and!; try done.
  - unfold entryText. destruct (name e) as [n|].
    + refine (proj1 (ordinary_safe (str "{") _ eq_refl _)).
      do 3 (apply QuoteJSONString_safe_app; apply ordinary_safe; [done|]).
      by apply QuoteJSONString_safe_app.
    + refine (proj1 (ordinary_safe (str "{") _ eq_refl _)).
      apply QuoteJSONString_safe_app; apply ordinary_safe; [done|].
      by apply QuoteJSONString_safe_app.
  - unfold entryText. destruct (name e) as [n|].
    + refine (proj2 (ordinary_safe (str "{") _ eq_refl _)).
      do 3 (apply QuoteJSONString_safe_app; apply ordinary_safe; [done|]).
      by apply QuoteJSONString_safe_app.
    + refine (proj2 (ordinary_safe (str "{") _ eq_refl _)).
      apply QuoteJSONString_safe_app; apply ordinary_safe; [done|].
      by apply QuoteJSONString_safe_app.
  - unfold notFoundText. refine (proj1 (ordinary_safe (str "{") _ eq_refl _)).
    apply QuoteJSONString_safe_app; apply ordinary_safe; [done|].
    by apply QuoteJSONString_safe_app.
  - unfold notFoundText. refine (proj2 (ordinary_safe (str "{") _ eq_refl _)).
    apply QuoteJSONString_safe_app; apply ordinary_safe; [done|].
    by apply QuoteJSONString_safe_app.
Qed.

Lemma festivalDate_text_safe_witness :
  @festivalDate rolloverEngine [] (str "u") (VarString [10%N; 55357%N])
  = Some [ResourceContent (str "u") (notFoundText [10%N; 55357%N])
            (str "application/json")]
  ∧ wellFormedUTF16 (notFoundText [10%N; 55357%N]) = true
  ∧ noC0Controls (notFoundText [10%N; 55357%N]) = true.
Proof.
  assert (@festivalDate rolloverEngine [] (str "u") (VarString [10%N; 55357%N])
          = Some [ResourceContent (str "u") (notFoundText [10%N; 55357%N])
                    (str "application/json")]) as Hres by (by vm_compute).
  split; [exact Hres|].
  pose proof (proj1 (@festivalDate_text_safe rolloverEngine _ _ _ _ Hres)) as Hall.
  apply Forall_inv in Hall. exact (conj (proj1 Hall) (proj1 (proj2 Hall))).
Defined.

Example festivalDate_text_DEL :
  @festivalDate rolloverEngine [] (str "u") (VarString (str "%7F"))
  = Some [ResourceContent (str "u") (notFoundText [127%N]) (str "application/json")]
  ∧ existsb (N.eqb 127) (notFoundText [127%N]) = true.
Proof. split; by vm_compute. Qed.


Lemma hexValue_hexDigit d : (d < 16)%N → hexValue (hexDigit d) = Some d.
Proof.
  intros Hd. destruct d as [|p]; [done|].
  do 4 (destruct p as [p|p|]; try done); lia.
Qed.

Lemma parseChars_plain c t :
  (c =? 34)%N = false → (c =? 92)%N = false → (c <? 32)%N = false →
  parseChars (c :: t) = prepend c (parseChars t).
Proof. intros H1 H2 H3. cbn [parseChars]. by rewrite H1, H2, H3. Qed.

Lemma parseChars_unicodeEscape c t :
  (c < 65536)%N → parseChars (unicodeEscape c ++ t) = prepend c (parseChars t).
Proof.
  intros Hc. unfold unicodeEscape. rewrite <- app_assoc.
  set (h1 := (c / 4096)%N). set (h2 := (c / 256 mod 16)%N).
  set (h3 := (c / 16 mod 16)%N). set (h4 := (c mod 16)%N).
  change (parseChars (str "\u" ++ [hexDigit h1; hexDigit h2; hexDigit h3; hexDigit h4] ++ t))
    with (match hexValue (hexDigit h1), hexValue (hexDigit h2),
                hexValue (hexDigit h3), hexValue (hexDigit h4) with
          | Some a, Some b, Some c', Some d =>
              prepend (4096 * a + 256 * b + 16 * c' + d)%N (parseChars t)
          | _, _, _, _ => None
          end).
  rewrite !hexValue_hexDigit
    by (subst h1 h2 h3 h4; zify; Z.to_euclidean_division_equations; lia).
  f_equal. subst h1 h2 h3 h4. zify. Z.to_euclidean_division_equations. lia.
Qed.

Lemma parseChars_quoteUnit c t :
  parseChars (quoteUnit c ++ t) = prepend c (parseChars t).
Proof.
  unfold quoteUnit.
  destruct (N.eqb_spec c 8) as [->|?]; [done|].
  destruct (N.eqb_spec c 9) as [->|?]; [done|].
  destruct (N.eqb_spec c 10) as [->|?]; [done|].
  destruct (N.eqb_spec c 12) as [->|?]; [done|].
  destruct (N.eqb_spec c 13) as [->|?]; [done|].
  destruct (N.eqb_spec c 34) as [->|?]; [done|].
  destruct (N.eqb_spec c 92) as [->|?]; [done|].
  destruct ((c <? 32)%N || isHighSurrogate c || isLowSurrogate c) eqn:He.
  - apply parseChars_unicodeEscape.
    unfold isHighSurrogate, isLowSurrogate in He. nbool.
  - apply orb_false_elim in He as [He _]. apply orb_false_elim in He as [He _].
    apply parseChars_plain; [by apply N.eqb_neq..|done].
Qed.

(** Reading back what [quoteBody] wrote gives the same code units, up
    to the closing quote. *)
Lemma parseChars_quoteBody s rest :
  parseChars (quoteBody s ++ 34%N :: rest) = Some (s, rest).
Proof.
  remember (length s) as n eqn:Hn. revert s Hn.
  induction n as [n IH] using lt_wf_ind. intros s Hn.
  destruct s as [|c s]; [done|]. cbn [quoteBody].
  destruct (isHighSurrogate c) eqn:Hh.
  - destruct s as [|d s].
    + by rewrite parseChars_quoteUnit.
    + destruct (isLowSurrogate d) eqn:Hl.
      * cbn [app]. unfold isHighSurrogate, isLowSurrogate in Hh, Hl.
        rewrite !parseChars_plain by nbool.
        by rewrite (IH (length s) ltac:(simpl in Hn; lia) s eq_refl).
      * rewrite <- app_assoc, parseChars_quoteUnit.
        by rewrite (IH (length (d :: s)) ltac:(simpl in Hn |- *; lia) (d :: s) eq_refl).
  - rewrite <- app_assoc, parseChars_quoteUnit.
    by rewrite (IH (length s) ltac:(simpl in Hn; lia) s eq_refl).
Qed.

Lemma parseString_quote k r :
  parseString (skipWhiteSpace (QuoteJSONString k ++ r)) = Some (k, r).
Proof.
  unfold QuoteJSONString. rewrite <- !app_assoc.
  exact (parseChars_quoteBody k r).
Qed.

Lemma parseValue_quote fuel s r :
  parseValue (S fuel) (QuoteJSONString s ++ r) = Some (JString s, r).
Proof.
  unfold QuoteJSONString. rewrite <- !app_assoc.
  change (parseValue (S fuel) ([34%N] ++ quoteBody s ++ [34%N] ++ r))
    with (match parseChars (quoteBody s ++ 34%N :: r) with
          | Some (w, r') => Some (JString w, r')
          | None => None
          end).
  by rewrite parseChars_quoteBody.
Qed.

Lemma parseValue_null fuel r :
  parseValue (S fuel) (str "null" ++ r) = Some (JNull, r).
Proof. done. Qed.

Lemma parseValue_members fuel k r :
  parseValue (S fuel) (str "{" ++ QuoteJSONString k ++ r)
  = parseMembers fuel (QuoteJSONString k ++ r) [].
Proof. done. Qed.

(** A member [k : v] of an object, followed by a comma or by the
    closing brace. *)
Lemma parseMembers_comma fuel k v s r1 r2 acc :
  parseValue fuel r1 = Some (v, str "," ++ r2) →
  s = QuoteJSONString k ++ str ":" ++ r1 →
  parseMembers (S fuel) s acc = parseMembers fuel r2 (acc ++ [(k, v)]).
Proof.
  intros Hv ->. cbn [parseMembers]. rewrite parseString_quote.
  change (skipWhiteSpace (str ":" ++ r1)) with (58%N :: r1).
  change (58 =? 58)%N with true. cbv iota. by rewrite Hv.
Qed.

Lemma parseMembers_brace fuel k v s r1 r2 acc :
  parseValue fuel r1 = Some (v, str "}" ++ r2) →
  s = QuoteJSONString k ++ str ":" ++ r1 →
  parseMembers (S fuel) s acc = Some (JObject (acc ++ [(k, v)]), r2).
Proof.
  intros Hv ->. cbn [parseMembers]. rewrite parseString_quote.
  change (skipWhiteSpace (str ":" ++ r1)) with (58%N :: r1).
  change (58 =? 58)%N with true. cbv iota. by rewrite Hv.
Qed.

Lemma QuoteJSONString_length s : (2 <= length (QuoteJSONString s))%nat.
Proof. unfold QuoteJSONString. rewrite !length_app. simpl. lia. Qed.

Lemma parseValue_entry f e n :
  name e = Some n →
  parseValue (S (S (S (S f)))) (entryText e)
  = Some (JObject [(str "name", JString n); (str "date", JString (date e))], []).
Proof.
  intros Hn. unfold entryText. rewrite Hn.
  rewrite parseValue_members.
  erewrite parseMembers_comma; [|apply parseValue_quote|reflexivity].
  erewrite parseMembers_brace; [|apply parseValue_quote|reflexivity].
  done.
Qed.

Lemma JSONparse_entry e n :
  name e = Some n →
  JSONparse (entryText e)
  = Some (JObject [(str "name", JString n); (str "date", JString (date e))]).
Proof.
  intros Hn. unfold JSONparse.
  destruct (length (entryText e)) as [|[|[|f]]] eqn:Hlen.
  1-3: unfold entryText in Hlen; rewrite Hn, !length_app in Hlen;
       pose proof (QuoteJSONString_length n); simpl in Hlen; lia.
  by rewrite (parseValue_entry f e n Hn).
Qed.

Lemma JSONparse_notFound raw :
  JSONparse (notFoundText raw)
  = Some (JObject [(str "error", JString (str "Festival not found: " ++ raw))]).
Proof.
  unfold JSONparse.
  destruct (length (notFoundText raw)) as [|[|f]] eqn:Hlen.
  1-2: unfold notFoundText in Hlen; rewrite !length_app in Hlen;
       pose proof (QuoteJSONString_length (str "error")); simpl in Hlen; lia.
  unfold notFoundText. rewrite parseValue_members.
  erewrite parseMembers_brace; [|apply parseValue_quote|reflexivity].
  done.
Qed.

(** X14: the user message of the prompt get-duration is JSON from
    which the query is read back unchanged, whatever characters it
    holds; a known duration is read back as it was given, and an empty
    one is sent as null, exactly like a missing one. *)
Theorem durationInput_read (query : jsstring) (known : option jsstring) :
  JSONparse (durationInput query known)
  = Some (JObject [(str "query", JString query);
                   (str "knownDuration",
                    match known with
                    | Some ((_ :: _) as k) => JString k
                    | _ => JNull
                    end)]).
Proof.
  unfold JSONparse.
  destruct (length (durationInput query known)) as [|[|[|f]]] eqn:Hlen.
  1-3: unfold durationInput in Hlen; rewrite !length_app in Hlen;
       pose proof (QuoteJSONString_length query); simpl in Hlen; lia.
  unfold durationInput. rewrite parseValue_members.
  erewrite parseMembers_comma; [|apply parseValue_quote|reflexivity].
  destruct known as [[|c k]|].
  - erewrite parseMembers_brace; [|apply parseValue_null|reflexivity]. done.
  - erewrite parseMembers_brace; [|apply parseValue_quote|reflexivity]. done.
  - erewrite parseMembers_brace; [|apply parseValue_null|reflexivity]. done.
Qed.

(** X13: what the festival resource sends is what the client reads: for
    a request that can be decoded the handler answers, and the client
    takes from the answer exactly the name and the date of the first
    entry that matched, whatever characters they hold; when no entry
    matched, the name and the date it prints are both undefined. *)
Theorem festival_answer_read `{Engine} (calendar : list festival_entry)
        (href : jsstring) (festival : variable) (raw : jsstring) :
  festivalRaw festival = Some raw →
  ∃ contents,
    festivalDate calendar href festival = Some contents
    ∧ ((∃ e n, findFestival calendar (festivalKey raw) = Some e
               ∧ name e = Some n
               ∧ readFestivalAnswer contents
                 = FinalAnswer (Some (JString n)) (Some (JString (date e))))
       ∨ (findFestival calendar (festivalKey raw) = None
          ∧ readFestivalAnswer contents = FinalAnswer None None)).
Proof.
  intros Hraw. unfold festivalDate. rewrite Hraw.
  cbn [mbind option_bind fmap option_fmap option_map].
  destruct (findFestival calendar (festivalKey raw)) as [e|] eqn:He.
  - eexists. split; [done|]. left.
    pose proof He as Hfound.
    apply findFestival_found in Hfound as (_ & _ & _ & (n & Hn & _) & _).
    exists e, n. split_and!; [done..|].
    unfold readFestivalAnswer. cbn [text]. by rewrite (JSONparse_entry e n Hn).
  - eexists. split; [done|]. right. split; [done|].
    unfold readFestivalAnswer. cbn [text]. by rewrite JSONparse_notFound.
Qed.

Lemma festival_answer_read_witness :
  festivalRaw (VarString (str "king%27s%20birthday")) = Some (str "king's birthday")
  ∧ ∃ contents,
      @festivalDate rolloverEngine
        [Festival (Some (str "King's Birthday")) (str "2025-06-09")]
        (str "u") (VarString (str "king%27s%20birthday")) = Some contents
      ∧ ((∃ e n, @findFestival rolloverEngine
                   [Festival (Some (str "King's Birthday")) (str "2025-06-09")]
                   (@festivalKey rolloverEngine (str "king's birthday")) = Some e
                 ∧ name e = Some n
                 ∧ readFestivalAnswer contents
                   = FinalAnswer (Some (JString n)) (Some (JString (date e))))
         ∨ (@findFestival rolloverEngine
              [Festival (Some (str "King's Birthday")) (str "2025-06-09")]
              (@festivalKey rolloverEngine (str "king's birthday")) = None
            ∧ readFestivalAnswer contents = FinalAnswer None None)).
Proof.
  assert (festivalRaw (VarString (str "king%27s%20birthday"))
          = Some (str "king's birthday")) as Hraw by (by vm_compute).
  split; [exact Hraw|].
  exact (@festival_answer_read rolloverEngine
           [Festival (Some (str "King's Birthday")) (str "2025-06-09")]
           (str "u") _ _ Hraw).
Defined.

Lemma skipWhiteSpace_app ws s :
  forallb isJSONWhiteSpace ws = true →
  skipWhiteSpace (ws ++ s) = skipWhiteSpace s.
Proof.
  induction ws as [|c ws IH]; [done|]. cbn [forallb app skipWhiteSpace].
  intros [Hc Hws]%andb_prop. by rewrite Hc, IH.
Qed.

Lemma parseValue_ws fuel ws s :
  forallb isJSONWhiteSpace ws = true →
  parseValue fuel (ws ++ s) = parseValue fuel s.
Proof.
  intros Hws. destruct fuel; [done|]. cbn [parseValue].
  by rewrite skipWhiteSpace_app.
Qed.

Lemma parseMembers_step fuel s k r r1 v r2 d r3 acc :
  parseString (skipWhiteSpace s) = Some (k, r) →
  skipWhiteSpace r = 58%N :: r1 →
  parseValue fuel r1 = Some (v, r2) →
  skipWhiteSpace r2 = d :: r3 →
  parseMembers (S fuel) s acc
  = if (d =? 44)%N then parseMembers fuel r3 (acc ++ [(k, v)])
    else if (d =? 125)%N then Some (JObject (acc ++ [(k, v)]), r3)
    else None.
Proof.
  intros Hk Hr Hv Hd. cbn [parseMembers]. rewrite Hk, Hr.
  change (58 =? 58)%N with true. cbv iota. by rewrite Hv, Hd.
Qed.

Lemma parseElements_step fuel s v r d r' acc :
  parseValue fuel s = Some (v, r) →
  skipWhiteSpace r = d :: r' →
  parseElements (S fuel) s acc
  = if (d =? 44)%N then parseElements fuel r' (acc ++ [v])
    else if (d =? 93)%N then Some (JArray (acc ++ [v]), r')
    else None.
Proof. intros Hv Hd. cbn [parseElements]. by rewrite Hv, Hd. Qed.

Lemma parseMembers_quoted fuel ws k s ws' d r acc :
  forallb isJSONWhiteSpace ws = true →
  forallb isJSONWhiteSpace ws' = true →
  isJSONWhiteSpace d = false →
  parseMembers (S (S fuel)) (ws ++ QuoteJSONString k ++ str ": "
                             ++ QuoteJSONString s ++ ws' ++ d :: r) acc
  = if (d =? 44)%N then parseMembers (S fuel) r (acc ++ [(k, JString s)])
    else if (d =? 125)%N then Some (JObject (acc ++ [(k, JString s)]), r)
    else None.
Proof.
  intros Hws Hws' Hd.
  apply (parseMembers_step (S fuel) _ k
           (str ": " ++ QuoteJSONString s ++ ws' ++ d :: r)
           ([32%N] ++ QuoteJSONString s ++ ws' ++ d :: r)
           (JString s) (ws' ++ d :: r) d r acc).
  - rewrite skipWhiteSpace_app by done. apply parseString_quote.
  - done.
  - rewrite parseValue_ws by done. apply parseValue_quote.
  - rewrite skipWhiteSpace_app by done. cbn [skipWhiteSpace]. by rewrite Hd.
Qed.

Lemma parseValue_entryLines f ws e rest :
  forallb isJSONWhiteSpace ws = true →
  parseValue (S (S (S (S f)))) (ws ++ entryLines e ++ rest)
  = Some (entryJson e, rest).
Proof.
  intros Hws. rewrite parseValue_ws by done.
  unfold entryLines, entryJson. destruct (name e) as [n|]; rewrite <- !app_assoc.
  - etrans; [exact (parseMembers_quoted (S f) (lineBreak (str "    ")) (str "name") n
                      [] 44%N _ [] eq_refl eq_refl eq_refl)|].
    change (44 =? 44)%N with true. cbv iota.
    etrans; [exact (parseMembers_quoted f (lineBreak (str "    ")) (str "date") (date e)
                      (lineBreak (str "  ")) 125%N rest _ eq_refl eq_refl eq_refl)|].
    done.
  - etrans; [exact (parseMembers_quoted (S f) (lineBreak (str "    ")) (str "date")
                      (date e) (lineBreak (str "  ")) 125%N rest []
                      eq_refl eq_refl eq_refl)|].
    done.
Qed.

Lemma entryLines_head e : ∃ r, entryLines e = 123%N :: r.
Proof. unfold entryLines. destruct (name e); by eexists. Qed.

Lemma join_cons2 sep x y r :
  join sep (x :: y :: r) = x ++ sep ++ join sep (y :: r).
Proof. done. Qed.

Lemma join_entryLines_head sep e cal :
  ∃ r, join sep (List.map entryLines (e :: cal)) = 123%N :: r.
Proof.
  destruct (entryLines_head e) as [r Hr]. cbn [List.map].
  destruct cal as [|e' cal]; [by exists r|].
  cbn [List.map]. rewrite join_cons2, Hr. by eexists.
Qed.

Lemma join_entryLines_length sep cal :
  (length cal <= length (join sep (List.map entryLines cal)))%nat.
Proof.
  induction cal as [|e cal IH]; [done|].
  destruct cal as [|e' cal].
  - destruct (entryLines_head e) as [r Hr]. cbn [List.map join]. rewrite Hr.
    simpl. lia.
  - cbn [List.map]. rewrite join_cons2. cbn [List.map] in IH.
    destruct (entryLines_head e) as [r Hr]. rewrite Hr, !length_app.
    simpl in *. lia.
Qed.

Lemma parseElements_calendar cal :
  ∀ e acc fuel tail,
    (length (e :: cal) + 4 <= fuel)%nat →
    parseElements fuel
      (lineBreak (str "  ")
       ++ join (str "," ++ lineBreak (str "  ")) (List.map entryLines (e :: cal))
       ++ lineBreak [] ++ str "]" ++ tail) acc
    = Some (JArray (acc ++ List.map entryJson (e :: cal)), tail).
Proof.
  induction cal as [|e' cal IH]; intros e acc fuel tail Hfuel.
  - destruct fuel as [|[|[|[|[|f]]]]]; [simpl in Hfuel; lia..|].
    cbn [List.map join].
    etrans; [exact (parseElements_step _ _ (entryJson e)
                      (lineBreak [] ++ str "]" ++ tail) 93%N tail acc
                      (parseValue_entryLines f (lineBreak (str "  ")) e _ eq_refl)
                      eq_refl)|].
    done.
  - destruct fuel as [|[|[|[|[|f]]]]]; [simpl in Hfuel; lia..|].
    cbn [List.map]. rewrite join_cons2. cbn [List.map] in IH.
    rewrite <- !app_assoc.
    set (R := lineBreak (str "  ") ++ join _ (entryLines e' :: _) ++ _).
    etrans; [exact (parseElements_step _ _ (entryJson e) (str "," ++ R) 44%N R acc
                      (parseValue_entryLines f (lineBreak (str "  ")) e
                         (str "," ++ R) eq_refl)
                      eq_refl)|].
    change (44 =? 44)%N with true. cbv iota. subst R.
    rewrite (IH e' (acc ++ [entryJson e]) (S (S (S (S f)))) tail)
      by (simpl in Hfuel |- *; lia).
    by rewrite <- app_assoc.
Qed.

Lemma JSONparse_calendarText (calendar : list festival_entry) :
  JSONparse (calendarText calendar) = Some (JArray (List.map entryJson calendar)).
Proof.
  destruct calendar as [|e cal]; [done|].
  unfold JSONparse, calendarText.
  destruct (join_entryLines_head (str "," ++ lineBreak (str "  ")) e cal) as [r Hr].
  pose proof (join_entryLines_length (str "," ++ lineBreak (str "  ")) (e :: cal)) as Hlen.
  rewrite !length_app.
  remember (join _ _) as body eqn:Hbody.
  assert (∀ N, (length (e :: cal) + 4 <= N)%nat →
               parseValue (S N) (str "[" ++ lineBreak (str "  ") ++ body
                                 ++ lineBreak [] ++ str "]")
               = Some (JArray (List.map entryJson (e :: cal)), [])) as Hparse.
  { intros N HN.
    transitivity (parseElements N (lineBreak (str "  ") ++ body
                                   ++ lineBreak [] ++ str "]" ++ []) []).
    - rewrite Hr. reflexivity.
    - subst body. by apply parseElements_calendar. }
  rewrite Hparse; [done|]. simpl in Hlen |- *. lia.
Qed.

(** X15: the list resource answers with one text, which is JSON for an
    array with one object for every entry of the calendar, in the order
    of the calendar, whose name and date are those of the entry. *)
Theorem calendarList_read (calendar : list festival_entry) (href : jsstring) :
  ∃ t, calendarList calendar href
       = [ResourceContent href t (str "application/json")]
       ∧ JSONparse t = Some (JArray (List.map entryJson calendar)).
Proof. eexists. split; [done|]. apply JSONparse_calendarText. Qed.

(** X16: asked for the list by its own URI, the client takes the
    festival branch, and whatever the calendar holds, the name and the
    date it then prints are both undefined. *)
Theorem calendarList_as_festival (calendar : list festival_entry) (href : jsstring) :
  routeResource (Some (str "calendar://all-festivals"))
  = FestivalFetch (str "calendar://all-festivals")
  ∧ readFestivalAnswer (calendarList calendar href) = FinalAnswer None None.
Proof.
  split; [done|].
  unfold readFestivalAnswer, calendarList. cbn [text].
  by rewrite JSONparse_calendarText.
Qed.

Lemma join_app sep x xs ys :
  join sep ((x :: xs) ++ ys)
  = join sep (x :: xs) ++ match ys with [] => [] | _ :: _ => sep ++ join sep ys end.
Proof.
  revert x. induction xs as [|x' xs IH]; intros x.
  - destruct ys; simpl; by rewrite ?app_nil_r.
  - change (join sep ((x :: x' :: xs) ++ ys))
      with (x ++ sep ++ join sep ((x' :: xs) ++ ys)).
    rewrite IH. change (join sep (x :: x' :: xs)) with (x ++ sep ++ join sep (x' :: xs)).
    by rewrite <- !app_assoc.
Qed.

Lemma join_nonEmpty sep x xs :
  Listing.nonEmpty x = true → Listing.nonEmpty (join sep (x :: xs)) = true.
Proof. destruct x; [done|]. by destruct xs. Qed.

Lemma describeResource_nonEmpty r :
  Listing.nonEmpty (Listing.describeResource r) = true.
Proof. unfold Listing.describeResource. by destruct (Listing.name r). Qed.

Lemma describeTemplate_nonEmpty rt :
  Listing.nonEmpty (Listing.describeTemplate rt) = true.
Proof. unfold Listing.describeTemplate. by destruct (Listing.templateName rt). Qed.

Lemma join_filter_pair sep a b :
  join sep (List.filter Listing.nonEmpty [a; b])
  = match a, b with
    | [], _ => b
    | _, [] => a
    | _, _ => a ++ sep ++ b
    end.
Proof. by destruct a, b. Qed.

(** X17: joining the list of the resources and the list of the
    templates, with the empty ones left out, gives the same text as
    joining all the descriptions at once: no description is empty, so
    no separator is doubled and none stands at either end. *)
Theorem allResources_flat (resources : list Listing.resource)
        (templates : list Listing.template) :
  Listing.allResources resources templates
  = join (str ", ") (List.map Listing.describeResource resources
                     ++ List.map Listing.describeTemplate templates).
Proof.
  unfold Listing.allResources. rewrite join_filter_pair.
  destruct resources as [|r rs]; [done|].
  cbn [List.map].
  pose proof (join_nonEmpty (str ", ") _ (List.map Listing.describeResource rs)
                (describeResource_nonEmpty r)) as Hr.
  rewrite join_app. revert Hr.
  destruct (join (str ", ") (Listing.describeResource r :: _)) as [|c a]; [discriminate|].
  intros _.
  destruct templates as [|t ts]; [cbn [List.map join]; by rewrite app_nil_r|].
  cbn [List.map].
  pose proof (join_nonEmpty (str ", ") _ (List.map Listing.describeTemplate ts)
                (describeTemplate_nonEmpty t)) as Ht.
  revert Ht. destruct (join (str ", ") (Listing.describeTemplate t :: _)); [discriminate|done].
Qed.

(** X18: the second branch of the client reads a URI with [festival]
    in it in one case only, the alias [calendar-list], which it
    replaces by the URI of the list. *)
Theorem routeResource_alias (u v : jsstring) :
  (routeResource (Some u) = PlainFetch (Some v)
   ∧ includes (str "festival") v = true)
  ↔ u = str "calendar-list" ∧ v = str "calendar://all-festivals".
Proof.
  split.
  - intros [Hr Hv]. destruct u as [|c u]; [by simplify_eq/=|].
    unfold routeResource in Hr.
    destruct (includes (str "festival") (c :: u)) eqn:Hu; [done|].
    case_bool_decide as Heq; injection Hr as <-; [done|congruence].
  - by intros [-> ->].
Qed.

Lemma escapeApostrophes_head s c r :
  escapeApostrophes s = c :: r → c ≠ 39%N.
Proof.
  destruct s as [|d s]; [done|]. cbn [escapeApostrophes].
  destruct (N.eqb_spec d 39); intros [= <- _]; [done|lia].
Qed.

Lemma fixQuotes_escapeApostrophes s : fixQuotes (escapeApostrophes s) = s.
Proof.
  induction s as [|c s IH]; [done|]. cbn [escapeApostrophes].
  destruct (N.eqb_spec c 39) as [->|Hc].
  - change (fixQuotes (92%N :: 39%N :: escapeApostrophes s))
      with (39%N :: fixQuotes (escapeApostrophes s)).
    by rewrite IH.
  - destruct (escapeApostrophes s) as [|d r] eqn:He.
    + destruct s as [|d s]; [done|]. cbn [escapeApostrophes] in He.
      by destruct (d =? 39)%N.
    + cbn [fixQuotes]. cbn [fixQuotes] in IH.
      apply escapeApostrophes_head in He.
      apply N.eqb_neq in He. rewrite He, andb_false_r.
      by rewrite IH.
Qed.

Lemma escapeApostrophes_id s :
  forallb (λ c, negb (c =? 39)%N) s = true → escapeApostrophes s = s.
Proof.
  induction s as [|c s IH]; [done|]. cbn [forallb escapeApostrophes].
  intros [Hc Hs]%andb_prop. apply negb_true_iff in Hc. by rewrite Hc, IH.
Qed.

(** X19: the repair of the arguments undoes the escaping of
    apostrophes: a text that is refused with a backslash before every
    apostrophe is read as the text without those backslashes, and a
    text without apostrophes is read as it is. *)
Theorem parseArguments_repair (s : jsstring) :
  JSONparse (escapeApostrophes s) = None
  ∨ forallb (λ c, negb (c =? 39)%N) s = true →
  parseArguments (escapeApostrophes s) = JSONparse s.
Proof.
  unfold parseArguments. intros [Hfail|Hplain].
  - by rewrite Hfail, fixQuotes_escapeApostrophes.
  - rewrite (escapeApostrophes_id s Hplain).
    destruct (JSONparse s) eqn:Hs; [done|].
    rewrite <- (escapeApostrophes_id s Hplain), fixQuotes_escapeApostrophes.
    done.
Qed.

Lemma parseArguments_repair_witness :
  JSONparse (escapeApostrophes
               (str "{" ++ QuoteJSONString (str "resource_uri") ++ str ":"
                ++ QuoteJSONString (str "calendar://festival/King's Birthday/date")
                ++ str "}")) = None
  ∧ parseArguments (escapeApostrophes
               (str "{" ++ QuoteJSONString (str "resource_uri") ++ str ":"
                ++ QuoteJSONString (str "calendar://festival/King's Birthday/date")
                ++ str "}"))
    = Some (JObject [(str "resource_uri",
                      JString (str "calendar://festival/King's Birthday/date"))]).
Proof.
  assert (JSONparse (escapeApostrophes
               (str "{" ++ QuoteJSONString (str "resource_uri") ++ str ":"
                ++ QuoteJSONString (str "calendar://festival/King's Birthday/date")
                ++ str "}")) = None) as Hfail by (by vm_compute).
  split; [exact Hfail|].
  rewrite (parseArguments_repair _ (or_introl Hfail)). by vm_compute.
Defined.
